(** * covecrm-mobile: conversation synchronisation and realtime session

    A shallow embedding of the conversation sync engine, the thread loader,
    the deep-link resolver (screens/ConversationsScreen.tsx, App.tsx) and of
    the socket registry (lib/socketClient.ts), with the properties the
    specification states about them. *)

From Stdlib Require Import ZArith String Ascii List Bool Lia.
From stdpp Require Import gmap strings list.
Import ListNotations.

Local Open Scope string_scope.
Local Open Scope Z_scope.

(** ** JavaScript values used by the screens *)

Module JS.

(** A JavaScript number as the code meets it for time values: an integral
    number of milliseconds, or [NaN] (what [getTime] answers for an
    invalid [Date]). *)
Inductive JSNum : Type :=
| Num (z : Z)
| NaN.

(** [ToBoolean] on a number: [0] and [NaN] are falsy. *)
Definition truthy_num (n : JSNum) : bool :=
  match n with
  | Num z => negb (z =? 0)
  | NaN => false
  end.

(** [a > b]: false as soon as one side is [NaN]. *)
Definition gt (a b : JSNum) : bool :=
  match a, b with
  | Num x, Num y => y <? x
  | _, _ => false
  end.

(** [a >= b]: false as soon as one side is [NaN]. *)
Definition ge (a b : JSNum) : bool :=
  match a, b with
  | Num x, Num y => y <=? x
  | _, _ => false
  end.

(** [ToBoolean] on a string: only the empty string is falsy. *)
Definition truthy_str (s : string) : bool :=
  match s with
  | EmptyString => false
  | String _ _ => true
  end.

(** [ToBoolean] on an optional string ([undefined] and [null] are [None]). *)
Definition truthy_ostr (o : option string) : bool :=
  match o with
  | Some s => truthy_str s
  | None => false
  end.

(** [\d] of a regular expression without the unicode flag: [0-9]. *)
Definition isDigit (c : ascii) : bool :=
  let n := nat_of_ascii c in ((48 <=? n) && (n <=? 57))%nat.

(** [s.replace(/\D/g, "")]. *)
Fixpoint removeNonDigits (s : string) : string :=
  match s with
  | EmptyString => EmptyString
  | String c t =>
      if isDigit c then String c (removeNonDigits t) else removeNonDigits t
  end.

Fixpoint drop (n : nat) (s : string) : string :=
  match n, s with
  | O, _ => s
  | S k, String _ t => drop k t
  | S _, EmptyString => EmptyString
  end.

(** [s.slice(-n)]: the last [n] characters, the whole string when it is
    shorter. *)
Definition sliceLast (n : nat) (s : string) : string :=
  drop (String.length s - n) s.

(** [s.endsWith(suffix)]. *)
Definition endsWith (s suffix : string) : bool :=
  (String.length suffix <=? String.length s)%nat
  && String.eqb (drop (String.length s - String.length suffix) s) suffix.

(** *** Case and white space

    A JavaScript string is carried here by its UTF-8 bytes: equality,
    concatenation, prefixes and suffixes, and the ASCII digits are the same
    on both sides.

    [String.prototype.toLowerCase] follows the Unicode case tables of the
    platform, which the repository does not carry: the code that calls it is
    modelled over any such table. *)
Class CaseTable : Type := {
  toLowerCase : string -> string
}.

(** The table on the letters A-Z, every other byte left as it is: what every
    platform answers on an ASCII string.  The worked examples, all on ASCII
    strings, run it. *)
Definition lowerChar (c : ascii) : ascii :=
  let n := nat_of_ascii c in
  if ((65 <=? n) && (n <=? 90))%nat then ascii_of_nat (n + 32) else c.

Fixpoint asciiLowerCase (s : string) : string :=
  match s with
  | EmptyString => EmptyString
  | String c t => String (lowerChar c) (asciiLowerCase t)
  end.

Definition asciiTable : CaseTable := {| toLowerCase := asciiLowerCase |}.

(** The white space [String.prototype.trim] strips is the WhiteSpace and the
    LineTerminator of ECMAScript.  In one byte: TAB, LF, VT, FF, CR and the
    space. *)
Definition isSpace (c : ascii) : bool :=
  let n := nat_of_ascii c in
  ((n =? 32) || ((9 <=? n) && (n <=? 13)))%nat.

(** In two bytes: U+00A0 (C2 A0). *)
Definition isSpace2 (c1 c2 : ascii) : bool :=
  ((nat_of_ascii c1 =? 194) && (nat_of_ascii c2 =? 160))%nat.

(** In three bytes: U+1680 (E1 9A 80), U+2000 to U+200A (E2 80 80 to
    E2 80 8A), U+2028, U+2029 and U+202F (E2 80 A8, A9, AF), U+205F
    (E2 81 9F), U+3000 (E3 80 80) and U+FEFF (EF BB BF). *)
Definition isSpace3 (c1 c2 c3 : ascii) : bool :=
  let a := nat_of_ascii c1 in
  let b := nat_of_ascii c2 in
  let c := nat_of_ascii c3 in
  (((a =? 225) && (b =? 154) && (c =? 128))
   || ((a =? 226) && (b =? 128)
       && (((128 <=? c) && (c <=? 138)) || (c =? 168) || (c =? 169)
           || (c =? 175)))
   || ((a =? 226) && (b =? 129) && (c =? 159))
   || ((a =? 227) && (b =? 128) && (c =? 128))
   || ((a =? 239) && (b =? 187) && (c =? 191)))%nat.

(** The number of bytes of the white-space character [s] starts with; [0]
    when it starts with none. *)
Definition spaceWidth (s : string) : nat :=
  match s with
  | String c1 (String c2 (String c3 _)) =>
      if isSpace c1 then 1
      else if isSpace2 c1 c2 then 2
      else if isSpace3 c1 c2 c3 then 3 else 0
  | String c1 (String c2 EmptyString) =>
      if isSpace c1 then 1 else if isSpace2 c1 c2 then 2 else 0
  | String c1 EmptyString => if isSpace c1 then 1 else 0
  | EmptyString => 0
  end%nat.

(** [s.trimStart()]: the white-space characters at the head are removed. *)
Fixpoint trimStart (s : string) : string :=
  match s with
  | EmptyString => EmptyString
  | String c1 t1 =>
      if isSpace c1 then trimStart t1
      else
        match t1 with
        | EmptyString => s
        | String c2 t2 =>
            if isSpace2 c1 c2 then trimStart t2
            else
              match t2 with
              | EmptyString => s
              | String c3 t3 =>
                  if isSpace3 c1 c2 c3 then trimStart t3 else s
              end
        end
  end.

(** The string is made of white-space characters only. *)
Fixpoint allSpaces (s : string) : bool :=
  match s with
  | EmptyString => true
  | String c1 t1 =>
      if isSpace c1 then allSpaces t1
      else
        match t1 with
        | EmptyString => false
        | String c2 t2 =>
            if isSpace2 c1 c2 then allSpaces t2
            else
              match t2 with
              | EmptyString => false
              | String c3 t3 =>
                  if isSpace3 c1 c2 c3 then allSpaces t3 else false
              end
        end
  end.

(** [s.trimEnd()]: the string is cut where only white space follows. *)
Fixpoint trimEnd (s : string) : string :=
  match s with
  | EmptyString => EmptyString
  | String c t => if allSpaces s then EmptyString else String c (trimEnd t)
  end.

(** [s.trim()]. *)
Definition trim (s : string) : string := trimEnd (trimStart s).

End JS.

(** ** A concrete clock for the worked examples

    [new Date(s).getTime()] is a platform service.  The engine below takes it
    as a parameter; the worked examples run it on the ECMAScript date-time
    string format [YYYY-MM-DDTHH:mm:ss.sssZ], on which every implementation
    agrees.  Any other string is an invalid date here. *)

Module IsoDate.
Import JS.

Definition digitVal (c : ascii) : option Z :=
  if isDigit c then Some (Z.of_nat (nat_of_ascii c) - 48) else None.

Fixpoint digitsVal (acc : Z) (cs : list ascii) : option Z :=
  match cs with
  | [] => Some acc
  | c :: t =>
      match digitVal c with
      | Some d => digitsVal (10 * acc + d) t
      | None => None
      end
  end.

Definition isLeap (y : Z) : bool :=
  ((y mod 4 =? 0) && negb (y mod 100 =? 0)) || (y mod 400 =? 0).

Definition daysInMonth (y m : Z) : Z :=
  if m =? 2 then (if isLeap y then 29 else 28)
  else if (m =? 4) || (m =? 6) || (m =? 9) || (m =? 11) then 30
  else 31.

(** Days between 1970-01-01 and the civil date [y-m-d]. *)
Definition daysFromCivil (y m d : Z) : Z :=
  let y' := if m <=? 2 then y - 1 else y in
  let era := y' / 400 in
  let yoe := y' - era * 400 in
  let mp := if 2 <? m then m - 3 else m + 9 in
  let doy := (153 * mp + 2) / 5 + d - 1 in
  let doe := yoe * 365 + yoe / 4 - yoe / 100 + doy in
  era * 146097 + doe - 719468.

Definition getTime (s : string) : JSNum :=
  match list_ascii_of_string s with
  | [y1; y2; y3; y4; "-"%char; m1; m2; "-"%char; d1; d2; "T"%char;
     h1; h2; ":"%char; n1; n2; ":"%char; s1; s2; "."%char; f1; f2; f3;
     "Z"%char] =>
      match digitsVal 0 [y1; y2; y3; y4], digitsVal 0 [m1; m2],
            digitsVal 0 [d1; d2], digitsVal 0 [h1; h2],
            digitsVal 0 [n1; n2], digitsVal 0 [s1; s2],
            digitsVal 0 [f1; f2; f3] with
      | Some y, Some m, Some d, Some h, Some n, Some sec, Some ms =>
          if (1 <=? m) && (m <=? 12) && (1 <=? d) && (d <=? daysInMonth y m)
             && (h <=? 23) && (n <=? 59) && (sec <=? 59)
          then Num ((((daysFromCivil y m d * 24 + h) * 60 + n) * 60 + sec)
                    * 1000 + ms)
          else NaN
      | _, _, _, _, _, _, _ => NaN
      end
  | _ => NaN
  end.

End IsoDate.

(** ** screens/ConversationsScreen.tsx *)

Module ConversationsScreen.
Import JS.

Record Conversation : Type := {
  _id : string;
  name : string;
  phone : string;
  lastMessage : string;
  lastMessageTime : string;
  unread : option bool;
  unreadCount : option Z;
  lastMessageDirection : option string
}.

Inductive Direction : Type := inbound | outbound | ai.

Record Message : Type := {
  text : string;
  direction : Direction;
  leadId : option string;
  date : option string
}.

(** [normalizeDigits(p)]: [(p || "").replace(/\D/g, "")]. *)
Definition normalizeDigits (p : option string) : string :=
  removeNonDigits (match p with Some s => s | None => "" end).

(** [c.unreadCount ?? (c.unread ? 1 : 0)]. *)
Definition unreadValue (c : Conversation) : Z :=
  match unreadCount c with
  | Some n => n
  | None => match unread c with Some true => 1 | _ => 0 end
  end.

(** [lastMessageDirection === "inbound" || ... === "INBOUND"]. *)
Definition isInbound (c : Conversation) : bool :=
  match lastMessageDirection c with
  | Some d => String.eqb d "inbound" || String.eqb d "INBOUND"
  | None => false
  end.

Section SyncEngine.

(** [new Date(s).getTime()]. *)
Variable getTime : string -> JSNum.

(** [c.lastMessageTime ? new Date(c.lastMessageTime).getTime() : 0]. *)
Definition timeValue (c : Conversation) : JSNum :=
  if truthy_str (lastMessageTime c) then getTime (lastMessageTime c)
  else Num 0.

(** [for (const c of prevList) prevMap.set(c._id, c)]. *)
Definition buildPrevMap (prevList : list Conversation)
  : gmap string Conversation :=
  foldl (fun m c => <[_id c := c]> m) ∅ prevList.

(** The test [gotNewUnread || isBrandNewConv] of the loop body, for a
    conversation that passed the inbound filter. *)
Definition newlyNotified (prev : option Conversation)
    (current : Conversation) : bool :=
  let currUnread := unreadValue current in
  let prevUnread :=
    match prev with Some p => unreadValue p | None => 0 end in
  let currTime := timeValue current in
  let prevTime :=
    match prev with Some p => timeValue p | None => Num 0 end in
  let gotNewUnread := (prevUnread <? currUnread) && ge currTime prevTime in
  let isBrandNewConv :=
    match prev with Some _ => false | None => 0 <? currUnread end in
  gotNewUnread || isBrandNewConv.

(** Whether an iteration treats [current] as newly notified: it is
    inbound and passes the test above against its previous counterpart. *)
Definition qualifies (prevMap : gmap string Conversation)
    (current : Conversation) : bool :=
  isInbound current && newlyNotified (prevMap !! _id current) current.

(** One iteration of [for (const current of list)]. *)
Definition diffStep (prevMap : gmap string Conversation)
    (newestInbound : option Conversation) (current : Conversation)
  : option Conversation :=
  let prev := prevMap !! _id current in
  if negb (isInbound current) then newestInbound
  else if newlyNotified prev current then
    match newestInbound with
    | None => Some current
    | Some newest =>
        if truthy_num (timeValue current)
           && gt (timeValue current) (timeValue newest)
        then Some current
        else newestInbound
    end
  else newestInbound.

(** The value of [newestInbound] after the detection block of
    [fetchConversations]. *)
Definition detectNewestInbound (fromPoll : bool)
    (prevList list : list Conversation) : option Conversation :=
  if fromPoll && (0 <? length prevList)%nat
  then foldl (diffStep (buildPrevMap prevList)) None list
  else None.

(** A valid date not before the epoch. *)
Definition dated (c : Conversation) : Prop :=
  exists t, timeValue c = Num t /\ 0 <= t.

(** [r] is, in [l], the first of the qualifying conversations with the
    latest time, or nothing when none qualifies. *)
Definition firstLatest (pm : gmap string Conversation)
    (l : list Conversation) (r : option Conversation) : Prop :=
  match r with
  | None => forall c, In c l -> qualifies pm c = false
  | Some c =>
      exists before after,
        l = (before ++ c :: after)%list
        /\ qualifies pm c = true
        /\ (forall d, In d before -> qualifies pm d = true ->
              gt (timeValue c) (timeValue d) = true)
        /\ (forall d, In d after -> qualifies pm d = true ->
              ge (timeValue c) (timeValue d) = true)
  end.

(** The two quantities of the rule read off the fields of a conversation,
    written from the words of the rule, to be compared with [unreadValue]
    and [timeValue]: the unread value is the count when there is one, else
    the flag as 0 or 1; the time is that of a valid date, a missing time
    counting as the epoch. *)
Inductive unreadIs (c : Conversation) : Z -> Prop :=
| unread_count n : unreadCount c = Some n -> unreadIs c n
| unread_flag_set :
    unreadCount c = None -> unread c = Some true -> unreadIs c 1
| unread_flag_clear :
    unreadCount c = None -> unread c <> Some true -> unreadIs c 0.

Inductive stampIs (c : Conversation) : Z -> Prop :=
| stamp_missing : lastMessageTime c = "" -> stampIs c 0
| stamp_valid t :
    lastMessageTime c <> "" -> getTime (lastMessageTime c) = Num t ->
    stampIs c t.

End SyncEngine.

(** *** Component state *)

Record State : Type := {
  conversations : list Conversation;
  conversationsRef : list Conversation;
  loadingConvs : bool;
  convError : option string;
  selectedConv : option Conversation;
  messages : list Message;
  loadingMessages : bool;
  msgError : option string;
  bannerConv : option Conversation;
  bannerVisible : bool
}.

Definition initialState : State :=
  {| conversations := []; conversationsRef := []; loadingConvs := false;
     convError := None; selectedConv := None; messages := [];
     loadingMessages := false; msgError := None; bannerConv := None;
     bannerVisible := false |}.

Definition setConversations (l : list Conversation) (s : State) : State :=
  {| conversations := l; conversationsRef := conversationsRef s;
     loadingConvs := loadingConvs s; convError := convError s;
     selectedConv := selectedConv s; messages := messages s;
     loadingMessages := loadingMessages s; msgError := msgError s;
     bannerConv := bannerConv s; bannerVisible := bannerVisible s |}.

Definition setConversationsRef (l : list Conversation) (s : State) : State :=
  {| conversations := conversations s; conversationsRef := l;
     loadingConvs := loadingConvs s; convError := convError s;
     selectedConv := selectedConv s; messages := messages s;
     loadingMessages := loadingMessages s; msgError := msgError s;
     bannerConv := bannerConv s; bannerVisible := bannerVisible s |}.

Definition setLoadingConvs (b : bool) (s : State) : State :=
  {| conversations := conversations s;
     conversationsRef := conversationsRef s;
     loadingConvs := b; convError := convError s;
     selectedConv := selectedConv s; messages := messages s;
     loadingMessages := loadingMessages s; msgError := msgError s;
     bannerConv := bannerConv s; bannerVisible := bannerVisible s |}.

Definition setConvError (e : option string) (s : State) : State :=
  {| conversations := conversations s;
     conversationsRef := conversationsRef s;
     loadingConvs := loadingConvs s; convError := e;
     selectedConv := selectedConv s; messages := messages s;
     loadingMessages := loadingMessages s; msgError := msgError s;
     bannerConv := bannerConv s; bannerVisible := bannerVisible s |}.

Definition setSelectedConv (c : option Conversation) (s : State) : State :=
  {| conversations := conversations s;
     conversationsRef := conversationsRef s;
     loadingConvs := loadingConvs s; convError := convError s;
     selectedConv := c; messages := messages s;
     loadingMessages := loadingMessages s; msgError := msgError s;
     bannerConv := bannerConv s; bannerVisible := bannerVisible s |}.

Definition setMessages (l : list Message) (s : State) : State :=
  {| conversations := conversations s;
     conversationsRef := conversationsRef s;
     loadingConvs := loadingConvs s; convError := convError s;
     selectedConv := selectedConv s; messages := l;
     loadingMessages := loadingMessages s; msgError := msgError s;
     bannerConv := bannerConv s; bannerVisible := bannerVisible s |}.

Definition setLoadingMessages (b : bool) (s : State) : State :=
  {| conversations := conversations s;
     conversationsRef := conversationsRef s;
     loadingConvs := loadingConvs s; convError := convError s;
     selectedConv := selectedConv s; messages := messages s;
     loadingMessages := b; msgError := msgError s;
     bannerConv := bannerConv s; bannerVisible := bannerVisible s |}.

Definition setMsgError (e : option string) (s : State) : State :=
  {| conversations := conversations s;
     conversationsRef := conversationsRef s;
     loadingConvs := loadingConvs s; convError := convError s;
     selectedConv := selectedConv s; messages := messages s;
     loadingMessages := loadingMessages s; msgError := e;
     bannerConv := bannerConv s; bannerVisible := bannerVisible s |}.

Definition setBannerConv (c : option Conversation) (s : State) : State :=
  {| conversations := conversations s;
     conversationsRef := conversationsRef s;
     loadingConvs := loadingConvs s; convError := convError s;
     selectedConv := selectedConv s; messages := messages s;
     loadingMessages := loadingMessages s; msgError := msgError s;
     bannerConv := c; bannerVisible := bannerVisible s |}.

Definition setBannerVisible (b : bool) (s : State) : State :=
  {| conversations := conversations s;
     conversationsRef := conversationsRef s;
     loadingConvs := loadingConvs s; convError := convError s;
     selectedConv := selectedConv s; messages := messages s;
     loadingMessages := loadingMessages s; msgError := msgError s;
     bannerConv := bannerConv s; bannerVisible := b |}.

(** [useEffect(() => { conversationsRef.current = conversations },
    [conversations])]: run when a render commits. *)
Definition syncConversationsRef (s : State) : State :=
  setConversationsRef (conversations s) s.

(** [showBannerForConversation(conv)]; the five-second hide timer is not
    part of the state modelled here. *)
Definition showBannerForConversation (conv : Conversation) (s : State)
  : State :=
  setBannerVisible true (setBannerConv (Some conv) s).

(** [handleBannerPress]. *)
Definition handleBannerPress (s : State) : State :=
  match bannerConv s with
  | None => s
  | Some b =>
      let match_ :=
        match find (fun c => String.eqb (_id c) (_id b)) (conversations s)
        with
        | Some c => c
        | None => b
        end in
      setBannerVisible false (setSelectedConv (Some match_) s)
  end.

(** *** What an awaited request can come back with *)

(** The parsed JSON body: an array, or an object whose list field may be
    missing. *)
Inductive Body (A : Type) : Type :=
| ArrayBody (items : list A)
| ObjectBody (field : option (list A)).
Arguments ArrayBody {A} items.
Arguments ObjectBody {A} field.

(** [Array.isArray(data) ? data : data.field || []]. *)
Definition bodyList {A : Type} (b : Body A) : list A :=
  match b with
  | ArrayBody items => items
  | ObjectBody (Some items) => items
  | ObjectBody None => []
  end.

Inductive Outcome (A : Type) : Type :=
| Thrown (message : option string)
    (* fetch, res.text() or res.json() rejected with [err] *)
| NotOk (bodyText : string)
    (* a response with [res.ok] false *)
| Ok (body : Body A).
Arguments Thrown {A} message.
Arguments NotOk {A} bodyText.
Arguments Ok {A} body.

(** [err?.message || fallback]. *)
Definition errorText (message : option string) (fallback : string) : string :=
  match message with
  | Some m => if truthy_str m then m else fallback
  | None => fallback
  end.

Section Fetching.

Variable getTime : string -> JSNum.

(** [fetchConversations] up to its first [await]. *)
Definition fetchConversations_begin (fromPoll : bool) (s : State) : State :=
  setConvError None (if fromPoll then s else setLoadingConvs true s).

Definition fetchConversations_finally (fromPoll : bool) (s : State)
  : State :=
  if fromPoll then s else setLoadingConvs false s.

Definition fetchConversations_catch (message : option string) (s : State)
  : State :=
  setConversations []
    (setConvError
       (Some (errorText message "Failed to load conversations.")) s).

(** [fetchConversations] from the moment the request settles. *)
Definition fetchConversations_settle (fromPoll : bool)
    (r : Outcome Conversation) (s : State) : State :=
  fetchConversations_finally fromPoll
    match r with
    | Thrown message => fetchConversations_catch message s
    | NotOk _ =>
        fetchConversations_catch (Some "Failed to load conversations.") s
    | Ok body =>
        let list := bodyList body in
        let prevList := conversationsRef s in
        let newestInbound :=
          detectNewestInbound getTime fromPoll prevList list in
        let s1 := setConversations list s in
        match newestInbound with
        | Some c => if fromPoll then showBannerForConversation c s1 else s1
        | None => s1
        end
    end.

End Fetching.

(** [fetchMessages(leadId)] up to its first [await]; [None] when the
    guard [if (!leadId) return] leaves at once. *)
Definition fetchMessages_begin (leadId : string) (s : State) : option State :=
  if truthy_str leadId
  then Some (setMsgError None (setLoadingMessages true s))
  else None.

(** The [finally] of [fetchMessages]. *)
Definition fetchMessages_finally (s : State) : State :=
  setLoadingMessages false s.

(** [fetchMessages(leadId)] from the moment the request settles: to its end
    when the request failed, and up to the awaited mark-read request when
    the list was stored, the loading mark still set.  The continuation does
    not read [selectedConv]. *)
Definition fetchMessages_settle (leadId : string) (r : Outcome Message)
    (s : State) : State :=
  match r with
  | Thrown message =>
      fetchMessages_finally
        (setMessages []
           (setMsgError (Some (errorText message "Failed to load messages."))
              s))
  | NotOk _ =>
      fetchMessages_finally
        (setMessages [] (setMsgError (Some "Failed to load messages.") s))
  | Ok body => setMessages (bodyList body) s
  end.

(** Whether the continuation above stopped at the mark-read request. *)
Definition awaitsMarkRead (r : Outcome Message) : bool :=
  match r with
  | Ok _ => true
  | Thrown _ | NotOk _ => false
  end.

(** [fetchMessages(leadId)] from the moment the mark-read request settles,
    fulfilled or rejected alike (the inner [catch] only logs). *)
Definition fetchMessages_marked (s : State) : State :=
  fetchMessages_finally s.

(** [selectedConv?._id]. *)
Definition selectedId (s : State) : option string :=
  match selectedConv s with
  | Some c => Some (_id c)
  | None => None
  end.

(** *** The thread view with its message requests in flight *)

Record Thread : Type := {
  view : State;
  inFlight : list string;  (* the [leadId] of every pending [fetchMessages] *)
  marking : list string    (* the [leadId] of every awaited mark-read *)
}.

Definition initialThread : Thread :=
  {| view := initialState; inFlight := []; marking := [] |}.

(** [useEffect(..., [selectedConv?._id])]: start loading the selected
    thread, or empty the view when nothing is selected. *)
Definition selectionEffect (t : Thread) : Thread :=
  match selectedId (view t) with
  | Some id =>
      match fetchMessages_begin id (view t) with
      | Some s' =>
          {| view := s'; inFlight := (inFlight t ++ [id])%list;
             marking := marking t |}
      | None =>
          {| view := setMessages [] (view t); inFlight := inFlight t;
             marking := marking t |}
      end
  | None =>
      {| view := setMessages [] (view t); inFlight := inFlight t;
         marking := marking t |}
  end.

Inductive Event : Type :=
| Select (conv : Conversation)
    (* [handleSelectConversation(conv)] *)
| MessagesSettled (leadId : string) (r : Outcome Message)
    (* the request of [fetchMessages(leadId)] comes back *)
| MarkReadSettled (leadId : string).
    (* the mark-read request of [fetchMessages(leadId)] comes back *)

Definition isSelect (e : Event) : bool :=
  match e with
  | Select _ => true
  | MessagesSettled _ _ | MarkReadSettled _ => false
  end.

(** One turn of the event loop.  The selection effect runs only when
    [selectedConv?._id] changed; the requests settle in any order. *)
Inductive step : Thread -> Event -> Thread -> Prop :=
| step_select_same t conv :
    selectedId (view t) = Some (_id conv) ->
    step t (Select conv)
      {| view := setSelectedConv (Some conv) (view t);
         inFlight := inFlight t; marking := marking t |}
| step_select_other t conv :
    selectedId (view t) <> Some (_id conv) ->
    step t (Select conv)
      (selectionEffect
         {| view := setSelectedConv (Some conv) (view t);
            inFlight := inFlight t; marking := marking t |})
| step_settled t leadId r before after :
    inFlight t = (before ++ leadId :: after)%list ->
    step t (MessagesSettled leadId r)
      {| view := fetchMessages_settle leadId r (view t);
         inFlight := (before ++ after)%list;
         marking :=
           if awaitsMarkRead r then (marking t ++ [leadId])%list
           else marking t |}
| step_marked t leadId before after :
    marking t = (before ++ leadId :: after)%list ->
    step t (MarkReadSettled leadId)
      {| view := fetchMessages_marked (view t);
         inFlight := inFlight t;
         marking := (before ++ after)%list |}.

Inductive run : Thread -> list Event -> Thread -> Prop :=
| run_nil t : run t [] t
| run_cons t e t' es t'' : step t e t' -> run t' es t'' -> run t (e :: es) t''.

(** *** Deep-link auto-selection *)

Section DeepLink.

(** The state of the parent component that [onClearInitialTarget]
    updates. *)
Variable Parent : Type.

Record Props : Type := {
  initialPhone : option string;
  initialConversationId : option string;
  onClearInitialTarget : option (Parent -> Parent)
}.

(** The value of [target] once both lookups of the effect have run. *)
Definition resolveTarget (conversations : list Conversation)
    (initialConversationId initialPhone : option string)
  : option Conversation :=
  let target :=
    match initialConversationId with
    | Some id =>
        if truthy_str id
        then find (fun c => String.eqb (_id c) id) conversations
        else None
    | None => None
    end in
  match target with
  | Some c => Some c
  | None =>
      if truthy_ostr initialPhone then
        let targetDigits := normalizeDigits initialPhone in
        let targetLast10 := sliceLast 10 targetDigits in
        if truthy_str targetLast10 then
          find (fun c =>
                  let cd := normalizeDigits (Some (phone c)) in
                  endsWith cd targetLast10)
               conversations
        else None
      else None
  end.

(** The deep-link effect, on the component state and the parent's. *)
Definition deepLinkEffect (p : Props) (sp : State * Parent)
  : State * Parent :=
  let (s, parent) := sp in
  match selectedConv s with
  | Some _ => sp
  | None =>
      if negb (truthy_ostr (initialConversationId p))
         && negb (truthy_ostr (initialPhone p)) then sp
      else
        match conversations s with
        | [] => sp
        | _ :: _ =>
            match resolveTarget (conversations s)
                    (initialConversationId p) (initialPhone p) with
            | Some target =>
                (setSelectedConv (Some target) s,
                 match onClearInitialTarget p with
                 | Some clear => clear parent
                 | None => parent
                 end)
            | None => sp
            end
        end
  end.

(** Whether a run of the effect selects a conversation. *)
Definition deepLinkSelects (p : Props) (s : State) : bool :=
  match selectedConv s with
  | Some _ => false
  | None =>
      (truthy_ostr (initialConversationId p) || truthy_ostr (initialPhone p))
      && match conversations s with
         | [] => false
         | _ :: _ =>
             match resolveTarget (conversations s)
                     (initialConversationId p) (initialPhone p) with
             | Some _ => true
             | None => false
             end
         end
  end.

(** What can happen to the screen between two runs of the effect. *)
Inductive UiEvent : Type :=
| ConversationsChanged (l : list Conversation)   (* [setConversations(l)] *)
| UserSelected (conv : Conversation)   (* [handleSelectConversation] *)
| BannerPressed.                       (* [handleBannerPress] *)

Definition applyUi (e : UiEvent) (s : State) : State :=
  match e with
  | ConversationsChanged l => setConversations l s
  | UserSelected conv => setSelectedConv (Some conv) s
  | BannerPressed => handleBannerPress s
  end.

(** A render: the event is applied, then the effect runs with the props
    of that render (which may be stale). *)
Definition render (pe : Props * UiEvent) (sp : State * Parent)
  : State * Parent :=
  deepLinkEffect (fst pe) (applyUi (snd pe) (fst sp), snd sp).

Definition renders (pes : list (Props * UiEvent)) (sp : State * Parent)
  : State * Parent :=
  foldl (fun acc pe => render pe acc) sp pes.

(** How many times the effect selected a conversation along the
    renders. *)
Fixpoint deepLinkSelections (pes : list (Props * UiEvent))
    (sp : State * Parent) : nat :=
  match pes with
  | [] => O
  | pe :: rest =>
      ((if deepLinkSelects (fst pe) (applyUi (snd pe) (fst sp))
        then 1 else 0)
       + deepLinkSelections rest (render pe sp))%nat
  end.

End DeepLink.

Arguments initialPhone {Parent} _.
Arguments initialConversationId {Parent} _.
Arguments onClearInitialTarget {Parent} _.
Arguments deepLinkEffect {Parent} p sp.
Arguments deepLinkSelects {Parent} p s.
Arguments render {Parent} pe sp.
Arguments renders {Parent} pes sp.
Arguments deepLinkSelections {Parent} pes sp.

End ConversationsScreen.

(** ** App.tsx: the deep-link target and the props it hands down *)

Module App.
Import JS.

(** [ConversationDeepLinkTarget]; its [kind] is always ["conversation"]. *)
Record ConversationDeepLinkTarget : Type := {
  fromPhone : option string;
  conversationId : option string;
  messageId : option string
}.

(** The part of the App state the conversations screen depends on. *)
Record AppState : Type := {
  deepLinkTarget : option ConversationDeepLinkTarget
}.

Definition setDeepLinkTarget (t : option ConversationDeepLinkTarget)
    (a : AppState) : AppState :=
  {| deepLinkTarget := t |}.

(** [x || undefined] on an optional string. *)
Definition orUndefined (o : option string) : option string :=
  if truthy_ostr o then o else None.

(** The deep-link props of [<ConversationsScreen ... />]. *)
Definition conversationsProps (a : AppState)
  : ConversationsScreen.Props AppState :=
  let deepLink := deepLinkTarget a in
  {| ConversationsScreen.initialPhone :=
       match deepLink with
       | Some d => orUndefined (fromPhone d)
       | None => None
       end;
     ConversationsScreen.initialConversationId :=
       match deepLink with
       | Some d => orUndefined (conversationId d)
       | None => None
       end;
     ConversationsScreen.onClearInitialTarget :=
       Some (setDeepLinkTarget None) |}.

End App.

(** ** lib/socketClient.ts: the process-wide socket registry *)

Module SocketClient.
Import JS.

(** The callbacks a socket can carry: the three closures [createClient]
    installs, and the handlers a screen binds with [socket.on]. *)
Inductive Handler : Type :=
| LogConnectError
| LogError
| JoinOnConnect
| ScreenHandler (name : string).

(** A registered listener.  [stamp] numbers the [on] calls of the process,
    so two registrations are never confused. *)
Record Listener : Type := {
  event : string;
  stamp : nat;
  handler : Handler
}.

(** A Socket.IO client object, as far as this module touches it. *)
Record Socket : Type := {
  connected : bool;       (* [socket.connected] *)
  connecting : bool;      (* [connect()] was called, not yet established *)
  listeners : list Listener;
  emitted : list (string * string)   (* every [emit(event, payload)] so far *)
}.

(** The global object and the heap of sockets constructed so far; a socket
    is named by its position in [sockets]. *)
Record World : Type := {
  sockets : list Socket;
  nextStamp : nat;
  __crm_mobile_socket__ : option nat;
  __crm_mobile_socket_email__ : option string
}.

Definition emptyWorld : World :=
  {| sockets := []; nextStamp := O; __crm_mobile_socket__ := None;
     __crm_mobile_socket_email__ := None |}.

(** *** A state monad over [World] *)

Definition M (A : Type) : Type := World -> A * World.

Definition ret {A : Type} (a : A) : M A := fun w => (a, w).

Definition bind {A B : Type} (m : M A) (k : A -> M B) : M B :=
  fun w => let (a, w') := m w in k a w'.

Notation "x <- m ;; k" := (bind m (fun x => k))
  (at level 100, m at next level, right associativity).
Notation "m ;;; k" := (bind m (fun _ => k))
  (at level 100, right associativity).

Definition readSocket : M (option nat) :=
  fun w => (__crm_mobile_socket__ w, w).

Definition writeSocket (s : option nat) : M unit :=
  fun w => (tt, {| sockets := sockets w; nextStamp := nextStamp w;
                   __crm_mobile_socket__ := s;
                   __crm_mobile_socket_email__ :=
                     __crm_mobile_socket_email__ w |}).

Definition readEmail : M (option string) :=
  fun w => (__crm_mobile_socket_email__ w, w).

Definition writeEmail (e : option string) : M unit :=
  fun w => (tt, {| sockets := sockets w; nextStamp := nextStamp w;
                   __crm_mobile_socket__ := __crm_mobile_socket__ w;
                   __crm_mobile_socket_email__ := e |}).

(** Update of the socket object [sid] in place (nothing happens when no
    such object was constructed). *)
Definition modifySocket (sid : nat) (f : Socket -> Socket) : M unit :=
  fun w => (tt, {| sockets := alter f sid (sockets w);
                   nextStamp := nextStamp w;
                   __crm_mobile_socket__ := __crm_mobile_socket__ w;
                   __crm_mobile_socket_email__ :=
                     __crm_mobile_socket_email__ w |}).

(** [io(base, { ..., autoConnect: false })]: a new, idle socket object. *)
Definition io : M nat :=
  fun w =>
    (length (sockets w),
     {| sockets :=
          sockets w ++ [ {| connected := false; connecting := false;
                            listeners := []; emitted := [] |} ];
        nextStamp := nextStamp w;
        __crm_mobile_socket__ := __crm_mobile_socket__ w;
        __crm_mobile_socket_email__ := __crm_mobile_socket_email__ w |}).

Definition addListener (l : Listener) (s : Socket) : Socket :=
  {| connected := connected s; connecting := connecting s;
     listeners := listeners s ++ [l]; emitted := emitted s |}.

(** [socket.on(event, handler)]. *)
Definition on (sid : nat) (ev : string) (h : Handler) : M unit :=
  fun w =>
    (tt, {| sockets :=
              alter (addListener {| event := ev; stamp := nextStamp w;
                                    handler := h |}) sid (sockets w);
            nextStamp := S (nextStamp w);
            __crm_mobile_socket__ := __crm_mobile_socket__ w;
            __crm_mobile_socket_email__ := __crm_mobile_socket_email__ w |}).

(** [socket.emit(event, payload)]. *)
Definition emit (sid : nat) (ev payload : string) : M unit :=
  modifySocket sid (fun s =>
    {| connected := connected s; connecting := connecting s;
       listeners := listeners s; emitted := emitted s ++ [(ev, payload)] |}).

(** [socket.connect()]. *)
Definition connect (sid : nat) : M unit :=
  modifySocket sid (fun s =>
    {| connected := connected s; connecting := true;
       listeners := listeners s; emitted := emitted s |}).

(** [socket.disconnect()]. *)
Definition disconnect (sid : nat) : M unit :=
  modifySocket sid (fun s =>
    {| connected := false; connecting := false;
       listeners := listeners s; emitted := emitted s |}).

(** [socket.removeAllListeners()]. *)
Definition removeAllListeners (sid : nat) : M unit :=
  modifySocket sid (fun s =>
    {| connected := connected s; connecting := connecting s;
       listeners := []; emitted := emitted s |}).

(** [socket.connected]. *)
Definition isConnected (sid : nat) : M bool :=
  fun w =>
    (match sockets w !! sid with Some s => connected s | None => false end,
     w).

Definition createClient : M nat :=
  socket <- io ;;
  on socket "connect_error" LogConnectError ;;;
  on socket "error" LogError ;;;
  on socket "connect" JoinOnConnect ;;;
  ret socket.

(** [getSocket()].  The guard [if (!global) return null] never leaves:
    the global object always exists. *)
Definition getSocket : M (option nat) :=
  current <- readSocket ;;
  match current with
  | Some _ => ret tt
  | None => socket <- createClient ;; writeSocket (Some socket)
  end ;;;
  readSocket.

Section Platform.

(** The case table of the platform. *)
Context {table : CaseTable}.

(** [(userEmail || "").trim().toLowerCase()]. *)
Definition normalizeEmail (userEmail : option string) : string :=
  toLowerCase (trim (match userEmail with Some e => e | None => "" end)).

Definition connectAndJoin (userEmail : option string) : M (option nat) :=
  socket <- getSocket ;;
  match socket with
  | None => ret None
  | Some sid =>
      let normalized := normalizeEmail userEmail in
      writeEmail (if truthy_str normalized then Some normalized else None) ;;;
      isUp <- isConnected sid ;;
      (if isUp then ret tt else connect sid) ;;;
      (if truthy_str normalized then emit sid "join" normalized else ret tt) ;;;
      ret (Some sid)
  end.

Definition disconnectSocket : M unit :=
  socket <- getSocket ;;
  match socket with
  | Some sid => removeAllListeners sid ;;; disconnect sid
  | None => ret tt
  end ;;;
  writeSocket None ;;;
  writeEmail None.

(** *** The transport's side *)

(** The listeners of socket [sid] that an event named [ev] calls. *)
Definition listenersFor (ev : string) (sid : nat) (w : World)
  : list Listener :=
  match sockets w !! sid with
  | Some s => filter (fun l => event l = ev) (listeners s)
  | None => []
  end.

(** What one of the module's own closures does when called on [sid]. *)
Definition runHandler (sid : nat) (h : Handler) : M unit :=
  match h with
  | JoinOnConnect =>
      email <- readEmail ;;
      match email with
      | Some e => if truthy_str e then emit sid "join" (toLowerCase e)
                  else ret tt
      | None => ret tt
      end
  | LogConnectError | LogError | ScreenHandler _ => ret tt
  end.

Fixpoint runHandlers (sid : nat) (ls : list Listener) : M unit :=
  match ls with
  | [] => ret tt
  | l :: rest => runHandler sid (handler l) ;;; runHandlers sid rest
  end.

(** The transport reports the connection of [sid] established: the socket
    becomes connected and its ["connect"] listeners are called. *)
Definition transportConnected (sid : nat) : M unit :=
  modifySocket sid (fun s =>
    {| connected := true; connecting := false;
       listeners := listeners s; emitted := emitted s |}) ;;;
  (fun w => runHandlers sid (listenersFor "connect" sid w) w).

(** The transport lost the connection of [sid]. *)
Definition transportClosed (sid : nat) : M unit :=
  modifySocket sid (fun s =>
    {| connected := false; connecting := connecting s;
       listeners := listeners s; emitted := emitted s |}).

(** *** Vocabulary of the statements below *)

(** The object [createClient] builds when [n] listeners were registered
    in the process before. *)
Definition freshClient (n : nat) : Socket :=
  {| connected := false; connecting := false;
     listeners :=
       [ {| event := "connect_error"; stamp := n;
            handler := LogConnectError |};
         {| event := "error"; stamp := S n; handler := LogError |};
         {| event := "connect"; stamp := S (S n);
            handler := JoinOnConnect |} ];
     emitted := [] |}.

(** The one socket of the process: the registered one, or the next one to
    be constructed when none is registered. *)
Definition theSocket (w : World) : nat :=
  match __crm_mobile_socket__ w with
  | Some sid => sid
  | None => length (sockets w)
  end.

(** [w'] has the registered socket and the number of sockets of [w]. *)
Definition frame (w w' : World) : Prop :=
  __crm_mobile_socket__ w' = __crm_mobile_socket__ w
  /\ length (sockets w') = length (sockets w).

(** [w'] is [w] with the one socket constructed and registered. *)
Definition grew (w w' : World) : Prop :=
  __crm_mobile_socket__ w = None
  /\ __crm_mobile_socket__ w' = Some (length (sockets w))
  /\ length (sockets w') = S (length (sockets w)).

(** *** Sequences of calls without a disconnect *)

Inductive Op : Type :=
| OpGetSocket
| OpConnectAndJoin (userEmail : option string)
| OpBind (ev : string) (name : string)
    (* a screen binds a handler on the socket [getSocket()] gives it *)
| OpTransportConnected
| OpTransportClosed.

(** One operation; calls of [getSocket] and [connectAndJoin] answer
    [Some result]. *)
Definition runOp (o : Op) : M (option (option nat)) :=
  match o with
  | OpGetSocket => r <- getSocket ;; ret (Some r)
  | OpConnectAndJoin e => r <- connectAndJoin e ;; ret (Some r)
  | OpBind ev name =>
      r <- getSocket ;;
      match r with
      | Some sid => on sid ev (ScreenHandler name)
      | None => ret tt
      end ;;;
      ret (Some r)
  | OpTransportConnected =>
      current <- readSocket ;;
      match current with
      | Some sid => transportConnected sid
      | None => ret tt
      end ;;;
      ret None
  | OpTransportClosed =>
      current <- readSocket ;;
      match current with
      | Some sid => transportClosed sid
      | None => ret tt
      end ;;;
      ret None
  end.

Fixpoint runOps (os : list Op) : M (list (option nat)) :=
  match os with
  | [] => ret []
  | o :: rest =>
      r <- runOp o ;;
      rs <- runOps rest ;;
      ret (match r with Some x => x :: rs | None => rs end)
  end.

(** *** Scripts with disconnects, and the worlds they reach *)

Inductive Action : Type :=
| Do (o : Op)
| Disconnect.

Fixpoint runActions (acts : list Action) (w : World) : World :=
  match acts with
  | [] => w
  | Do o :: rest => runActions rest (snd (runOp o w))
  | Disconnect :: rest => runActions rest (snd (disconnectSocket w))
  end.

End Platform.

(** [m] keeps the property [P] of the world. *)
Definition preserves {A : Type} (P : World -> Prop) (m : M A) : Prop :=
  forall w, P w -> P (snd (m w)).

(** Every listener of every socket carries a stamp already issued. *)
Definition stampsBelow (w : World) : Prop :=
  Forall (fun s => Forall (fun l => (stamp l < nextStamp w)%nat)
                     (listeners s))
         (sockets w).

Definition wellFormed (w : World) : Prop :=
  stampsBelow w
  /\ (__crm_mobile_socket__ w = None ->
      __crm_mobile_socket_email__ w = None)
  /\ (forall sid, __crm_mobile_socket__ w = Some sid ->
        (sid < length (sockets w))%nat).

(** A socket after [removeAllListeners()] and [disconnect()]. *)
Definition closed (s : Socket) : Socket :=
  {| connected := false; connecting := false; listeners := [];
     emitted := emitted s |}.

End SocketClient.

(** ** Sample data for the worked examples *)

Module Samples.
Import JS ConversationsScreen.

(** A conversation with an unread count, a direction and a time, the
    other fields left empty. *)
Definition conv (id : string) (count : Z) (dir time : string)
  : Conversation :=
  {| _id := id; name := ""; phone := ""; lastMessage := "";
     lastMessageTime := time; unread := None; unreadCount := Some count;
     lastMessageDirection := Some dir |}.

Definition withPhone (id phoneNumber : string) : Conversation :=
  {| _id := id; name := ""; phone := phoneNumber; lastMessage := "";
     lastMessageTime := ""; unread := None; unreadCount := None;
     lastMessageDirection := None |}.

(** 50, 100 and 200 milliseconds after the epoch. *)
Definition t50 : string := "1970-01-01T00:00:00.050Z".
Definition t100 : string := "1970-01-01T00:00:00.100Z".
Definition t200 : string := "1970-01-01T00:00:00.200Z".

Definition a_before : Conversation := conv "a" 0 "inbound" t100.
Definition a_after : Conversation := conv "a" 1 "inbound" t200.
Definition b_new : Conversation := conv "b" 2 "inbound" t50.

Definition c_tie : Conversation := conv "c" 1 "inbound" t200.

(** Two brand-new conversations: one dated a second before the epoch,
    the next one dated at the epoch. *)
Definition early : Conversation :=
  conv "early" 1 "inbound" "1969-12-31T23:59:59.000Z".
Definition atEpoch : Conversation :=
  conv "epoch" 1 "inbound" "1970-01-01T00:00:00.000Z".

(** U+00A0, the no-break space, in UTF-8. *)
Definition nbsp : string := String "194"%char (String "160"%char "").

Definition msg (body : string) (owner : string) : Message :=
  {| text := body; direction := inbound; leadId := Some owner;
     date := None |}.

(** The thread view after: A selected, B selected, the request for A
    settled with one message. *)
Definition afterSelectA : Thread :=
  selectionEffect
    {| view := setSelectedConv (Some a_after) initialState;
       inFlight := []; marking := [] |}.

Definition afterSelectB : Thread :=
  selectionEffect
    {| view := setSelectedConv (Some b_new) (view afterSelectA);
       inFlight := inFlight afterSelectA; marking := marking afterSelectA |}.

Definition afterLateA : Thread :=
  {| view :=
       fetchMessages_settle "a" (Ok (ArrayBody [msg "from a" "a"]))
         (view afterSelectB);
     inFlight := ["b"]; marking := ["a"] |}.

(** A screen with one conversation loaded and nothing selected, under an
    App holding a notification target for its phone number. *)
Definition loadedScreen : State :=
  setConversations [withPhone "x" "555-123-4567"] initialState.

Definition pendingApp : App.AppState :=
  {| App.deepLinkTarget :=
       Some {| App.fromPhone := Some "+15551234567";
               App.conversationId := None;
               App.messageId := None |} |}.

(** A process whose socket is connected and joined, a screen handler
    bound on it. *)
Definition liveWorld : SocketClient.World :=
  snd (SocketClient.runOps (table := asciiTable)
         [SocketClient.OpConnectAndJoin (Some "ann@example.com");
          SocketClient.OpBind "newMessage" "handleNewMessage";
          SocketClient.OpTransportConnected]
         SocketClient.emptyWorld).

End Samples.

(** ** lib/socketClient.ts: the endpoint *)

Module SocketEndpoint.
Import JS.

(** The four variables of [process.env] that [resolveEndpoint] reads. *)
Record Env : Type := {
  EXPO_PUBLIC_SOCKET_URL : option string;
  NEXT_PUBLIC_SOCKET_URL : option string;
  EXPO_PUBLIC_SOCKET_PATH : option string;
  NEXT_PUBLIC_SOCKET_PATH : option string
}.

(** [a || d] with [a] a possibly missing string. *)
Definition orStr (a : option string) (d : string) : string :=
  match a with
  | Some x => if truthy_str x then x else d
  | None => d
  end.

(** [s.replace(/\/$/, "")]: one slash removed at the very end. *)
Fixpoint dropTrailingSlash (s : string) : string :=
  match s with
  | EmptyString => EmptyString
  | String c t =>
      match t with
      | EmptyString => if Ascii.eqb c "/" then EmptyString else s
      | String _ _ => String c (dropTrailingSlash t)
      end
  end.

Record Endpoint : Type := {
  base : string;
  path : string
}.

Definition resolveEndpoint (env : Env) : Endpoint :=
  let baseEnv :=
    dropTrailingSlash
      (trim (orStr (EXPO_PUBLIC_SOCKET_URL env)
               (orStr (NEXT_PUBLIC_SOCKET_URL env) ""))) in
  let pathEnvRaw :=
    orStr (Some (orStr (EXPO_PUBLIC_SOCKET_PATH env)
                   (orStr (NEXT_PUBLIC_SOCKET_PATH env) ""))) "" in
  let pathEnv := trim pathEnvRaw in
  let path :=
    if (0 <? String.length pathEnv)%nat
    then (if endsWith pathEnv "/" then pathEnv else pathEnv ++ "/")
    else "/socket/" in
  if truthy_str baseEnv
  then {| base := baseEnv; path := path |}
  else {| base := "https://covecrm.onrender.com"; path := "/socket/" |}.

End SocketEndpoint.

(** ** Vocabulary for the life of sockets across logins and logouts *)

Module SocketLife.
Import JS SocketClient.

(** A socket nobody can hear from: closed, not connecting, no listener. *)
Definition quiet (s : Socket) : Prop :=
  connected s = false /\ connecting s = false /\ listeners s = [].

(** Every socket other than the registered one is quiet. *)
Definition noStray (w : World) : Prop :=
  forall i s,
    sockets w !! i = Some s -> __crm_mobile_socket__ w <> Some i -> quiet s.

(** [w'] differs from [w] at most in the socket [sid] and in the stored
    identity. *)
Definition touches (sid : nat) (w w' : World) : Prop :=
  __crm_mobile_socket__ w' = __crm_mobile_socket__ w
  /\ length (sockets w') = length (sockets w)
  /\ forall j, j <> sid -> sockets w' !! j = sockets w !! j.

End SocketLife.

(** ** screens/ConversationsScreen.tsx: sending and realtime events *)

Module ConversationsScreenOps.
Import JS ConversationsScreen.

(** The requests a handler starts and does not wait for. *)
Inductive Cmd : Type :=
| FetchConversations (fromPoll : bool)
| FetchMessages (leadId : string)
| MarkRead (leadId : string).

(** The body of [POST /api/mobile/message]; its direction is always
    ["outbound"]. *)
Record SendPayload : Type := {
  payloadLeadId : string;
  payloadText : string
}.

(** The screen with the text of its input box. *)
Record Composer : Type := {
  screen : State;
  input : string
}.

(** [handleSend] up to its [await]: the request it posts, or nothing when
    the guard [if (!selectedConv || !input.trim()) return] leaves. *)
Definition handleSend_begin (c : Composer) : option SendPayload :=
  match selectedConv (screen c) with
  | None => None
  | Some conv =>
      if truthy_str (trim (input c))
      then Some {| payloadLeadId := _id conv; payloadText := trim (input c) |}
      else None
  end.

(** What the awaited request and [res.json()] come back with. *)
Inductive SendOutcome : Type :=
| SendThrown (message : option string)
    (* fetch or res.json() rejected, or reading the body threw *)
| SendNotOk (error : option string)
    (* [res.ok] false, with [data?.error] *)
| SendOk (msg : Message).
    (* [res.ok] true; [msg] is [data.message || data || { ...payload, date }] *)

(** [handleSend] from the moment the request settles. *)
Definition handleSend_settle (r : SendOutcome) (c : Composer)
  : Composer * list Cmd :=
  match r with
  | SendOk msg =>
      ({| screen :=
            fetchConversations_begin false
              (setMessages (messages (screen c) ++ [msg]) (screen c));
          input := "" |},
       [FetchConversations false])
  | SendNotOk error =>
      ({| screen :=
            setMsgError (Some (errorText error "Failed to send message."))
              (screen c);
          input := input c |}, [])
  | SendThrown message =>
      ({| screen :=
            setMsgError (Some (errorText message "Failed to send message."))
              (screen c);
          input := input c |}, [])
  end.

(** The payload of a [newMessage] or [message:new] socket event. *)
Record Incoming : Type := {
  inLeadId : option string;
  inText : string;
  inDirection : Direction;
  inDate : option string
}.

(** [message.date || new Date().toISOString()]. *)
Definition orStrDate (d : option string) (now : string) : string :=
  match d with
  | Some x => if truthy_str x then x else now
  | None => now
  end.

(** [selectedConv?._id && leadId === selectedConv._id]. *)
Definition targetsOpenThread (leadId : string) (s : State) : bool :=
  match selectedId s with
  | Some id => truthy_str id && String.eqb leadId id
  | None => false
  end.

(** [handleNewMessage(message)]; [now] is [new Date().toISOString()]. *)
Definition handleNewMessage (now : string) (message : Incoming) (s : State)
  : State * list Cmd :=
  match inLeadId message with
  | None => (s, [])
  | Some leadId =>
      if negb (truthy_str leadId) then (s, [])
      else
        let appended :=
          if targetsOpenThread leadId s then
            (setMessages
               (messages s
                ++ [ {| text := inText message;
                        direction := inDirection message;
                        leadId := Some leadId;
                        date := Some (orStrDate (inDate message) now) |} ])
               s,
             match inDirection message with
             | inbound => [MarkRead leadId]
             | _ => []
             end)
          else (s, []) in
        (fetchConversations_begin true (fst appended),
         (snd appended ++ [FetchConversations true])%list)
  end.

(** [handleServerMessageNew(payload)]. *)
Definition handleServerMessageNew (payload : Incoming) (s : State)
  : State * list Cmd :=
  let refetch :=
    match inLeadId payload with
    | Some leadId =>
        if truthy_str leadId
           && match selectedId s with
              | Some id => String.eqb id leadId
              | None => false
              end
        then
          match fetchMessages_begin leadId s with
          | Some s' => (s', [FetchMessages leadId])
          | None => (s, [])
          end
        else (s, [])
    | None => (s, [])
    end in
  (fetchConversations_begin true (fst refetch),
   (snd refetch ++ [FetchConversations true])%list).

End ConversationsScreenOps.

(** ** More of the JavaScript string library *)

Module JSMore.
Import JS.

(** [s.startsWith(prefix)]. *)
Fixpoint startsWith (s prefix : string) : bool :=
  match prefix, s with
  | EmptyString, _ => true
  | String p ps, String c cs => Ascii.eqb c p && startsWith cs ps
  | String _ _, EmptyString => false
  end.

(** [s.slice(from, to)] for [0 <= from <= to]. *)
Definition slice (from to : nat) (s : string) : string :=
  String.substring from (to - from) s.

(** The string does not start with a white-space character. *)
Definition headNotSpace (s : string) : Prop := spaceWidth s = O.

(** The string is made of the digits [0-9] only. *)
Fixpoint digitsOnly (s : string) : bool :=
  match s with
  | EmptyString => true
  | String c t => isDigit c && digitsOnly t
  end.

(** The string is made of bytes below 128 other than white space. *)
Fixpoint noSpace (s : string) : bool :=
  match s with
  | EmptyString => true
  | String c t =>
      negb (isSpace c) && (nat_of_ascii c <? 128)%nat && noSpace t
  end.

End JSMore.

(** ** lib/voiceClient.ts *)

Module VoiceClient.
Import JS.

(** The module-level variables; [tvPresent] is [tv !== null], fixed when the
    module loads, and a call object is named by a number. *)
Record Voice : Type := {
  tvPresent : bool;
  registeredToken : option string;
  registering : bool;
  activeCall : option nat;
  mobileAuthToken : option string
}.

Definition setMobileAuthToken (token : option string) (v : Voice) : Voice :=
  {| tvPresent := tvPresent v; registeredToken := registeredToken v;
     registering := registering v; activeCall := activeCall v;
     mobileAuthToken := token |}.

Definition setRegistering (b : bool) (v : Voice) : Voice :=
  {| tvPresent := tvPresent v; registeredToken := registeredToken v;
     registering := b; activeCall := activeCall v;
     mobileAuthToken := mobileAuthToken v |}.

Definition setRegisteredToken (t : option string) (v : Voice) : Voice :=
  {| tvPresent := tvPresent v; registeredToken := t;
     registering := registering v; activeCall := activeCall v;
     mobileAuthToken := mobileAuthToken v |}.

Definition setActiveCall (c : option nat) (v : Voice) : Voice :=
  {| tvPresent := tvPresent v; registeredToken := registeredToken v;
     registering := registering v; activeCall := c;
     mobileAuthToken := mobileAuthToken v |}.

(** The [Authorization] header of the token request, when one is sent. *)
Definition fetchVoiceToken_headers (v : Voice) : option string :=
  match mobileAuthToken v with
  | Some t => if truthy_str t then Some ("Bearer " ++ t) else None
  | None => None
  end.

(** The fields of the reply that [fetchVoiceToken] reads. *)
Record TokenJson : Type := {
  token : option string;
  message : option string;
  error : option string
}.

(** [{}], what [res.json().catch(() => ({}))] falls back to. *)
Definition emptyJson : TokenJson :=
  {| token := None; message := None; error := None |}.

Inductive TokenReply : Type :=
| FetchRejected (errMessage : option string)
| Replied (ok : bool) (json : option TokenJson).
    (* [json] is [None] when [res.json()] rejected *)

Inductive Attempt (A : Type) : Type :=
| Returned (a : A)
| Threw (errMessage : option string).
Arguments Returned {A} a.
Arguments Threw {A} errMessage.

(** [a || b || c] on optional strings, [c] a literal. *)
Definition firstTruthy (a b : option string) (c : string) : string :=
  match a with
  | Some x => if truthy_str x then x else
      match b with
      | Some y => if truthy_str y then y else c
      | None => c
      end
  | None =>
      match b with
      | Some y => if truthy_str y then y else c
      | None => c
      end
  end.

(** [fetchVoiceToken] from the moment the request settles. *)
Definition fetchVoiceToken_settle (r : TokenReply) : Attempt string :=
  match r with
  | FetchRejected m => Threw m
  | Replied ok j =>
      let json := match j with Some x => x | None => emptyJson end in
      match token json with
      | Some t =>
          if ok && truthy_str t then Returned t
          else Threw (Some (firstTruthy (message json) (error json)
                              "Unable to fetch Twilio Voice access token."))
      | None =>
          Threw (Some (firstTruthy (message json) (error json)
                         "Unable to fetch Twilio Voice access token."))
      end
  end.

Definition sdkMissing : string :=
  "Twilio Voice SDK not available in this build. Install @twilio/voice-react-native-sdk and run a dev/production build (not Expo Go).".

(** How far [ensureVoiceRegistered] gets before its first [await]. *)
Inductive Begin : Type :=
| BeginThrows (errMessage : string)   (* [assertTwilioAvailable] *)
| BeginReturns                        (* already registered, or in progress *)
| BeginFetches (v : Voice).           (* [registering = true], token asked *)

Definition ensureVoiceRegistered_begin (v : Voice) : Begin :=
  if negb (tvPresent v) then BeginThrows sdkMissing
  else if registering v then BeginReturns
  else
    match registeredToken v with
    | Some t =>
        if truthy_str t then BeginReturns
        else BeginFetches (setRegistering true v)
    | None => BeginFetches (setRegistering true v)
    end.

(** [ensureVoiceRegistered] from the token reply on; [registerOk] tells
    whether [tv.register(token)] resolved. *)
Definition ensureVoiceRegistered_settle (r : TokenReply) (registerOk : bool)
    (v : Voice) : Voice * Attempt unit :=
  match fetchVoiceToken_settle r with
  | Returned t =>
      if registerOk
      then (setRegistering false (setRegisteredToken (Some t) v), Returned tt)
      else (setRegistering false v, Threw None)
  | Threw m => (setRegistering false v, Threw m)
  end.

(** The events of a call that [startOutboundCallFromMobile] listens to. *)
Inductive CallEvent : Type :=
| connected
| disconnected
| reconnecting
| reconnected
| failedToConnect
| callQualityWarningsChanged.

(** What a listener does: the new module state and the status handed to
    [onStatus], if any. *)
Definition onCallEvent (e : CallEvent) (v : Voice) : Voice * option string :=
  match e with
  | connected => (v, Some "connected")
  | disconnected => (setActiveCall None v, Some "disconnected")
  | reconnecting => (v, Some "reconnecting")
  | reconnected => (v, Some "connected")
  | failedToConnect => (setActiveCall None v, Some "failed")
  | callQualityWarningsChanged => (v, None)
  end.

(** [hangupMobileCall]: whatever [disconnect()] does, the call is dropped. *)
Definition hangupMobileCall (v : Voice) : Voice := setActiveCall None v.

End VoiceClient.

(** ** lib/notifications.ts *)

Module Notifications.
Import JS.

Inductive PermissionStatus : Type := granted | denied | undetermined.

Inductive Answer (A : Type) : Type :=
| Resolves (a : A)
| Rejects.
Arguments Resolves {A} a.
Arguments Rejects {A}.

(** What the device and the Expo SDK answer during one registration. *)
Record Device : Type := {
  isDevice : bool;
  expoConfigProjectId : option string;   (* expoConfig?.extra?.eas?.projectId *)
  easConfigProjectId : option string;    (* easConfig?.projectId *)
  OS : string;                           (* Platform.OS *)
  osInternalBuildId : option string;
  osBuildId : option string;
  getPermissionsAsync : Answer PermissionStatus;
  requestPermissionsAsync : Answer PermissionStatus;
  setNotificationChannelAsync : Answer unit;
  getExpoPushTokenAsync : Answer string  (* [tokenResponse.data] *)
}.

Inductive SdkCall : Type :=
| GetPermissions
| RequestPermissions
| SetNotificationChannel
| GetExpoPushToken.

Inductive PlatformName : Type := ios | android | unknown.

Record PushRegistrationResult : Type := {
  expoPushToken : string;
  platform : PlatformName;
  deviceId : option string
}.

(** [a || b || undefined] on optional strings. *)
Definition firstId (a b : option string) : option string :=
  if truthy_ostr a then a else if truthy_ostr b then b else None.

Definition platformOf (os : string) : PlatformName :=
  if String.eqb os "ios" then ios
  else if String.eqb os "android" then android
  else unknown.

Definition isGranted (s : PermissionStatus) : bool :=
  match s with granted => true | _ => false end.

(** [registerForPushNotificationsAsync]: its result and the SDK calls it
    made, in order.  Any rejection lands in the [catch] and answers null. *)
Definition registerForPushNotificationsAsync (d : Device)
  : option PushRegistrationResult * list SdkCall :=
  if negb (isDevice d) then (None, [])
  else
    match firstId (expoConfigProjectId d) (easConfigProjectId d) with
    | None => (None, [])
    | Some _ =>
        match getPermissionsAsync d with
        | Rejects => (None, [GetPermissions])
        | Resolves existingStatus =>
            let asked := negb (isGranted existingStatus) in
            let calls1 :=
              if asked then [GetPermissions; RequestPermissions]
              else [GetPermissions] in
            match (if asked then requestPermissionsAsync d
                   else Resolves existingStatus) with
            | Rejects => (None, calls1)
            | Resolves finalStatus =>
                if negb (isGranted finalStatus) then (None, calls1)
                else
                  let onAndroid := String.eqb (OS d) "android" in
                  let calls2 :=
                    if onAndroid then (calls1 ++ [SetNotificationChannel])%list
                    else calls1 in
                  match (if onAndroid then setNotificationChannelAsync d
                         else Resolves tt) with
                  | Rejects => (None, calls2)
                  | Resolves _ =>
                      match getExpoPushTokenAsync d with
                      | Rejects => (None, (calls2 ++ [GetExpoPushToken])%list)
                      | Resolves tokenData =>
                          if truthy_str tokenData then
                            (Some {| expoPushToken := tokenData;
                                     platform := platformOf (OS d);
                                     deviceId :=
                                       firstId (osInternalBuildId d)
                                         (osBuildId d) |},
                             (calls2 ++ [GetExpoPushToken])%list)
                          else (None, (calls2 ++ [GetExpoPushToken])%list)
                      end
                  end
            end
        end
    end.

End Notifications.

(** ** App.tsx: login, logout, navigation and notification taps *)

Module AppShell.
Import JS.

Inductive Screen : Type :=
| login | home | folders | leads | conversations | numbers.

Record MobileUser : Type := {
  id : string;
  email : string;
  name : string;
  role : string;
  affiliateCode : option string
}.

(** The state of the [App] component. *)
Record Shell : Type := {
  screen : Screen;
  emailField : string;       (* [email] *)
  password : string;
  loading : bool;
  error : option string;
  token : option string;
  user : option MobileUser;
  activeFolderId : option string;
  activeFolderName : string;
  isMenuOpen : bool;
  deepLink : App.AppState    (* [deepLinkTarget] *)
}.

(** The component state together with the two modules it drives. *)
Record Process : Type := {
  shell : Shell;
  socketWorld : SocketClient.World;
  voice : VoiceClient.Voice
}.

Definition initialShell : Shell :=
  {| screen := login; emailField := ""; password := ""; loading := false;
     error := None; token := None; user := None; activeFolderId := None;
     activeFolderName := ""; isMenuOpen := false;
     deepLink := {| App.deepLinkTarget := None |} |}.

(** [navigateTo(next)]. *)
Definition navigateTo (next : Screen) (a : Shell) : Shell :=
  {| screen := next; emailField := emailField a; password := password a;
     loading := loading a; error := error a; token := token a;
     user := user a; activeFolderId := activeFolderId a;
     activeFolderName := activeFolderName a; isMenuOpen := false;
     deepLink :=
       match next with
       | conversations => deepLink a
       | _ => App.setDeepLinkTarget None (deepLink a)
       end |}.

(** A JSON value as far as [handleNotificationData] looks at it. *)
Inductive JsVal : Type :=
| JUndefined
| JNull
| JBool (b : bool)
| JNumber (z : Z)
| JString (s : string)
| JObject.

Definition truthy_val (v : JsVal) : bool :=
  match v with
  | JUndefined | JNull => false
  | JBool b => b
  | JNumber z => negb (z =? 0)
  | JString s => truthy_str s
  | JObject => true
  end.

(** The fields of a notification's [data] that the handler reads. *)
Record NotificationData : Type := {
  _type : JsVal;
  type : JsVal;
  fromPhone : JsVal;
  conversationId : JsVal;
  messageId : JsVal
}.

(** [typeof v === "string" ? v : null]. *)
Definition stringOrNull (v : JsVal) : option string :=
  match v with
  | JString s => Some s
  | _ => None
  end.

(** [handleNotificationData(data)]; [None] is a null or undefined [data]. *)
Definition handleNotificationData (data : option NotificationData)
    (a : Shell) : Shell :=
  match data with
  | None => a
  | Some d =>
      let type := if truthy_val (_type d) then _type d else type d in
      match type with
      | JString t =>
          if String.eqb t "incoming_sms" then
            {| screen := conversations; emailField := emailField a;
               password := password a; loading := loading a;
               error := error a; token := token a; user := user a;
               activeFolderId := activeFolderId a;
               activeFolderName := activeFolderName a; isMenuOpen := false;
               deepLink :=
                 App.setDeepLinkTarget
                   (Some {| App.fromPhone := stringOrNull (fromPhone d);
                            App.conversationId :=
                              stringOrNull (conversationId d);
                            App.messageId := stringOrNull (messageId d) |})
                   (deepLink a) |}
          else a
      | _ => a
      end
  end.

(** The body of [POST /api/mobile/login]. *)
Record Credentials : Type := {
  credEmail : string;
  credPassword : string
}.

(** [handleLogin] up to its [await]: the new state and the request posted,
    if the form passes the check. *)
Definition handleLogin_begin (a : Shell) : Shell * option Credentials :=
  if negb (truthy_str (trim (emailField a)))
     || negb (truthy_str (password a))
  then
    ({| screen := screen a; emailField := emailField a;
        password := password a; loading := loading a;
        error := Some "Email and password are required."; token := token a;
        user := user a; activeFolderId := activeFolderId a;
        activeFolderName := activeFolderName a; isMenuOpen := isMenuOpen a;
        deepLink := deepLink a |}, None)
  else
    ({| screen := screen a; emailField := emailField a;
        password := password a; loading := true; error := None;
        token := token a; user := user a;
        activeFolderId := activeFolderId a;
        activeFolderName := activeFolderName a; isMenuOpen := isMenuOpen a;
        deepLink := deepLink a |},
     Some {| credEmail := emailField a; credPassword := password a |}).

Inductive LoginOutcome : Type :=
| LoginThrown (message : option string)
| LoginRefused (error : option string)          (* [{ ok: false, error }] *)
| LoginAccepted (token : string) (user : MobileUser).

Definition withError (e : string) (a : Shell) : Shell :=
  {| screen := screen a; emailField := emailField a; password := password a;
     loading := false; error := Some e; token := token a; user := user a;
     activeFolderId := activeFolderId a;
     activeFolderName := activeFolderName a; isMenuOpen := isMenuOpen a;
     deepLink := deepLink a |}.

Section Platform.

(** The case table of the platform. *)
Context {table : CaseTable}.

(** [handleLogin] from the moment the request settles. *)
Definition handleLogin_settle (r : LoginOutcome) (p : Process) : Process :=
  match r with
  | LoginThrown message =>
      {| shell :=
           withError (ConversationsScreen.errorText message "Network error.")
             (shell p);
         socketWorld := socketWorld p; voice := voice p |}
  | LoginRefused e =>
      {| shell :=
           withError
             (ConversationsScreen.errorText e
                "Login failed. Check your email/password.")
             (shell p);
         socketWorld := socketWorld p; voice := voice p |}
  | LoginAccepted t u =>
      let a := shell p in
      {| shell :=
           {| screen := home; emailField := emailField a;
              password := password a; loading := false; error := error a;
              token := Some t; user := Some u;
              activeFolderId := activeFolderId a;
              activeFolderName := activeFolderName a;
              isMenuOpen := isMenuOpen a; deepLink := deepLink a |};
         socketWorld :=
           snd (SocketClient.connectAndJoin (Some (toLowerCase (email u)))
                  (socketWorld p));
         voice := VoiceClient.setMobileAuthToken (Some t) (voice p) |}
  end.

End Platform.

(** [handleLogout]. *)
Definition handleLogout (p : Process) : Process :=
  {| shell :=
       {| screen := login; emailField := ""; password := "";
          loading := loading (shell p); error := error (shell p);
          token := None; user := None; activeFolderId := None;
          activeFolderName := ""; isMenuOpen := false;
          deepLink := App.setDeepLinkTarget None (deepLink (shell p)) |};
     socketWorld := snd (SocketClient.disconnectSocket (socketWorld p));
     voice := VoiceClient.setMobileAuthToken None (voice p) |}.

End AppShell.

(** ** The conversations screen with a Back and a Call button

    The revision of screens/ConversationsScreen.tsx stored in
    src/screens/FoldersScreen.tsx.  Its fetches, socket handlers and
    deep-link effect are those of the module above. *)

Module ConversationsPane.
Import JS JSMore ConversationsScreen.

Definition toE164 (p : option string) : string :=
  let digits := normalizeDigits p in
  if negb (truthy_str digits) then ""
  else if (String.length digits =? 11)%nat && startsWith digits "1"
  then "+" ++ digits
  else if (String.length digits =? 10)%nat then "+1" ++ digits
  else
    match p with
    | Some s =>
        if truthy_str s && startsWith (trim s) "+" then trim s
        else "+" ++ digits
    | None => "+" ++ digits
    end.

Definition safeDisplayName {table : CaseTable} (name phone : option string)
  : string :=
  let trimmed := trim (match name with Some n => n | None => "" end) in
  let isSmsLead :=
    truthy_str trimmed && String.eqb (toLowerCase trimmed) "sms lead" in
  if negb (truthy_str trimmed) || isSmsLead then
    let shown := trim (match phone with Some x => x | None => "" end) in
    if truthy_str shown then shown else "Unknown"
  else trimmed.

(** [handleBackFromThread]. *)
Definition handleBackFromThread (s : State) : State :=
  setMsgError None (setMessages [] (setSelectedConv None s)).

(** How far [handleCallPress] gets before its [await]. *)
Inductive CallPress : Type :=
| NothingToCall                      (* no selection, or no phone on it *)
| InvalidNumber (s : State)          (* the error is shown, no call *)
| Dial (to : string) (s : State).    (* [startOutboundCallFromMobile({ to })] *)

Definition handleCallPress_begin (s : State) : CallPress :=
  match selectedConv s with
  | None => NothingToCall
  | Some conv =>
      if negb (truthy_str (phone conv)) then NothingToCall
      else
        let e164 := toE164 (Some (phone conv)) in
        if negb (truthy_str e164)
        then InvalidNumber
               (setMsgError
                  (Some "This contact does not have a valid phone number.") s)
        else Dial e164 (setMsgError None s)
  end.

(** The guard at the head of [startOutboundCallFromMobile]. *)
Definition startOutboundCall_rejects (to : string) : bool :=
  negb (truthy_str to).

End ConversationsPane.

(** ** screens/NumbersScreen.tsx *)

Module NumbersScreen.
Import JS JSMore.

(** [format(num)]: like 415-555-1234. *)
Definition format (num : string) : string :=
  let cleaned := removeNonDigits num in
  if (String.length cleaned =? 11)%nat then
    slice 0 1 cleaned ++ "-" ++ slice 1 4 cleaned ++ "-"
    ++ slice 4 7 cleaned ++ "-" ++ drop 7 cleaned
  else if (String.length cleaned =? 10)%nat then
    slice 0 3 cleaned ++ "-" ++ slice 3 6 cleaned ++ "-" ++ drop 6 cleaned
  else num.

End NumbersScreen.

(** ** Events that add to the open thread *)

Module ThreadGrowth.
Import JS ConversationsScreen ConversationsScreenOps.

(** What reaches the thread view while a conversation stays open: a send
    that settles, a socket event, a message fetch that settles, and the
    mark-read request of such a fetch coming back. *)
Inductive Arrival : Type :=
| SendSettled (r : SendOutcome)
| NewMessage (now : string) (message : Incoming)
| ServerMessageNew (payload : Incoming)
| FetchSettled (leadId : string) (r : Outcome Message)
| MarkReadSettled.

Definition arrive (a : Arrival) (c : Composer) : Composer :=
  match a with
  | SendSettled r => fst (handleSend_settle r c)
  | NewMessage now message =>
      {| screen := fst (handleNewMessage now message (screen c));
         input := input c |}
  | ServerMessageNew payload =>
      {| screen := fst (handleServerMessageNew payload (screen c));
         input := input c |}
  | FetchSettled leadId r =>
      {| screen := fetchMessages_settle leadId r (screen c);
         input := input c |}
  | MarkReadSettled =>
      {| screen := fetchMessages_marked (screen c); input := input c |}
  end.

Definition arrivals (l : list Arrival) (c : Composer) : Composer :=
  foldl (fun acc a => arrive a acc) c l.

Definition isFetchSettled (a : Arrival) : bool :=
  match a with
  | FetchSettled _ _ => true
  | _ => false
  end.

(** The list a settled fetch puts on display. *)
Definition settledList (r : Outcome Message) : list Message :=
  match r with
  | Ok body => bodyList body
  | Thrown _ | NotOk _ => []
  end.

(** The message an arrival adds to a view whose open thread is [open]. *)
Definition added (open : option string) (a : Arrival) : list Message :=
  match a with
  | SendSettled (SendOk msg) => [msg]
  | SendSettled _ => []
  | NewMessage now message =>
      match inLeadId message, open with
      | Some leadId, Some id =>
          if truthy_str leadId && truthy_str id && String.eqb leadId id
          then [ {| text := inText message;
                    direction := inDirection message;
                    leadId := Some leadId;
                    date := Some (orStrDate (inDate message) now) |} ]
          else []
      | _, _ => []
      end
  | ServerMessageNew _ | FetchSettled _ _ | MarkReadSettled => []
  end.

End ThreadGrowth.

(** * Properties *)

Import JS ConversationsScreen.

Example iso_epoch : IsoDate.getTime "1970-01-01T00:00:00.000Z" = Num 0.
Proof. reflexivity. Qed.

Example iso_100ms : IsoDate.getTime Samples.t100 = Num 100.
Proof. reflexivity. Qed.

Example iso_2024 :
  IsoDate.getTime "2024-03-01T12:30:15.250Z" = Num 1709296215250.
Proof. vm_compute. reflexivity. Qed.

Example iso_before_epoch :
  IsoDate.getTime "1969-12-31T23:59:59.000Z" = Num (-1000).
Proof. vm_compute. reflexivity. Qed.

Example iso_invalid : IsoDate.getTime "yesterday" = NaN.
Proof. reflexivity. Qed.

(** ** The previous-snapshot lookup *)

Section PrevMap.

Lemma foldl_insert_lookup (l : list Conversation)
    (m : gmap string Conversation) (k : string) (p : Conversation) :
  foldl (fun m c => <[_id c := c]> m) m l !! k = Some p ->
  m !! k = Some p \/ (In p l /\ _id p = k).
Proof.
  revert m. induction l as [|c l IH]; intros m H; simpl in *.
  - now left.
  - destruct (IH _ H) as [Hm | [Hin Hid]].
    + destruct (decide (_id c = k)) as [Heq | Hne].
      * rewrite Heq, lookup_insert_eq in Hm. inversion Hm; subst.
        right. split; [now left | reflexivity].
      * rewrite lookup_insert_ne in Hm by assumption. now left.
    + right. split; [now right | assumption].
Qed.

Lemma buildPrevMap_Some (l : list Conversation) (k : string)
    (p : Conversation) :
  buildPrevMap l !! k = Some p -> In p l /\ _id p = k.
Proof.
  intros H. apply foldl_insert_lookup in H.
  destruct H as [H | H]; [now rewrite lookup_empty in H | exact H].
Qed.

Lemma buildPrevMap_None (l : list Conversation) (k : string) :
  (forall p, In p l -> _id p <> k) -> buildPrevMap l !! k = None.
Proof.
  intros H. destruct (buildPrevMap l !! k) as [p|] eqn:E; [|reflexivity].
  apply buildPrevMap_Some in E. destruct E as [Hin Hid].
  exfalso. exact (H p Hin Hid).
Qed.

End PrevMap.

(** ** The background-poll diff *)

Section SyncEngineFacts.

Variable getTime : string -> JSNum.

Lemma detect_empty_previous (fromPoll : bool) (l : list Conversation) :
  detectNewestInbound getTime fromPoll [] l = None.
Proof.
  unfold detectNewestInbound. simpl. now rewrite andb_false_r.
Qed.

Lemma detect_poll (p : Conversation) (prevList l : list Conversation) :
  detectNewestInbound getTime true (p :: prevList) l
  = foldl (diffStep getTime (buildPrevMap (p :: prevList))) None l.
Proof. reflexivity. Qed.

Lemma detect_not_poll (prevList l : list Conversation) :
  detectNewestInbound getTime false prevList l = None.
Proof. reflexivity. Qed.

(** A conversation that passes the test has more unread than its
    previous counterpart (none counting as zero). *)
Lemma newlyNotified_increase (prev : option Conversation)
    (c : Conversation) :
  newlyNotified getTime prev c = true ->
  match prev with Some p => unreadValue p | None => 0 end < unreadValue c.
Proof.
  unfold newlyNotified. intros H.
  apply orb_true_iff in H. destruct H as [H | H].
  - apply andb_true_iff in H. destruct H as [H _]. lia.
  - destruct prev; [discriminate | lia].
Qed.

(** The loop keeps [None] as long as no conversation passes the test. *)
Lemma foldl_diffStep_None (pm : gmap string Conversation)
    (l : list Conversation) :
  (forall c, In c l -> isInbound c = true ->
             newlyNotified getTime (pm !! _id c) c = false) ->
  foldl (diffStep getTime pm) None l = None.
Proof.
  induction l as [|c l IH]; intros H; simpl; [reflexivity|].
  assert (Hc : diffStep getTime pm None c = None).
  { unfold diffStep. destruct (isInbound c) eqn:Ein; simpl; [|reflexivity].
    rewrite (H c (or_introl eq_refl) Ein). reflexivity. }
  rewrite Hc. apply IH. intros d Hd. apply H. now right.
Qed.

Lemma diffStep_qualifies (pm : gmap string Conversation)
    (acc : option Conversation) (c : Conversation) :
  diffStep getTime pm acc c
  = if qualifies getTime pm c then
      match acc with
      | None => Some c
      | Some newest =>
          if truthy_num (timeValue getTime c)
             && gt (timeValue getTime c) (timeValue getTime newest)
          then Some c else acc
      end
    else acc.
Proof.
  unfold diffStep, qualifies. destruct (isInbound c); simpl; [|reflexivity].
  now destruct (newlyNotified getTime (pm !! _id c) c).
Qed.

(** The loop answers what it started from, or a qualifying conversation of
    the list. *)
Lemma foldl_diffStep_member (pm : gmap string Conversation)
    (l : list Conversation) (acc : option Conversation) :
  foldl (diffStep getTime pm) acc l = acc
  \/ exists c, foldl (diffStep getTime pm) acc l = Some c
               /\ In c l /\ qualifies getTime pm c = true.
Proof.
  revert acc. induction l as [|a l IH]; intros acc; simpl; [now left|].
  destruct (IH (diffStep getTime pm acc a)) as [H | [c [H [Hin Hq]]]].
  - rewrite H, diffStep_qualifies.
    destruct (qualifies getTime pm a) eqn:Q; [|now left].
    destruct acc as [n|].
    + destruct (truthy_num _ && gt _ _); [|now left].
      right. exists a. repeat split; [now left | exact Q].
    + right. exists a. repeat split; [now left | exact Q].
  - right. exists c. repeat split; [exact H | now right | exact Hq].
Qed.

(** Once a candidate is held the loop never drops it for nothing. *)
Lemma foldl_diffStep_is_Some (pm : gmap string Conversation)
    (l : list Conversation) (acc : option Conversation) :
  is_Some acc -> is_Some (foldl (diffStep getTime pm) acc l).
Proof.
  revert acc. induction l as [|a l IH]; intros acc H; simpl; [exact H|].
  apply IH. rewrite diffStep_qualifies. destruct H as [n ->].
  destruct (qualifies getTime pm a); [|eauto].
  destruct (truthy_num _ && gt _ _); eauto.
Qed.

(** A qualifying conversation in the list leaves the loop with a
    candidate. *)
Lemma foldl_diffStep_finds (pm : gmap string Conversation)
    (l : list Conversation) (acc : option Conversation) (b : Conversation) :
  In b l -> qualifies getTime pm b = true ->
  is_Some (foldl (diffStep getTime pm) acc l).
Proof.
  revert acc. induction l as [|a l IH]; intros acc Hin Hq; [contradiction|].
  simpl. destruct Hin as [-> | Hin]; [|now apply IH].
  apply foldl_diffStep_is_Some. rewrite diffStep_qualifies, Hq.
  destruct acc as [n|]; [|eauto].
  destruct (truthy_num _ && gt _ _); eauto.
Qed.

End SyncEngineFacts.

Section PrevMapCovers.

Lemma foldl_insert_is_Some (l : list Conversation)
    (m : gmap string Conversation) (k : string) :
  is_Some (m !! k) \/ (exists p, In p l /\ _id p = k) ->
  is_Some (foldl (fun m c => <[_id c := c]> m) m l !! k).
Proof.
  revert m. induction l as [|c l IH]; intros m H; simpl.
  - destruct H as [H | [p [[] _]]]. exact H.
  - apply IH. destruct (decide (_id c = k)) as [Heq | Hne].
    + left. rewrite Heq, lookup_insert_eq. eauto.
    + destruct H as [H | [p [[Hp | Hp] Hid]]].
      * left. now rewrite lookup_insert_ne.
      * subst p. contradiction.
      * right. eauto.
Qed.

Lemma buildPrevMap_None_inv (l : list Conversation) (k : string) :
  buildPrevMap l !! k = None -> forall p, In p l -> _id p <> k.
Proof.
  intros H p Hin Hid.
  assert (Hs : is_Some (buildPrevMap l !! k)).
  { apply foldl_insert_is_Some. right. eauto. }
  rewrite H in Hs. destruct Hs as [x Hx]. discriminate.
Qed.

End PrevMapCovers.

(** C1, as the code has it.  With an empty previous snapshot a background
    poll selects no banner candidate, whatever was fetched: the detection
    block is guarded by [prevList.length > 0].  The brand-new-conversation
    rule applies once the previous snapshot holds a conversation: a fetched
    inbound conversation with unread above zero and no previous counterpart
    then qualifies as newly notified, so that the poll selects a candidate
    from the qualifying conversations of the fetched list, and selects that
    very conversation when no other one qualifies. *)
Theorem brand_new_rule_needs_previous_snapshot
    (getTime : string -> JSNum) (L1 L2 : list Conversation)
    (b : Conversation) :
  In b L2 ->
  (forall p, In p L1 -> _id p <> _id b) ->
  isInbound b = true ->
  0 < unreadValue b ->
  detectNewestInbound getTime true [] L2 = None
  /\ (L1 <> [] ->
      qualifies getTime (buildPrevMap L1) b = true
      /\ (exists c, detectNewestInbound getTime true L1 L2 = Some c
                    /\ In c L2
                    /\ qualifies getTime (buildPrevMap L1) c = true)
      /\ ((forall c, In c L2 -> qualifies getTime (buildPrevMap L1) c = true ->
                     c = b) ->
          detectNewestInbound getTime true L1 L2 = Some b)).
Proof.
  intros Hb Hfresh Hin Hpos. split; [apply detect_empty_previous|].
  intros Hne. destruct L1 as [|p L1]; [contradiction|].
  assert (Hq : qualifies getTime (buildPrevMap (p :: L1)) b = true).
  { unfold qualifies. rewrite Hin, (buildPrevMap_None _ _ Hfresh).
    unfold newlyNotified.
    assert (E : (0 <? unreadValue b) = true) by (apply Z.ltb_lt; exact Hpos).
    rewrite E, orb_true_r. reflexivity. }
  assert (Hex : exists c,
             detectNewestInbound getTime true (p :: L1) L2 = Some c
             /\ In c L2
             /\ qualifies getTime (buildPrevMap (p :: L1)) c = true).
  { rewrite detect_poll.
    destruct (foldl_diffStep_finds getTime (buildPrevMap (p :: L1)) L2 None b
                Hb Hq) as [c Hc].
    destruct (foldl_diffStep_member getTime (buildPrevMap (p :: L1)) L2 None)
      as [H | [c' [H [Hin' Hq']]]]; [congruence|].
    exists c'. repeat split; assumption. }
  split; [exact Hq|]. split; [exact Hex|].
  intros Honly. destruct Hex as [c [Hc [Hcin Hcq]]].
  now rewrite Hc, (Honly c Hcin Hcq).
Qed.

Lemma brand_new_rule_needs_previous_snapshot_witness :
  detectNewestInbound IsoDate.getTime true [] [Samples.a_before; Samples.b_new]
  = None
  /\ detectNewestInbound IsoDate.getTime true [Samples.a_before]
       [Samples.a_before; Samples.b_new] = Some Samples.b_new.
Proof.
  destruct (brand_new_rule_needs_previous_snapshot IsoDate.getTime
              [Samples.a_before] [Samples.a_before; Samples.b_new]
              Samples.b_new) as [H0 H1].
  - right. now left.
  - intros p [<- | []]. discriminate.
  - reflexivity.
  - reflexivity.
  - split; [exact H0|].
    destruct (H1 ltac:(discriminate)) as [_ [_ H2]]. apply H2.
    intros c [<- | [<- | []]] Hq; [discriminate Hq | reflexivity].
Defined.

Example brand_new_among_several :
  detectNewestInbound IsoDate.getTime true [Samples.a_before]
    [Samples.b_new; Samples.c_tie] = Some Samples.c_tie.
Proof. vm_compute. reflexivity. Qed.

(** C1, as stated, fails: with L1 = [] and L2 = [b], b inbound with unread 2,
    the poll selects nothing and no banner is set. *)
Lemma empty_previous_snapshot_selects_nothing :
  isInbound Samples.b_new = true
  /\ unreadValue Samples.b_new = 2
  /\ detectNewestInbound IsoDate.getTime true [] [Samples.b_new] = None
  /\ bannerConv
       (fetchConversations_settle IsoDate.getTime true
          (Ok (ArrayBody [Samples.b_new]))
          (fetchConversations_begin true initialState)) = None.
Proof. repeat split. Qed.

(** C3, as the code has it.  For a fetched inbound conversation whose
    identifier has a counterpart in the previous snapshot, both carrying a
    valid last-message time (a missing time counting as the epoch): the loop
    makes it a banner candidate if and only if its unread value (the count
    when there is one, else the flag as 0 or 1) is strictly above the
    previous one and its time is not before the previous one.  With
    L1 = [{a, 0, inbound, 100}] and L2 = [{a, 1, inbound, 200}] the
    candidate is "a". *)
Theorem counterpart_qualifies_iff_unread_increased
    (getTime : string -> JSNum) (prevList : list Conversation)
    (current prev : Conversation) (uc up tc tp : Z) :
  buildPrevMap prevList !! _id current = Some prev ->
  lastMessageDirection current = Some "inbound"
  \/ lastMessageDirection current = Some "INBOUND" ->
  unreadIs current uc ->
  unreadIs prev up ->
  stampIs getTime current tc ->
  stampIs getTime prev tp ->
  (In prev prevList /\ _id prev = _id current)
  /\ (diffStep getTime (buildPrevMap prevList) None current = Some current
      <-> up < uc /\ tp <= tc)
  /\ (diffStep getTime (buildPrevMap prevList) None current = None
      <-> ~ (up < uc /\ tp <= tc))
  /\ (detectNewestInbound getTime true prevList [current] = Some current
      <-> up < uc /\ tp <= tc)
  /\ (qualifies getTime (buildPrevMap prevList) current = true
      <-> up < uc /\ tp <= tc)
  /\ detectNewestInbound IsoDate.getTime true [Samples.a_before]
       [Samples.a_after] = Some Samples.a_after.
Proof.
  intros Hprev Hdir Huc Hup Htc Htp.
  assert (Hin : isInbound current = true).
  { unfold isInbound. destruct Hdir as [-> | ->]; reflexivity. }
  assert (Euc : unreadValue current = uc).
  { unfold unreadValue. destruct Huc as [n -> | -> -> | -> H]; try reflexivity.
    destruct (unread current) as [[|]|]; congruence. }
  assert (Eup : unreadValue prev = up).
  { unfold unreadValue. destruct Hup as [n -> | -> -> | -> H]; try reflexivity.
    destruct (unread prev) as [[|]|]; congruence. }
  assert (Etc : timeValue getTime current = Num tc).
  { unfold timeValue. destruct Htc as [-> | t Hne Ht]; [reflexivity|].
    destruct (lastMessageTime current); [contradiction | exact Ht]. }
  assert (Etp : timeValue getTime prev = Num tp).
  { unfold timeValue. destruct Htp as [-> | t Hne Ht]; [reflexivity|].
    destruct (lastMessageTime prev); [contradiction | exact Ht]. }
  assert (Hq : newlyNotified getTime (Some prev) current = true
               <-> up < uc /\ tp <= tc).
  { unfold newlyNotified. rewrite Euc, Eup, Etc, Etp. simpl.
    rewrite orb_false_r, andb_true_iff, Z.ltb_lt, Z.leb_le. reflexivity. }
  assert (Hstep : diffStep getTime (buildPrevMap prevList) None current
                  = (if newlyNotified getTime (Some prev) current
                     then Some current else None)).
  { unfold diffStep. rewrite Hprev, Hin. simpl.
    now destruct (newlyNotified getTime (Some prev) current). }
  assert (Hsome : diffStep getTime (buildPrevMap prevList) None current
                  = Some current <-> up < uc /\ tp <= tc).
  { rewrite Hstep, <- Hq.
    destruct (newlyNotified getTime (Some prev) current); split; congruence. }
  split; [now apply buildPrevMap_Some|]. split; [exact Hsome|]. split.
  - rewrite <- Hsome, Hstep.
    destruct (newlyNotified getTime (Some prev) current); split;
      congruence.
  - split; [|split; [|vm_compute; reflexivity]].
    + destruct prevList as [|p l];
        [apply buildPrevMap_Some in Hprev; destruct Hprev as [[] _]|].
      rewrite detect_poll. exact Hsome.
    + unfold qualifies. rewrite Hin, Hprev. exact Hq.
Qed.

Lemma counterpart_qualifies_iff_unread_increased_witness :
  detectNewestInbound IsoDate.getTime true [Samples.a_before]
    [Samples.a_after] = Some Samples.a_after.
Proof.
  destruct (counterpart_qualifies_iff_unread_increased IsoDate.getTime
              [Samples.a_before] Samples.a_after Samples.a_before
              1 0 200 100) as [_ [_ [_ [H _]]]].
  - reflexivity.
  - now left.
  - now apply unread_count.
  - now apply unread_count.
  - apply stamp_valid; [discriminate | reflexivity].
  - apply stamp_valid; [discriminate | reflexivity].
  - apply H. lia.
Defined.

(** C3, as stated, fails where a time is not a valid date: the previous
    entry of "a" carries the time "n/a", its unread value goes from 0 to 1
    and the fetched time, 200, is a valid date, no older than anything; the
    comparison [currTime >= prevTime] is false against an invalid date and
    the poll selects nothing. *)
Lemma invalid_previous_time_blocks_candidate :
  let prev := Samples.conv "a" 0 "inbound" "n/a" in
  buildPrevMap [prev] !! _id Samples.a_after = Some prev
  /\ isInbound Samples.a_after = true
  /\ unreadValue prev = 0
  /\ unreadValue Samples.a_after = 1
  /\ IsoDate.getTime (lastMessageTime prev) = NaN
  /\ IsoDate.getTime (lastMessageTime Samples.a_after) = Num 200
  /\ diffStep IsoDate.getTime (buildPrevMap [prev]) None Samples.a_after
     = None
  /\ detectNewestInbound IsoDate.getTime true [prev] [Samples.a_after]
     = None.
Proof. vm_compute. repeat split. Qed.

(** C4.  When no inbound conversation of the fetched list has an unread
    value above the one it had in the previous list (a conversation absent
    from the previous list counting as 0), the fetch selects no banner
    candidate; an unread value fetched again unchanged raises nothing. *)
Theorem no_unread_increase_no_candidate
    (getTime : string -> JSNum) (fromPoll : bool)
    (L1 L2 : list Conversation) :
  (forall c, In c L2 -> isInbound c = true ->
     (forall p, In p L1 -> _id p = _id c -> unreadValue c <= unreadValue p)
     /\ ((forall p, In p L1 -> _id p <> _id c) -> unreadValue c <= 0)) ->
  detectNewestInbound getTime fromPoll L1 L2 = None.
Proof.
  intros H. unfold detectNewestInbound.
  destruct (fromPoll && (0 <? length L1)%nat); [|reflexivity].
  apply foldl_diffStep_None. intros c Hc Hin.
  destruct (newlyNotified getTime (buildPrevMap L1 !! _id c) c) eqn:E;
    [|reflexivity].
  exfalso. apply newlyNotified_increase in E.
  destruct (H c Hc Hin) as [Hsome Hnone].
  destruct (buildPrevMap L1 !! _id c) as [p|] eqn:Ep.
  - apply buildPrevMap_Some in Ep. destruct Ep as [Hp Hid].
    specialize (Hsome p Hp Hid). lia.
  - specialize (Hnone (buildPrevMap_None_inv _ _ Ep)). lia.
Qed.

Lemma no_unread_increase_no_candidate_witness :
  detectNewestInbound IsoDate.getTime true [Samples.a_after]
    [Samples.a_after] = None.
Proof.
  apply (no_unread_increase_no_candidate IsoDate.getTime true
           [Samples.a_after] [Samples.a_after]).
  intros c [<- | []] _. split.
  - intros p [<- | []] _. simpl. lia.
  - intros H. exfalso. apply (H Samples.a_after); [now left | reflexivity].
Defined.

(** ** Which candidate wins *)

Section Newest.

Variable getTime : string -> JSNum.
Variable pm : gmap string Conversation.

Lemma foldl_diffStep_firstLatest (l : list Conversation) :
  (forall c, In c l -> qualifies getTime pm c = true -> dated getTime c) ->
  firstLatest getTime pm l (foldl (diffStep getTime pm) None l).
Proof.
  induction l as [|x l IH] using rev_ind; intros Hd.
  - simpl. intros c [].
  - rewrite foldl_app. simpl.
    assert (Hl : forall c, In c l -> qualifies getTime pm c = true ->
                           dated getTime c).
    { intros c Hc. apply Hd, in_or_app. now left. }
    specialize (IH Hl). rewrite diffStep_qualifies.
    destruct (qualifies getTime pm x) eqn:Qx.
    + assert (Hxin : In x (l ++ [x])) by (apply in_or_app; right; now left).
      destruct (Hd x Hxin Qx) as [tx [Ex Hx]].
      destruct (foldl (diffStep getTime pm) None l) as [c|] eqn:Er.
      * destruct IH as [before [after [El [Qc [Hb Ha]]]]].
        assert (Hcin : In c l).
        { rewrite El. apply in_or_app. right. now left. }
        destruct (Hl c Hcin Qc) as [tc [Ec Hc]].
        rewrite Ex, Ec. simpl.
        destruct (tc <? tx) eqn:Elt.
        -- assert (Hnz : (tx =? 0) = false).
           { apply Z.eqb_neq. apply Z.ltb_lt in Elt. lia. }
           rewrite Hnz. simpl.
           exists l, []. split; [reflexivity|]. split; [exact Qx|].
           split; [|intros d []].
           intros d Hdl Qd. rewrite Ex.
           destruct (Hl d Hdl Qd) as [td [Ed Hdz]]. rewrite Ed. simpl.
           apply Z.ltb_lt. apply Z.ltb_lt in Elt.
           rewrite El in Hdl. apply in_app_or in Hdl.
           destruct Hdl as [Hdb | [Hdc | Hda]].
           ++ specialize (Hb d Hdb Qd). rewrite Ec, Ed in Hb. simpl in Hb.
              apply Z.ltb_lt in Hb. lia.
           ++ subst d. rewrite Ec in Ed. inversion Ed. lia.
           ++ specialize (Ha d Hda Qd). rewrite Ec, Ed in Ha. simpl in Ha.
              apply Z.leb_le in Ha. lia.
        -- rewrite andb_false_r.
           exists before, (after ++ [x])%list.
           split; [rewrite El, <- app_assoc; reflexivity|].
           split; [exact Qc|]. split; [exact Hb|].
           intros d Hdl Qd. apply in_app_or in Hdl.
           destruct Hdl as [Hda | [<- | []]]; [now apply Ha|].
           rewrite Ec, Ex. simpl. apply Z.leb_le. apply Z.ltb_ge in Elt. lia.
      * exists l, []. split; [reflexivity|]. split; [exact Qx|].
        split; [|intros d []].
        intros d Hdl Qd. simpl in IH. rewrite (IH d Hdl) in Qd. discriminate.
    + destruct (foldl (diffStep getTime pm) None l) as [c|] eqn:Er.
      * destruct IH as [before [after [El [Qc [Hb Ha]]]]].
        exists before, (after ++ [x])%list.
        split; [rewrite El, <- app_assoc; reflexivity|].
        split; [exact Qc|]. split; [exact Hb|].
        intros d Hdl Qd. apply in_app_or in Hdl.
        destruct Hdl as [Hda | [<- | []]]; [now apply Ha|].
        rewrite Qx in Qd. discriminate.
      * simpl. intros c Hc. apply in_app_or in Hc.
        destruct Hc as [Hc | [<- | []]]; [now apply IH | exact Qx].
Qed.

End Newest.

(** C5, as the code has it.  When every conversation that qualifies in a
    background poll carries a valid date not before the epoch (a missing
    time counting as the epoch), the candidate is a qualifying conversation
    whose time is the latest, and the first such in list order: each
    qualifying conversation before it is strictly older, none after it is
    newer.  No candidate is selected only when nothing qualifies. *)
Theorem latest_dated_candidate_wins
    (getTime : string -> JSNum) (L1 L2 : list Conversation) :
  L1 <> [] ->
  (forall c, In c L2 -> qualifies getTime (buildPrevMap L1) c = true ->
     exists t, timeValue getTime c = Num t /\ 0 <= t) ->
  match detectNewestInbound getTime true L1 L2 with
  | None => forall c, In c L2 -> qualifies getTime (buildPrevMap L1) c = false
  | Some c =>
      exists before after,
        L2 = (before ++ c :: after)%list
        /\ qualifies getTime (buildPrevMap L1) c = true
        /\ (forall d, In d before ->
              qualifies getTime (buildPrevMap L1) d = true ->
              gt (timeValue getTime c) (timeValue getTime d) = true)
        /\ (forall d, In d after ->
              qualifies getTime (buildPrevMap L1) d = true ->
              ge (timeValue getTime c) (timeValue getTime d) = true)
  end.
Proof.
  intros Hne Hd. destruct L1 as [|p L1]; [contradiction|].
  rewrite detect_poll. now apply foldl_diffStep_firstLatest.
Qed.

Lemma latest_dated_candidate_wins_witness :
  match detectNewestInbound IsoDate.getTime true [Samples.a_before]
          [Samples.b_new; Samples.a_after; Samples.c_tie] with
  | None =>
      forall c, In c [Samples.b_new; Samples.a_after; Samples.c_tie] ->
        qualifies IsoDate.getTime (buildPrevMap [Samples.a_before]) c = false
  | Some c =>
      exists before after,
        [Samples.b_new; Samples.a_after; Samples.c_tie]
        = (before ++ c :: after)%list
        /\ qualifies IsoDate.getTime (buildPrevMap [Samples.a_before]) c
           = true
        /\ (forall d, In d before ->
              qualifies IsoDate.getTime (buildPrevMap [Samples.a_before]) d
              = true ->
              gt (timeValue IsoDate.getTime c) (timeValue IsoDate.getTime d)
              = true)
        /\ (forall d, In d after ->
              qualifies IsoDate.getTime (buildPrevMap [Samples.a_before]) d
              = true ->
              ge (timeValue IsoDate.getTime c) (timeValue IsoDate.getTime d)
              = true)
  end.
Proof.
  apply (latest_dated_candidate_wins IsoDate.getTime [Samples.a_before]
           [Samples.b_new; Samples.a_after; Samples.c_tie]).
  - discriminate.
  - intros c [<- | [<- | [<- | []]]] _;
      [exists 50 | exists 200 | exists 200]; (split; [reflexivity | lia]).
Defined.

Example tie_goes_to_the_first :
  detectNewestInbound IsoDate.getTime true [Samples.a_before]
    [Samples.b_new; Samples.a_after; Samples.c_tie] = Some Samples.a_after.
Proof. vm_compute. reflexivity. Qed.

(** C5, as stated, fails: two conversations qualify, the second one is dated
    at the epoch (time value 0) and is later than the first, dated one second
    earlier; the guard [currTime && ...] passes it over and the first one
    stays the candidate. *)
Lemma epoch_dated_conversation_is_passed_over :
  qualifies IsoDate.getTime (buildPrevMap [Samples.a_before]) Samples.early
  = true
  /\ qualifies IsoDate.getTime (buildPrevMap [Samples.a_before])
       Samples.atEpoch = true
  /\ timeValue IsoDate.getTime Samples.early = Num (-1000)
  /\ timeValue IsoDate.getTime Samples.atEpoch = Num 0
  /\ detectNewestInbound IsoDate.getTime true [Samples.a_before]
       [Samples.early; Samples.atEpoch] = Some Samples.early.
Proof. vm_compute. repeat split. Qed.

(** ** Failure of the list fetch *)

Section FetchFailure.

Variable getTime : string -> JSNum.

Lemma errorText_truthy (message : option string) (fallback : string) :
  truthy_str fallback = true ->
  truthy_str (errorText message fallback) = true.
Proof.
  intros H. unfold errorText. destruct message as [m|]; [|exact H].
  destruct (truthy_str m) eqn:E; [exact E | exact H].
Qed.

Lemma catch_conversations (message : option string) (s : State) :
  conversations (fetchConversations_catch message s) = []
  /\ convError (fetchConversations_catch message s)
     = Some (errorText message "Failed to load conversations.")
  /\ bannerConv (fetchConversations_catch message s) = bannerConv s
  /\ bannerVisible (fetchConversations_catch message s) = bannerVisible s.
Proof. repeat split. Qed.

Lemma finally_keeps (fromPoll : bool) (s : State) :
  conversations (fetchConversations_finally fromPoll s) = conversations s
  /\ convError (fetchConversations_finally fromPoll s) = convError s
  /\ conversationsRef (fetchConversations_finally fromPoll s)
     = conversationsRef s
  /\ bannerConv (fetchConversations_finally fromPoll s) = bannerConv s
  /\ bannerVisible (fetchConversations_finally fromPoll s) = bannerVisible s.
Proof. destruct fromPoll; repeat split. Qed.

End FetchFailure.

(** C10.  Whenever the conversation-list request fails (it rejects, or the
    response is not ok), in initial mode and in poll mode alike, the stored
    list becomes empty and an error message is set.  Once that render is
    committed the previous-snapshot reference is empty too, so the next
    successful background poll compares against an empty previous list: it
    stores the fetched list and raises no banner. *)
Theorem failed_fetch_empties_snapshot
    (getTime : string -> JSNum) (fromPoll : bool)
    (r : Outcome Conversation) (s : State) :
  (forall body, r <> Ok body) ->
  let failed :=
    fetchConversations_settle getTime fromPoll r
      (fetchConversations_begin fromPoll s) in
  conversations failed = []
  /\ (exists msg, convError failed = Some msg /\ truthy_str msg = true)
  /\ conversationsRef (syncConversationsRef failed) = []
  /\ forall body,
       let next :=
         fetchConversations_settle getTime true (Ok body)
           (fetchConversations_begin true (syncConversationsRef failed)) in
       detectNewestInbound getTime true
         (conversationsRef (syncConversationsRef failed)) (bodyList body)
       = None
       /\ conversations next = bodyList body
       /\ bannerConv next = bannerConv s
       /\ bannerVisible next = bannerVisible s.
Proof.
  intros Hfail failed.
  assert (Hc : conversations failed = []).
  { subst failed. destruct r as [m | t | body]; destruct fromPoll;
      try reflexivity; exfalso; exact (Hfail body eq_refl). }
  assert (Hb : bannerConv failed = bannerConv s
               /\ bannerVisible failed = bannerVisible s).
  { subst failed. destruct r as [m | t | body]; destruct fromPoll;
      try (split; reflexivity); exfalso; exact (Hfail body eq_refl). }
  split; [exact Hc|]. split.
  - subst failed. destruct r as [m | t | body].
    + exists (errorText m "Failed to load conversations."). split.
      * now destruct fromPoll.
      * now apply errorText_truthy.
    + exists "Failed to load conversations.". split; [|reflexivity].
      now destruct fromPoll.
    + exfalso. exact (Hfail body eq_refl).
  - split; [exact Hc|]. intros body next.
    assert (Hd : detectNewestInbound getTime true
                   (conversationsRef (syncConversationsRef failed))
                   (bodyList body) = None).
    { simpl conversationsRef. rewrite Hc. apply detect_empty_previous. }
    split; [exact Hd|]. subst next.
    unfold fetchConversations_settle, fetchConversations_finally.
    simpl conversationsRef in *. rewrite Hd.
    destruct Hb as [Hb1 Hb2]. repeat split; simpl; assumption.
Qed.

Lemma failed_fetch_empties_snapshot_witness :
  conversations
    (fetchConversations_settle IsoDate.getTime true (NotOk "Bad Gateway")
       (fetchConversations_begin true
          (setConversations [Samples.a_before] initialState))) = [].
Proof.
  apply (failed_fetch_empties_snapshot IsoDate.getTime true
           (NotOk "Bad Gateway")
           (setConversations [Samples.a_before] initialState)).
  intros body. discriminate.
Defined.

(** ** The thread loader under interleaving *)

Section ThreadFacts.

Lemma selectionEffect_selected (t : Thread) :
  selectedConv (view (selectionEffect t)) = selectedConv (view t).
Proof.
  unfold selectionEffect. destruct (selectedId (view t)) as [id|];
    [|reflexivity].
  unfold fetchMessages_begin. now destruct (truthy_str id).
Qed.

Lemma step_select_selected (t t' : Thread) (conv : Conversation) :
  step t (Select conv) t' -> selectedConv (view t') = Some conv.
Proof.
  intros H. inversion H; subst; [reflexivity|].
  now rewrite selectionEffect_selected.
Qed.

(** A settled request writes its list into the view and leaves the
    selection alone. *)
Lemma step_settled_ok (t t' : Thread) (leadId : string)
    (body : Body Message) :
  step t (MessagesSettled leadId (Ok body)) t' ->
  messages (view t') = bodyList body
  /\ selectedConv (view t') = selectedConv (view t).
Proof. intros H. inversion H; subst. split; reflexivity. Qed.

Lemma run_app_inv (t t'' : Thread) (es1 es2 : list Event) :
  run t (es1 ++ es2)%list t'' -> exists t', run t es1 t' /\ run t' es2 t''.
Proof.
  revert t. induction es1 as [|e es1 IH]; intros t H; simpl in H.
  - exists t. split; [apply run_nil | exact H].
  - inversion H as [|? ? t1 ? ? S R]; subst.
    destruct (IH _ R) as [t' [R1 R2]].
    exists t'. split; [now apply (run_cons _ _ t1) | exact R2].
Qed.

(** No request that settles moves the selection. *)
Lemma step_keeps_selection (t t' : Thread) (e : Event) :
  isSelect e = false -> step t e t' ->
  selectedConv (view t') = selectedConv (view t).
Proof.
  intros He H. inversion H as [| |? ? r ? ? ?|]; subst;
    try discriminate He; [|reflexivity].
  now destruct r.
Qed.

Lemma run_keeps_selection (t t' : Thread) (es : list Event) :
  Forall (fun e => isSelect e = false) es -> run t es t' ->
  selectedConv (view t') = selectedConv (view t).
Proof.
  intros Hes H. induction H as [t | t e t1 es t2 S R IH]; [reflexivity|].
  inversion Hes; subst.
  rewrite IH by assumption. now apply (step_keeps_selection _ _ e).
Qed.

End ThreadFacts.

(** C2, as the code has it.  For every pair of conversations A and B: when
    the request started for A comes back after the selection moved to B,
    whatever other requests settled in between, its list is not discarded:
    it becomes the displayed messages while B is the selected conversation.
    A request that settles with a list stores it whatever the selection
    is. *)
Theorem late_response_replaces_displayed_messages
    (t0 t3 : Thread) (A B : Conversation) (es : list Event)
    (bodyA : Body Message) :
  Forall (fun e => isSelect e = false) es ->
  run t0 (Select A :: Select B :: es
          ++ [MessagesSettled (_id A) (Ok bodyA)])%list t3 ->
  selectedConv (view t3) = Some B
  /\ messages (view t3) = bodyList bodyA
  /\ (forall (t t' : Thread) (leadId : string) (body : Body Message),
        step t (MessagesSettled leadId (Ok body)) t' ->
        selectedConv (view t') = selectedConv (view t)
        /\ messages (view t') = bodyList body).
Proof.
  intros Hes H.
  inversion H as [|? ? t1 ? ? S1 R1]; subst.
  inversion R1 as [|? ? t2 ? ? S2 R2]; subst.
  apply step_select_selected in S2.
  destruct (run_app_inv _ _ _ _ R2) as [t2' [Rmid Rlast]].
  inversion Rlast as [|? ? t3' ? ? S3 R3]; subst.
  inversion R3; subst.
  destruct (step_settled_ok _ _ _ _ S3) as [Hm Hs].
  split; [|split; [exact Hm|]].
  - rewrite Hs, (run_keeps_selection _ _ _ Hes Rmid). exact S2.
  - intros t t' leadId body S. destruct (step_settled_ok _ _ _ _ S).
    split; assumption.
Qed.

Lemma sample_interleaving :
  run initialThread
    [Select Samples.a_after; Select Samples.b_new;
     MessagesSettled "a" (Ok (ArrayBody [Samples.msg "from a" "a"]))]
    Samples.afterLateA.
Proof.
  eapply run_cons.
  { apply step_select_other. discriminate. }
  eapply run_cons.
  { apply step_select_other. discriminate. }
  eapply run_cons.
  { apply (step_settled Samples.afterSelectB "a" _ [] ["b"]). reflexivity. }
  apply run_nil.
Defined.

(** C2, as stated, fails: A is selected, then B, then the request for A
    comes back; B is selected and the view shows A's message. *)
Lemma late_response_shown_under_other_thread :
  run initialThread
    [Select Samples.a_after; Select Samples.b_new;
     MessagesSettled "a" (Ok (ArrayBody [Samples.msg "from a" "a"]))]
    Samples.afterLateA
  /\ selectedConv (view Samples.afterLateA) = Some Samples.b_new
  /\ messages (view Samples.afterLateA) = [Samples.msg "from a" "a"].
Proof. split; [exact sample_interleaving | split; reflexivity]. Qed.

Lemma late_response_replaces_displayed_messages_witness :
  selectedConv (view Samples.afterLateA) = Some Samples.b_new
  /\ messages (view Samples.afterLateA) = [Samples.msg "from a" "a"].
Proof.
  destruct (late_response_replaces_displayed_messages initialThread
              Samples.afterLateA Samples.a_after Samples.b_new []
              (ArrayBody [Samples.msg "from a" "a"])
              (List.Forall_nil _) sample_interleaving)
    as [H1 [H2 _]].
  split; [exact H1 | exact H2].
Defined.

(** While the late list of A is on display under B the loading mark is
    still set: it is cleared only when the mark-read request for A
    settles. *)
Example late_response_keeps_loading_mark :
  loadingMessages (view Samples.afterLateA) = true
  /\ forall t,
       step Samples.afterLateA (MarkReadSettled "a") t ->
       loadingMessages (view t) = false
       /\ messages (view t) = [Samples.msg "from a" "a"]
       /\ inFlight t = ["b"].
Proof.
  split; [reflexivity|]. intros t H. inversion H; subst.
  repeat split.
Qed.

(** ** Deep-link resolution *)

Section StringFacts.

Lemma append_cons (c : ascii) (a b : string) :
  String c a ++ b = String c (a ++ b).
Proof. reflexivity. Qed.

Lemma append_nil_l (b : string) : "" ++ b = b.
Proof. reflexivity. Qed.

Lemma length_append (a b : string) :
  String.length (a ++ b) = (String.length a + String.length b)%nat.
Proof.
  induction a as [|c a IH]; [reflexivity|].
  rewrite append_cons. simpl. now rewrite IH.
Qed.

Lemma drop_append (a b : string) : drop (String.length a) (a ++ b) = b.
Proof. induction a as [|c a IH]; [reflexivity | exact IH]. Qed.

Lemma endsWith_append (a b : string) : endsWith (a ++ b) b = true.
Proof.
  unfold endsWith. rewrite length_append.
  replace (String.length a + String.length b - String.length b)%nat
    with (String.length a) by lia.
  rewrite drop_append, String.eqb_refl, andb_true_r.
  apply Nat.leb_le. lia.
Qed.

Lemma drop_split (n : nat) (s : string) : exists pre, s = pre ++ drop n s.
Proof.
  revert s. induction n as [|n IH]; intros s; [now exists ""|].
  destruct s as [|c s]; [now exists ""|].
  destruct (IH s) as [pre Hpre]. exists (String c pre).
  rewrite append_cons. simpl. now rewrite <- Hpre.
Qed.

(** [endsWith] is the suffix relation. *)
Lemma endsWith_suffix (s suffix : string) :
  endsWith s suffix = true <-> exists pre, s = pre ++ suffix.
Proof.
  split.
  - unfold endsWith. intros H. apply andb_true_iff in H.
    destruct H as [_ H]. apply String.eqb_eq in H.
    destruct (drop_split (String.length s - String.length suffix) s)
      as [pre Hpre].
    exists pre. now rewrite H in Hpre.
  - intros [pre ->]. apply endsWith_append.
Qed.

Lemma drop_length (n : nat) (s : string) :
  String.length (drop n s) = (String.length s - n)%nat.
Proof.
  revert s. induction n as [|n IH]; intros s; simpl.
  - lia.
  - destruct s as [|c s]; simpl; [reflexivity | apply IH].
Qed.

Lemma sliceLast_length (n : nat) (s : string) :
  (n <= String.length s)%nat -> String.length (sliceLast n s) = n.
Proof. intros H. unfold sliceLast. rewrite drop_length. lia. Qed.

Lemma sliceLast_short (n : nat) (s : string) :
  (String.length s <= n)%nat -> sliceLast n s = s.
Proof.
  intros H. unfold sliceLast.
  replace (String.length s - n)%nat with O by lia. reflexivity.
Qed.

(** Against a target of at least ten digits, [endsWith] compares the last
    ten digits of both sides. *)
Lemma endsWith_sliceLast (cd td : string) :
  (10 <= String.length td)%nat ->
  endsWith cd (sliceLast 10 td) = true
  <-> sliceLast 10 cd = sliceLast 10 td.
Proof.
  intros H. unfold endsWith. rewrite (sliceLast_length 10 td H).
  destruct (10 <=? String.length cd)%nat eqn:E; simpl.
  - rewrite String.eqb_eq. reflexivity.
  - apply Nat.leb_gt in E. split; [discriminate|]. intros Heq. exfalso.
    assert (Hl : String.length (sliceLast 10 cd) = 10%nat).
    { rewrite Heq. now apply sliceLast_length. }
    rewrite sliceLast_short in Hl by lia. lia.
Qed.

End StringFacts.

(** C6, as the code has it.  Over any conversation list the resolver answers
    at most one conversation, taken from the list.  A conversation found by
    its exact identifier is the answer.  Only when no identifier matches is
    the phone number used, if one was supplied: both numbers are reduced to
    their digits and the answer is the first conversation whose digits end
    with the last ten digits of the target, which are all its digits when it
    has ten or fewer.  For a target of ten digits or more that is equality
    of the trailing ten digits.  The target "+15551234567" matches the
    stored phone "555-123-4567". *)
Theorem deep_link_identifier_then_phone
    (convs : list Conversation) (targetId targetPhone : option string) :
  (forall c, resolveTarget convs targetId targetPhone = Some c -> In c convs)
  /\ (forall i c,
        targetId = Some i -> truthy_str i = true ->
        find (fun c => String.eqb (_id c) i) convs = Some c ->
        resolveTarget convs targetId targetPhone = Some c)
  /\ ((forall i, targetId = Some i -> truthy_str i = true ->
         find (fun c => String.eqb (_id c) i) convs = None) ->
      resolveTarget convs targetId targetPhone
      = if truthy_ostr targetPhone
           && truthy_str (sliceLast 10 (normalizeDigits targetPhone))
        then find (fun c =>
                     endsWith (normalizeDigits (Some (phone c)))
                       (sliceLast 10 (normalizeDigits targetPhone)))
                  convs
        else None)
  /\ (forall c,
        endsWith (normalizeDigits (Some (phone c)))
          (sliceLast 10 (normalizeDigits targetPhone)) = true
        <-> exists pre,
              normalizeDigits (Some (phone c))
              = pre ++ sliceLast 10 (normalizeDigits targetPhone))
  /\ ((String.length (normalizeDigits targetPhone) <= 10)%nat ->
      sliceLast 10 (normalizeDigits targetPhone) = normalizeDigits targetPhone)
  /\ (forall c,
        (10 <= String.length (normalizeDigits targetPhone))%nat ->
        endsWith (normalizeDigits (Some (phone c)))
          (sliceLast 10 (normalizeDigits targetPhone)) = true
        <-> sliceLast 10 (normalizeDigits (Some (phone c)))
            = sliceLast 10 (normalizeDigits targetPhone))
  /\ resolveTarget [Samples.withPhone "x" "555-123-4567"] None
       (Some "+15551234567")
     = Some (Samples.withPhone "x" "555-123-4567").
Proof.
  split; [|split; [|split; [|split; [|split; [|split]]]]].
  - intros c. unfold resolveTarget.
    destruct targetId as [i|]; [destruct (truthy_str i)|].
    + destruct (find (fun c0 => String.eqb (_id c0) i) convs) as [x|] eqn:E.
      * intros H. inversion H; subst. now apply find_some in E.
      * destruct (truthy_ostr targetPhone); [|discriminate].
        destruct (truthy_str _); [|discriminate].
        intros H. now apply find_some in H.
    + destruct (truthy_ostr targetPhone); [|discriminate].
      destruct (truthy_str _); [|discriminate].
      intros H. now apply find_some in H.
    + destruct (truthy_ostr targetPhone); [|discriminate].
      destruct (truthy_str _); [|discriminate].
      intros H. now apply find_some in H.
  - intros i c -> Hi Hf. unfold resolveTarget. now rewrite Hi, Hf.
  - intros Hnone. unfold resolveTarget.
    destruct targetId as [i|]; [destruct (truthy_str i) eqn:Ei|].
    + rewrite (Hnone i eq_refl Ei).
      destruct (truthy_ostr targetPhone); [|reflexivity].
      now destruct (truthy_str _).
    + destruct (truthy_ostr targetPhone); [|reflexivity].
      now destruct (truthy_str _).
    + destruct (truthy_ostr targetPhone); [|reflexivity].
      now destruct (truthy_str _).
  - intros c. apply endsWith_suffix.
  - apply sliceLast_short.
  - intros c. apply endsWith_sliceLast.
  - reflexivity.
Qed.

Example deep_link_identifier_beats_phone :
  resolveTarget
    [Samples.withPhone "x" "555-123-4567"; Samples.withPhone "y" "555-000-1111"]
    (Some "y") (Some "+15551234567")
  = Some (Samples.withPhone "y" "555-000-1111").
Proof. reflexivity. Qed.

(** C6, as stated, fails for a target of fewer than ten digits: "4567"
    resolves to the conversation with the phone "555-123-4567" although the
    trailing ten digits of the two numbers differ. *)
Lemma short_target_matches_by_suffix :
  resolveTarget [Samples.withPhone "x" "555-123-4567"] None (Some "4567")
  = Some (Samples.withPhone "x" "555-123-4567")
  /\ sliceLast 10 (normalizeDigits (Some "555-123-4567")) = "5551234567"
  /\ sliceLast 10 (normalizeDigits (Some "4567")) = "4567"
  /\ sliceLast 10 (normalizeDigits (Some "555-123-4567"))
     <> sliceLast 10 (normalizeDigits (Some "4567")).
Proof. vm_compute. repeat split. discriminate. Qed.

Section DeepLinkOnce.

Variable Parent : Type.

Lemma deepLinkEffect_idle (p : Props Parent) (s : State) (parent : Parent) :
  deepLinkSelects p s = false -> deepLinkEffect p (s, parent) = (s, parent).
Proof.
  unfold deepLinkSelects, deepLinkEffect.
  destruct (selectedConv s); [reflexivity|].
  destruct (truthy_ostr (initialConversationId p));
    destruct (truthy_ostr (initialPhone p)); simpl; try reflexivity;
    destruct (conversations s); try reflexivity;
    destruct (resolveTarget _ _ _); try reflexivity; discriminate.
Qed.

Lemma deepLinkEffect_fires (p : Props Parent) (s : State) (parent : Parent) :
  deepLinkSelects p s = true ->
  selectedConv s = None
  /\ (truthy_ostr (initialConversationId p) = true
      \/ truthy_ostr (initialPhone p) = true)
  /\ exists target,
       resolveTarget (conversations s) (initialConversationId p)
         (initialPhone p) = Some target
       /\ deepLinkEffect p (s, parent)
          = (setSelectedConv (Some target) s,
             match onClearInitialTarget p with
             | Some clear => clear parent
             | None => parent
             end).
Proof.
  unfold deepLinkSelects, deepLinkEffect.
  destruct (selectedConv s); [discriminate|].
  destruct (truthy_ostr (initialConversationId p)) eqn:Ei;
    destruct (truthy_ostr (initialPhone p)) eqn:Ep; simpl;
    try discriminate;
    (destruct (conversations s) as [|c0 l0]; [discriminate|]);
    (destruct (resolveTarget _ _ _) as [target|]; [|discriminate]);
    intros _; (split; [reflexivity|]); (split; [tauto|]);
    exists target; split; reflexivity.
Qed.

(** No event of the screen empties the selection. *)
Lemma applyUi_keeps_selection (e : UiEvent) (s : State) :
  is_Some (selectedConv s) -> is_Some (selectedConv (applyUi e s)).
Proof.
  intros H. destruct e as [l | conv |]; simpl; [exact H | eauto |].
  unfold handleBannerPress. destruct (bannerConv s); [simpl; eauto | exact H].
Qed.

Lemma selected_blocks_effect (p : Props Parent) (s : State) :
  is_Some (selectedConv s) -> deepLinkSelects p s = false.
Proof.
  intros [c Hc]. unfold deepLinkSelects. now rewrite Hc.
Qed.

Lemma render_keeps_selection (pe : Props Parent * UiEvent)
    (sp : State * Parent) :
  is_Some (selectedConv (fst sp)) ->
  is_Some (selectedConv (fst (render pe sp))).
Proof.
  intros H. unfold render.
  apply (applyUi_keeps_selection (snd pe)) in H.
  rewrite deepLinkEffect_idle by now apply selected_blocks_effect.
  exact H.
Qed.

Lemma selected_never_reselects (pes : list (Props Parent * UiEvent))
    (sp : State * Parent) :
  is_Some (selectedConv (fst sp)) ->
  deepLinkSelections pes sp = O
  /\ is_Some (selectedConv (fst (renders pes sp))).
Proof.
  revert sp. induction pes as [|pe pes IH]; intros sp H; simpl.
  - split; [reflexivity | exact H].
  - rewrite (selected_blocks_effect (fst pe) _
               (applyUi_keeps_selection (snd pe) _ H)).
    apply IH. now apply render_keeps_selection.
Qed.

Lemma render_after_fire (pe : Props Parent * UiEvent) (sp : State * Parent) :
  deepLinkSelects (fst pe) (applyUi (snd pe) (fst sp)) = true ->
  is_Some (selectedConv (fst (render pe sp))).
Proof.
  intros H. unfold render.
  destruct (deepLinkEffect_fires _ _ (snd sp) H) as [_ [_ [t [_ E]]]].
  rewrite E. simpl. eauto.
Qed.

Lemma at_most_one_selection (pes : list (Props Parent * UiEvent))
    (sp : State * Parent) :
  (deepLinkSelections pes sp <= 1)%nat.
Proof.
  revert sp. induction pes as [|pe pes IH]; intros sp; simpl; [lia|].
  destruct (deepLinkSelects (fst pe) (applyUi (snd pe) (fst sp))) eqn:E.
  - destruct (selected_never_reselects pes (render pe sp)
                (render_after_fire pe sp E)) as [H0 _].
    rewrite H0. lia.
  - specialize (IH (render pe sp)). lia.
Qed.

End DeepLinkOnce.

(** C7.  The deep-link effect selects only when no conversation is selected
    and a target (identifier or phone) is pending.  When it finds a match
    under the App's wiring, a conversation is selected and the App's target
    is cleared; from then on no render selects again through the effect,
    whatever the list becomes and whatever props the render carries, stale
    ones included.  Along any sequence of renders the effect selects at most
    once. *)
Theorem deep_link_target_consumed_once
    (a : App.AppState) (s : State) :
  deepLinkSelects (App.conversationsProps a) s = true ->
  (selectedConv s = None /\ is_Some (App.deepLinkTarget a))
  /\ is_Some (selectedConv
                (fst (deepLinkEffect (App.conversationsProps a) (s, a))))
  /\ App.deepLinkTarget
       (snd (deepLinkEffect (App.conversationsProps a) (s, a))) = None
  /\ (forall pes : list (Props App.AppState * UiEvent),
        deepLinkSelections pes
          (deepLinkEffect (App.conversationsProps a) (s, a)) = O
        /\ is_Some (selectedConv
                      (fst (renders pes
                              (deepLinkEffect (App.conversationsProps a)
                                 (s, a))))))
  /\ (forall (p : Props App.AppState) (s0 : State) (a0 : App.AppState),
        deepLinkEffect p (s0, a0) <> (s0, a0) ->
        selectedConv s0 = None
        /\ (truthy_ostr (initialConversationId p) = true
            \/ truthy_ostr (initialPhone p) = true))
  /\ (forall (pes : list (Props App.AppState * UiEvent))
             (sp : State * App.AppState),
        (deepLinkSelections pes sp <= 1)%nat).
Proof.
  intros H.
  destruct (deepLinkEffect_fires _ _ _ a H) as [Hs [Hp [t [_ E]]]].
  assert (Hsel : is_Some (selectedConv
                   (fst (deepLinkEffect (App.conversationsProps a) (s, a))))).
  { rewrite E. simpl. eauto. }
  split; [|split; [exact Hsel|split; [|split; [|split]]]].
  - split; [exact Hs|]. unfold App.conversationsProps in Hp. simpl in Hp.
    destruct (App.deepLinkTarget a); [eauto|].
    destruct Hp; discriminate.
  - rewrite E. reflexivity.
  - intros pes. now apply selected_never_reselects.
  - intros p s0 a0 Hneq.
    destruct (deepLinkSelects p s0) eqn:Ed.
    + destruct (deepLinkEffect_fires _ _ _ a0 Ed) as [H1 [H2 _]]. tauto.
    + exfalso. apply Hneq. now apply deepLinkEffect_idle.
  - intros pes sp. apply at_most_one_selection.
Qed.

Lemma deep_link_target_consumed_once_witness :
  App.deepLinkTarget
    (snd (deepLinkEffect (App.conversationsProps Samples.pendingApp)
            (Samples.loadedScreen, Samples.pendingApp))) = None
  /\ deepLinkSelections
       [(App.conversationsProps Samples.pendingApp,
         ConversationsChanged
           [Samples.withPhone "y" "555-000-1111";
            Samples.withPhone "x" "555-123-4567"])]
       (deepLinkEffect (App.conversationsProps Samples.pendingApp)
          (Samples.loadedScreen, Samples.pendingApp)) = O.
Proof.
  destruct (deep_link_target_consumed_once Samples.pendingApp
              Samples.loadedScreen eq_refl) as [_ [_ [Hclear [Hlater _]]]].
  split; [exact Hclear | apply Hlater].
Defined.

(** ** The socket registry *)

Import SocketClient.

Section SocketFacts.

Context {table : CaseTable}.

Lemma alter_snoc (f : Socket -> Socket) (l : list Socket) (x : Socket) :
  alter f (length l) (l ++ [x])%list = (l ++ [f x])%list.
Proof.
  rewrite <- (Nat.add_0_r (length l)). rewrite alter_app_r. reflexivity.
Qed.

Lemma createClient_spec (w : World) :
  createClient w
  = (length (sockets w),
     {| sockets := sockets w ++ [freshClient (nextStamp w)];
        nextStamp := S (S (S (nextStamp w)));
        __crm_mobile_socket__ := __crm_mobile_socket__ w;
        __crm_mobile_socket_email__ := __crm_mobile_socket_email__ w |}).
Proof.
  unfold createClient, bind, io, on, ret. simpl.
  rewrite !alter_snoc. reflexivity.
Qed.

Lemma getSocket_existing (w : World) (sid : nat) :
  __crm_mobile_socket__ w = Some sid -> getSocket w = (Some sid, w).
Proof.
  intros H. unfold getSocket, bind, readSocket, ret. rewrite H. simpl.
  now rewrite H.
Qed.

Lemma getSocket_constructs (w : World) :
  __crm_mobile_socket__ w = None ->
  getSocket w
  = (Some (length (sockets w)),
     {| sockets := sockets w ++ [freshClient (nextStamp w)];
        nextStamp := S (S (S (nextStamp w)));
        __crm_mobile_socket__ := Some (length (sockets w));
        __crm_mobile_socket_email__ := __crm_mobile_socket_email__ w |}).
Proof.
  intros H. unfold getSocket, bind, readSocket. rewrite H.
  rewrite createClient_spec. reflexivity.
Qed.

Lemma frame_refl (w : World) : frame w w.
Proof. split; reflexivity. Qed.

Lemma frame_trans (w1 w2 w3 : World) :
  frame w1 w2 -> frame w2 w3 -> frame w1 w3.
Proof. intros [A B] [C D]. split; congruence. Qed.

Lemma modifySocket_frame (sid : nat) (f : Socket -> Socket) (w : World) :
  frame w (snd (modifySocket sid f w)).
Proof. split; simpl; [reflexivity | apply length_alter]. Qed.

Lemma on_frame (sid : nat) (ev : string) (h : Handler) (w : World) :
  frame w (snd (on sid ev h w)).
Proof. split; simpl; [reflexivity | apply length_alter]. Qed.

Lemma runHandler_frame (sid : nat) (h : Handler) (w : World) :
  frame w (snd (runHandler sid h w)).
Proof.
  destruct h; simpl; try apply frame_refl.
  unfold bind, readEmail. simpl.
  destruct (__crm_mobile_socket_email__ w) as [e|]; [|apply frame_refl].
  destruct (truthy_str e); [apply modifySocket_frame | apply frame_refl].
Qed.

Lemma runHandlers_frame (sid : nat) (ls : list Listener) (w : World) :
  frame w (snd (runHandlers sid ls w)).
Proof.
  revert w. induction ls as [|l ls IH]; intros w; simpl;
    [apply frame_refl|].
  unfold bind. pose proof (runHandler_frame sid (handler l) w) as H.
  destruct (runHandler sid (handler l) w) as [u w1]. simpl in H.
  eapply frame_trans; [exact H | apply IH].
Qed.

Lemma transportConnected_frame (sid : nat) (w : World) :
  frame w (snd (transportConnected sid w)).
Proof.
  unfold transportConnected, bind.
  pose proof (modifySocket_frame sid
                (fun s => {| connected := true; connecting := false;
                             listeners := listeners s;
                             emitted := emitted s |}) w) as H.
  destruct (modifySocket sid _ w) as [u w1]. simpl in H.
  eapply frame_trans; [exact H | apply runHandlers_frame].
Qed.

(** When a socket is registered, [connectAndJoin] answers it and
    constructs nothing. *)
Lemma connectAndJoin_existing (e : option string) (w : World) (sid : nat) :
  __crm_mobile_socket__ w = Some sid ->
  fst (connectAndJoin e w) = Some sid /\ frame w (snd (connectAndJoin e w)).
Proof.
  intros H. unfold connectAndJoin, bind.
  rewrite (getSocket_existing w sid H).
  unfold writeEmail, isConnected, connect, emit, modifySocket, ret. simpl.
  destruct (match sockets w !! sid with
            | Some s => connected s
            | None => false
            end);
    destruct (truthy_str (normalizeEmail e)); simpl;
    (split; [reflexivity|]); split; simpl;
    rewrite ?length_alter; first [exact H | reflexivity].
Qed.

Lemma grew_frame (w1 w2 w3 : World) : grew w1 w2 -> frame w2 w3 -> grew w1 w3.
Proof.
  intros [A [B C]] [D E]. repeat split; congruence.
Qed.

Lemma frame_grew (w1 w2 w3 : World) : frame w1 w2 -> grew w2 w3 -> grew w1 w3.
Proof.
  intros [A B] [C [D E]]. repeat split; congruence.
Qed.

Lemma getSocket_shape (w : World) :
  fst (getSocket w) = Some (theSocket w)
  /\ __crm_mobile_socket__ (snd (getSocket w)) = Some (theSocket w)
  /\ (frame w (snd (getSocket w)) \/ grew w (snd (getSocket w))).
Proof.
  unfold theSocket. destruct (__crm_mobile_socket__ w) as [sid|] eqn:E.
  - rewrite (getSocket_existing w sid E). simpl.
    repeat split; [exact E | left; apply frame_refl].
  - rewrite (getSocket_constructs w E). simpl.
    repeat split. right. repeat split; [exact E|].
    simpl. rewrite length_app. simpl. lia.
Qed.

Lemma theSocket_stable (w w' : World) :
  frame w w' \/ grew w w' -> theSocket w' = theSocket w.
Proof.
  unfold theSocket. intros [[A B] | [A [B C]]].
  - rewrite A. destruct (__crm_mobile_socket__ w); congruence.
  - now rewrite A, B.
Qed.

Lemma connectAndJoin_shape (e : option string) (w : World) :
  fst (connectAndJoin e w) = Some (theSocket w)
  /\ __crm_mobile_socket__ (snd (connectAndJoin e w)) = Some (theSocket w)
  /\ (frame w (snd (connectAndJoin e w))
      \/ grew w (snd (connectAndJoin e w))).
Proof.
  destruct (getSocket_shape w) as [Hr [Hreg Hsh]].
  pose proof (connectAndJoin_existing e (snd (getSocket w)) _ Hreg)
    as [Hfst Hfr].
  assert (Heq : connectAndJoin e w = connectAndJoin e (snd (getSocket w))).
  { unfold connectAndJoin at 1 2. unfold bind.
    rewrite (getSocket_existing (snd (getSocket w)) _ Hreg).
    destruct (getSocket w) as [r w0]. simpl in *. now rewrite Hr. }
  rewrite Heq. split; [exact Hfst|]. split.
  - destruct Hfr as [A _]. congruence.
  - destruct Hsh as [Hsh | Hsh]; [left | right].
    + eapply frame_trans; eassumption.
    + eapply grew_frame; eassumption.
Qed.

End SocketFacts.

Section Singleton.

Context {table : CaseTable}.

Lemma transportClosed_frame (sid : nat) (w : World) :
  frame w (snd (transportClosed sid w)).
Proof. apply modifySocket_frame. Qed.

Lemma runOp_shape (o : Op) (w : World) :
  (forall x, fst (runOp o w) = Some x -> x = Some (theSocket w))
  /\ (frame w (snd (runOp o w)) \/ grew w (snd (runOp o w))).
Proof.
  destruct o as [| e | ev name | |]; unfold runOp, bind, ret.
  - destruct (getSocket_shape w) as [Hr [_ Hs]].
    destruct (getSocket w) as [r w0]. simpl in *.
    split; [intros x Hx; congruence | exact Hs].
  - destruct (connectAndJoin_shape e w) as [Hr [_ Hs]].
    destruct (connectAndJoin e w) as [r w0]. simpl in *.
    split; [intros x Hx; congruence | exact Hs].
  - destruct (getSocket_shape w) as [Hr [_ Hs]].
    destruct (getSocket w) as [r w0]. simpl in *. subst r.
    pose proof (on_frame (theSocket w) ev (ScreenHandler name) w0) as Hon.
    destruct (on (theSocket w) ev (ScreenHandler name) w0) as [u w1].
    simpl in *. split; [intros x Hx; congruence|].
    destruct Hs as [Hs | Hs]; [left | right].
    + eapply frame_trans; eassumption.
    + eapply grew_frame; eassumption.
  - unfold readSocket.
    destruct (__crm_mobile_socket__ w) as [sid|]; cbv beta iota.
    + pose proof (transportConnected_frame sid w) as H.
      destruct (transportConnected sid w) as [u w1] eqn:E.
      split; [discriminate | left; exact H].
    + split; [discriminate | left; apply frame_refl].
  - unfold readSocket.
    destruct (__crm_mobile_socket__ w) as [sid|]; cbv beta iota.
    + pose proof (transportClosed_frame sid w) as H.
      destruct (transportClosed sid w) as [u w1] eqn:E.
      split; [discriminate | left; exact H].
    + split; [discriminate | left; apply frame_refl].
Qed.

Lemma runOps_shape (os : list Op) (w : World) :
  (forall r, In r (fst (runOps os w)) -> r = Some (theSocket w))
  /\ (frame w (snd (runOps os w)) \/ grew w (snd (runOps os w))).
Proof.
  revert w. induction os as [|o os IH]; intros w; simpl.
  - split; [intros r [] | left; apply frame_refl].
  - unfold bind, ret. destruct (runOp_shape o w) as [Hr Hs].
    destruct (runOp o w) as [r w1]. simpl in *.
    destruct (IH w1) as [Hrs Hss].
    destruct (runOps os w1) as [rs w2]. simpl in *.
    rewrite (theSocket_stable _ _ Hs) in Hrs.
    split.
    + intros x Hx. destruct r as [y|]; [|now apply Hrs].
      destruct Hx as [<- | Hx]; [now apply Hr | now apply Hrs].
    + destruct Hs as [Hs | Hs]; destruct Hss as [Hss | Hss].
      * left. eapply frame_trans; eassumption.
      * right. eapply frame_grew; eassumption.
      * right. eapply grew_frame; eassumption.
      * exfalso. destruct Hs as [_ [A _]]. destruct Hss as [B _]. congruence.
Qed.

End Singleton.

(** C8.  Along any sequence of calls to [getSocket] and [connectAndJoin]
    (screens binding handlers and transport events in between, no
    disconnect), every call answers the same socket: the registered one, or
    the one the first call constructs when none is registered; at most one
    socket is constructed, none when one is registered, so a process that
    starts empty never holds more than one.  [getSocket] answers the
    registered socket unchanged and constructs one only otherwise, and two
    [connectAndJoin] in a row with the same identity answer the same
    socket, the second constructing nothing. *)
Theorem one_socket_per_process {table : CaseTable}
    (w : World) (ops : list Op) :
  (forall r, In r (fst (runOps ops w)) -> r = Some (theSocket w))
  /\ (length (sockets (snd (runOps ops w))) <= S (length (sockets w)))%nat
  /\ (is_Some (__crm_mobile_socket__ w) ->
      length (sockets (snd (runOps ops w))) = length (sockets w))
  /\ (length (sockets (snd (runOps ops emptyWorld))) <= 1)%nat
  /\ (forall sid, __crm_mobile_socket__ w = Some sid ->
        getSocket w = (Some sid, w))
  /\ (__crm_mobile_socket__ w = None ->
      fst (getSocket w) = Some (length (sockets w))
      /\ sockets (snd (getSocket w))
         = (sockets w ++ [freshClient (nextStamp w)])%list
      /\ __crm_mobile_socket__ (snd (getSocket w))
         = Some (length (sockets w)))
  /\ (forall e : option string,
        fst (connectAndJoin e (snd (connectAndJoin e w)))
        = fst (connectAndJoin e w)
        /\ length (sockets (snd (connectAndJoin e (snd (connectAndJoin e w)))))
           = length (sockets (snd (connectAndJoin e w)))).
Proof.
  assert (Hlen : forall w0 : World,
             (length (sockets (snd (runOps ops w0)))
              <= S (length (sockets w0)))%nat).
  { intros w0. destruct (runOps_shape ops w0) as [_ [[_ B] | [_ [_ B]]]]; lia. }
  split; [apply runOps_shape|]. split; [apply Hlen|].
  split; [|split; [exact (Hlen emptyWorld)|split; [|split]]].
  - intros [sid Hsid].
    destruct (runOps_shape ops w) as [_ [[_ B] | [A _]]]; [exact B | congruence].
  - intros sid. apply getSocket_existing.
  - intros Hnone. rewrite (getSocket_constructs w Hnone). simpl. tauto.
  - intros e. destruct (connectAndJoin_shape e w) as [Hr [Hreg _]].
    destruct (connectAndJoin_existing e _ _ Hreg) as [Hr2 [_ Hl]].
    split; [congruence | exact Hl].
Qed.

Example connect_twice_one_socket :
  fst (runOps (table := asciiTable)
         [OpConnectAndJoin (Some " Ann@Example.com ");
          OpBind "newMessage" "handleNewMessage";
          OpTransportConnected;
          OpConnectAndJoin (Some " Ann@Example.com ");
          OpGetSocket] emptyWorld)
  = [Some O; Some O; Some O; Some O]
  /\ length (sockets (snd (runOps (table := asciiTable)
       [OpConnectAndJoin (Some " Ann@Example.com ");
        OpBind "newMessage" "handleNewMessage";
        OpTransportConnected;
        OpConnectAndJoin (Some " Ann@Example.com ");
        OpGetSocket] emptyWorld))) = 1%nat.
Proof. vm_compute. split; reflexivity. Qed.

Example join_signals_after_connect :
  (emitted <$>
     sockets (snd (runOps (table := asciiTable)
       [OpConnectAndJoin (Some " Ann@Example.com ");
        OpTransportConnected] emptyWorld)) !! O)
  = Some [("join", "ann@example.com"); ("join", "ann@example.com")].
Proof. vm_compute. reflexivity. Qed.

(** ** Worlds the module can reach *)

Section Reachable.

Context {table : CaseTable}.

Lemma bind_snd {A B : Type} (m : M A) (k : A -> M B) (w : World) :
  snd (bind m k w) = snd (k (fst (m w)) (snd (m w))).
Proof. unfold bind. now destruct (m w). Qed.

Lemma bind_fst {A B : Type} (m : M A) (k : A -> M B) (w : World) :
  fst (bind m k w) = fst (k (fst (m w)) (snd (m w))).
Proof. unfold bind. now destruct (m w). Qed.

Lemma preserves_bind {A B : Type} (P : World -> Prop) (m : M A)
    (k : A -> M B) :
  preserves P m -> (forall a, preserves P (k a)) -> preserves P (bind m k).
Proof.
  intros Hm Hk w Hw. rewrite bind_snd. apply Hk, Hm, Hw.
Qed.

Lemma preserves_ret {A : Type} (P : World -> Prop) (a : A) :
  preserves P (ret a).
Proof. intros w Hw. exact Hw. Qed.

Lemma stamps_modify (sid : nat) (f : Socket -> Socket) :
  (forall s, listeners (f s) = listeners s \/ listeners (f s) = []) ->
  preserves stampsBelow (modifySocket sid f).
Proof.
  intros Hf w Hw. unfold stampsBelow in *. simpl.
  apply Forall_alter; [exact Hw|].
  intros x _ Hx. destruct (Hf x) as [-> | ->]; [exact Hx | constructor].
Qed.

Lemma stamps_on (sid : nat) (ev : string) (h : Handler) :
  preserves stampsBelow (on sid ev h).
Proof.
  intros w Hw. unfold stampsBelow in *. simpl.
  apply Forall_alter.
  - eapply Forall_impl; [exact Hw|]. intros s Hs. simpl in Hs.
    eapply Forall_impl; [exact Hs|]. intros l Hl. simpl in *. lia.
  - intros x _ Hx. simpl. apply Forall_app. split; [exact Hx|].
    repeat constructor.
Qed.

Lemma stamps_io : preserves stampsBelow io.
Proof.
  intros w Hw. unfold stampsBelow in *. simpl.
  apply Forall_app. split; [exact Hw|]. repeat constructor.
Qed.

Lemma stamps_writeSocket (o : option nat) : preserves stampsBelow (writeSocket o).
Proof. intros w Hw. exact Hw. Qed.

Lemma stamps_writeEmail (o : option string) :
  preserves stampsBelow (writeEmail o).
Proof. intros w Hw. exact Hw. Qed.

Lemma stamps_readSocket : preserves stampsBelow readSocket.
Proof. intros w Hw. exact Hw. Qed.

Lemma stamps_readEmail : preserves stampsBelow readEmail.
Proof. intros w Hw. exact Hw. Qed.

Lemma stamps_isConnected (sid : nat) : preserves stampsBelow (isConnected sid).
Proof. intros w Hw. exact Hw. Qed.

Create HintDb stamps.

#[local] Hint Resolve stamps_on stamps_io stamps_writeSocket stamps_writeEmail
  stamps_readSocket stamps_readEmail stamps_isConnected : stamps.

Ltac stamps :=
  repeat first
    [ apply preserves_ret
    | apply preserves_bind; [|intros ?]
    | apply stamps_modify; intros ?; simpl; tauto
    | solve [auto with stamps]
    | match goal with
      | |- preserves _ (match ?x with _ => _ end) => destruct x
      | |- preserves _ (if ?x then _ else _) => destruct x
      end ].

Lemma stamps_createClient : preserves stampsBelow createClient.
Proof. unfold createClient. stamps. Qed.

Lemma stamps_getSocket : preserves stampsBelow getSocket.
Proof. unfold getSocket. stamps. Qed.

Lemma stamps_connectAndJoin (e : option string) :
  preserves stampsBelow (connectAndJoin e).
Proof.
  unfold connectAndJoin, connect, emit. stamps.
Qed.

Lemma stamps_disconnectSocket : preserves stampsBelow disconnectSocket.
Proof.
  unfold disconnectSocket, removeAllListeners, disconnect. stamps.
Qed.

Lemma stamps_runHandlers (sid : nat) (ls : list Listener) :
  preserves stampsBelow (runHandlers sid ls).
Proof.
  induction ls as [|l ls IH]; simpl; [apply preserves_ret|].
  apply preserves_bind; [|intros _; exact IH].
  destruct (handler l); simpl; unfold emit; stamps.
Qed.

Lemma stamps_runOp (o : Op) : preserves stampsBelow (runOp o).
Proof.
  destruct o; simpl; unfold transportConnected, transportClosed; stamps.
  intros w Hw. now apply stamps_runHandlers.
Qed.

End Reachable.

Section WellFormed.

Context {table : CaseTable}.

Lemma runHandlers_email (sid : nat) (ls : list Listener) (w : World) :
  __crm_mobile_socket_email__ (snd (runHandlers sid ls w))
  = __crm_mobile_socket_email__ w.
Proof.
  revert w. induction ls as [|l ls IH]; intros w; simpl; [reflexivity|].
  rewrite bind_snd, IH.
  destruct (handler l); simpl; try reflexivity.
  rewrite bind_snd. simpl.
  destruct (__crm_mobile_socket_email__ w) as [e|] eqn:E; [|exact E].
  destruct (truthy_str e); exact E.
Qed.

Lemma transportConnected_email (sid : nat) (w : World) :
  __crm_mobile_socket_email__ (snd (transportConnected sid w))
  = __crm_mobile_socket_email__ w.
Proof.
  unfold transportConnected. rewrite bind_snd. now rewrite runHandlers_email.
Qed.

Lemma shape_registered (w w' : World) :
  frame w w' \/ grew w w' ->
  (forall sid, __crm_mobile_socket__ w = Some sid ->
     (sid < length (sockets w))%nat) ->
  forall sid, __crm_mobile_socket__ w' = Some sid ->
    (sid < length (sockets w'))%nat.
Proof.
  intros [[A B] | [A [B C]]] H sid Hsid.
  - rewrite B. apply H. congruence.
  - rewrite C. rewrite B in Hsid. inversion Hsid. lia.
Qed.

Lemma wellFormed_runOp (o : Op) (w : World) :
  wellFormed w -> wellFormed (snd (runOp o w)).
Proof.
  intros [Hs [He Hl]]. split; [now apply stamps_runOp|]. split.
  - destruct o as [| e | ev name | |]; unfold runOp; rewrite bind_snd.
    + simpl. destruct (getSocket_shape w) as [_ [H _]]. congruence.
    + simpl. destruct (connectAndJoin_shape e w) as [_ [H _]]. congruence.
    + simpl. rewrite bind_snd. simpl.
      destruct (getSocket_shape w) as [Hr [H _]]. rewrite Hr.
      destruct (on_frame (theSocket w) ev (ScreenHandler name)
                  (snd (getSocket w))) as [A _].
      congruence.
    + simpl. rewrite bind_snd. simpl.
      destruct (__crm_mobile_socket__ w) as [sid|] eqn:E.
      * destruct (transportConnected_frame sid w) as [A _]. congruence.
      * simpl. intros _. now apply He.
    + simpl. rewrite bind_snd. simpl.
      destruct (__crm_mobile_socket__ w) as [sid|] eqn:E.
      * simpl. congruence.
      * simpl. intros _. now apply He.
  - apply (shape_registered w); [|exact Hl].
    destruct (runOp_shape o w) as [_ H]. exact H.
Qed.

Lemma disconnect_registry (w : World) :
  __crm_mobile_socket__ (snd (disconnectSocket w)) = None
  /\ __crm_mobile_socket_email__ (snd (disconnectSocket w)) = None.
Proof.
  unfold disconnectSocket. rewrite !bind_snd. split; reflexivity.
Qed.

Lemma wellFormed_disconnect (w : World) :
  wellFormed w -> wellFormed (snd (disconnectSocket w)).
Proof.
  intros [Hs _]. destruct (disconnect_registry w) as [A B].
  split; [now apply stamps_disconnectSocket|]. split.
  - intros _. exact B.
  - intros sid Hsid. congruence.
Qed.

Lemma wellFormed_empty : wellFormed emptyWorld.
Proof.
  split; [constructor|]. split; [reflexivity | discriminate].
Qed.

(** Every world a script of calls, transport events and disconnects
    reaches from the start of the process is well formed. *)
Lemma reachable_wellFormed (acts : list Action) :
  wellFormed (runActions acts emptyWorld).
Proof.
  generalize wellFormed_empty. generalize emptyWorld.
  induction acts as [|a acts IH]; intros w Hw; simpl; [exact Hw|].
  destruct a as [o|]; apply IH.
  - now apply wellFormed_runOp.
  - now apply wellFormed_disconnect.
Qed.

Lemma disconnect_registered (w : World) (old : nat) :
  __crm_mobile_socket__ w = Some old ->
  sockets (snd (disconnectSocket w)) !! old = closed <$> sockets w !! old
  /\ length (sockets (snd (disconnectSocket w))) = length (sockets w)
  /\ nextStamp (snd (disconnectSocket w)) = nextStamp w
  /\ (forall j, j <> old ->
        sockets (snd (disconnectSocket w)) !! j = sockets w !! j).
Proof.
  intros H. unfold disconnectSocket. rewrite !bind_snd.
  rewrite (getSocket_existing w old H). simpl.
  split; [|split; [|split]].
  - rewrite !list_lookup_alter_eq. now destruct (sockets w !! old).
  - now rewrite !length_alter.
  - reflexivity.
  - intros j Hj. now rewrite !list_lookup_alter_ne by congruence.
Qed.

Lemma disconnect_unregistered (w : World) :
  __crm_mobile_socket__ w = None ->
  sockets (snd (disconnectSocket w))
  = (sockets w ++ [closed (freshClient (nextStamp w))])%list
  /\ nextStamp (snd (disconnectSocket w)) = S (S (S (nextStamp w))).
Proof.
  intros H. unfold disconnectSocket. rewrite !bind_snd.
  rewrite (getSocket_constructs w H). simpl.
  rewrite !alter_snoc. split; reflexivity.
Qed.

Lemma connectAndJoin_constructs (e : option string) (w : World) :
  __crm_mobile_socket__ w = None ->
  fst (connectAndJoin e w) = Some (length (sockets w))
  /\ sockets (snd (connectAndJoin e w))
     = (sockets w
        ++ [ {| connected := false; connecting := true;
                listeners := listeners (freshClient (nextStamp w));
                emitted :=
                  if truthy_str (normalizeEmail e)
                  then [("join", normalizeEmail e)] else [] |} ])%list.
Proof.
  intros H. unfold connectAndJoin.
  rewrite bind_fst, bind_snd, (getSocket_constructs w H). simpl.
  unfold bind, writeEmail, isConnected, connect, emit, modifySocket, ret.
  simpl. rewrite list_lookup_middle by reflexivity. simpl.
  destruct (truthy_str (normalizeEmail e)); simpl;
    rewrite !alter_snoc; split; reflexivity.
Qed.

End WellFormed.

(** C9.  [disconnectSocket] leaves the registry without socket and without
    identity.  A registered socket loses all its listeners and is closed;
    the other sockets are untouched.  When none is registered the call is
    safe and leaves everything that existed as it was: the registry stays
    empty, no identity is stored, the sockets constructed before are
    unchanged; the client that [getSocket] builds on the way is stripped and
    closed at once, never registered, never connected, nothing emitted.  The
    next [connectAndJoin] constructs a socket that did not exist before,
    asks it to connect, and the only listeners on it are those
    [createClient] has just installed: no listener registered before the
    disconnect is on it, and the old socket has none left. *)
Theorem disconnect_clears_and_next_socket_is_fresh {table : CaseTable}
    (w : World) (e : option string) :
  wellFormed w ->
  (__crm_mobile_socket__ (snd (disconnectSocket w)) = None
   /\ __crm_mobile_socket_email__ (snd (disconnectSocket w)) = None)
  /\ (forall old, __crm_mobile_socket__ w = Some old ->
        is_Some (sockets w !! old)
        /\ sockets (snd (disconnectSocket w)) !! old
           = closed <$> sockets w !! old
        /\ length (sockets (snd (disconnectSocket w))) = length (sockets w)
        /\ (forall j, j <> old ->
              sockets (snd (disconnectSocket w)) !! j = sockets w !! j))
  /\ (__crm_mobile_socket__ w = None ->
        __crm_mobile_socket__ (snd (disconnectSocket w))
        = __crm_mobile_socket__ w
        /\ __crm_mobile_socket_email__ (snd (disconnectSocket w))
           = __crm_mobile_socket_email__ w
        /\ sockets (snd (disconnectSocket w))
           = (sockets w ++ [closed (freshClient (nextStamp w))])%list)
  /\ (exists fresh,
        fst (connectAndJoin e (snd (disconnectSocket w)))
        = Some (length (sockets (snd (disconnectSocket w))))
        /\ (length (sockets w)
            <= length (sockets (snd (disconnectSocket w))))%nat
        /\ sockets (snd (connectAndJoin e (snd (disconnectSocket w))))
             !! length (sockets (snd (disconnectSocket w))) = Some fresh
        /\ connecting fresh = true
        /\ listeners fresh
           = listeners (freshClient (nextStamp (snd (disconnectSocket w))))
        /\ emitted fresh
           = (if truthy_str (normalizeEmail e)
              then [("join", normalizeEmail e)] else [])
        /\ (forall ev l,
              In l (listenersFor ev
                      (length (sockets (snd (disconnectSocket w))))
                      (snd (connectAndJoin e (snd (disconnectSocket w))))) ->
              forall sid s0, sockets w !! sid = Some s0 ->
                ~ In l (listeners s0))
        /\ (forall old ev, __crm_mobile_socket__ w = Some old ->
              listenersFor ev old
                (snd (connectAndJoin e (snd (disconnectSocket w)))) = [])).
Proof.
  intros [Hstamps [Hemail Hreg]].
  destruct (disconnect_registry w) as [Hr1 He1].
  destruct (connectAndJoin_constructs e _ Hr1) as [Hfst Hsock].
  set (w1 := snd (disconnectSocket w)) in *.
  assert (Hlen : (length (sockets w) <= length (sockets w1))%nat).
  { destruct (__crm_mobile_socket__ w) as [old|] eqn:E.
    - destruct (disconnect_registered w old E) as [_ [H _]].
      fold w1 in H. lia.
    - destruct (disconnect_unregistered w E) as [H _]. fold w1 in H.
      rewrite H, length_app. simpl. lia. }
  assert (Hst : (nextStamp w <= nextStamp w1)%nat).
  { destruct (__crm_mobile_socket__ w) as [old|] eqn:E.
    - destruct (disconnect_registered w old E) as [_ [_ [H _]]].
      fold w1 in H. lia.
    - destruct (disconnect_unregistered w E) as [_ H]. fold w1 in H. lia. }
  split; [split; assumption|]. split; [|split].
  - intros old Hold. destruct (disconnect_registered w old Hold) as [A [B [_ C]]].
    split; [|split; [exact A | split; [exact B | exact C]]].
    apply lookup_lt_is_Some. now apply Hreg.
  - intros Hnone. rewrite Hr1, He1, Hnone, (Hemail Hnone).
    destruct (disconnect_unregistered w Hnone) as [A _].
    repeat split. exact A.
  - eexists. split; [exact Hfst|]. split; [exact Hlen|].
    split; [rewrite Hsock; now apply list_lookup_middle|].
    split; [reflexivity|]. split; [reflexivity|]. split; [reflexivity|].
    split.
    + intros ev l Hin sid s0 Hs0 Hl.
      unfold listenersFor in Hin. rewrite Hsock in Hin.
      rewrite list_lookup_middle in Hin by reflexivity.
      apply list_elem_of_In, list_elem_of_filter in Hin.
      destruct Hin as [_ Hin]. apply list_elem_of_In in Hin.
      assert (Hge : (nextStamp w1 <= stamp l)%nat).
      { simpl in Hin. destruct Hin as [<- | [<- | [<- | []]]]; simpl; lia. }
      unfold stampsBelow in Hstamps.
      pose proof (Forall_lookup_1 _ _ _ _ Hstamps Hs0) as Hs.
      rewrite Forall_forall in Hs.
      specialize (Hs l (proj2 (list_elem_of_In _ _) Hl)). simpl in Hs. lia.
    + intros old ev Hold. unfold listenersFor. rewrite Hsock.
      destruct (disconnect_registered w old Hold) as [A [B _]].
      fold w1 in A, B.
      assert (Hlt : (old < length (sockets w1))%nat).
      { rewrite B. now apply Hreg. }
      rewrite lookup_app_l by exact Hlt. rewrite A.
      destruct (sockets w !! old); reflexivity.
Qed.

Lemma disconnect_clears_and_next_socket_is_fresh_witness :
  __crm_mobile_socket__ (snd (disconnectSocket Samples.liveWorld)) = None
  /\ __crm_mobile_socket_email__ (snd (disconnectSocket Samples.liveWorld))
     = None.
Proof.
  apply (disconnect_clears_and_next_socket_is_fresh (table := asciiTable)
           Samples.liveWorld
           (Some "ann@example.com")).
  split; [|split].
  - repeat constructor.
  - discriminate.
  - intros sid H. vm_compute in H. inversion H. vm_compute. lia.
Defined.

Example liveWorld_before_disconnect :
  __crm_mobile_socket__ Samples.liveWorld = Some O
  /\ __crm_mobile_socket_email__ Samples.liveWorld = Some "ann@example.com"
  /\ (length <$> (listeners <$> sockets Samples.liveWorld !! O)) = Some 4%nat
  /\ (connected <$> sockets Samples.liveWorld !! O) = Some true.
Proof. vm_compute. repeat split. Qed.

Example reconnect_after_disconnect :
  fst (connectAndJoin (table := asciiTable) (Some "ann@example.com")
         (snd (disconnectSocket Samples.liveWorld))) = Some 1%nat
  /\ (listeners <$>
        sockets (snd (connectAndJoin (table := asciiTable) (Some "ann@example.com")
                        (snd (disconnectSocket Samples.liveWorld)))) !! O)
     = Some []
  /\ (map handler <$>
        (listeners <$>
           sockets (snd (connectAndJoin (table := asciiTable) (Some "ann@example.com")
                           (snd (disconnectSocket Samples.liveWorld))))
             !! 1%nat))
     = Some [LogConnectError; LogError; JoinOnConnect].
Proof. vm_compute. repeat split. Qed.

(** A logout before any login: the client built on the way is left closed,
    without listener and unregistered. *)
Example disconnect_without_socket_leaves_inert_client :
  __crm_mobile_socket__ (snd (disconnectSocket emptyWorld)) = None
  /\ __crm_mobile_socket_email__ (snd (disconnectSocket emptyWorld)) = None
  /\ sockets (snd (disconnectSocket emptyWorld))
     = [ {| connected := false; connecting := false; listeners := [];
            emitted := [] |} ].
Proof. vm_compute. repeat split. Qed.


(** * Further properties of the code *)

(** ** Strings *)

Import JSMore.

Section MoreStrings.

Lemma string_length_ind (P : string -> Prop) :
  (forall s, (forall t, (String.length t < String.length s)%nat -> P t) -> P s) ->
  forall s, P s.
Proof.
  intros H s.
  assert (G : forall n t, (String.length t < n)%nat -> P t).
  { induction n as [|n IH]; intros t Ht; [lia|].
    apply H. intros u Hu. apply IH. lia. }
  apply (G (S (String.length s))). lia.
Qed.

Ltac head3 s :=
  let c1 := fresh "c" in let c2 := fresh "c" in let c3 := fresh "c" in
  let t := fresh "t" in
  destruct s as [|c1 [|c2 [|c3 t]]];
  cbn [spaceWidth trimStart allSpaces drop String.length String.append];
  try (destruct (isSpace c1) eqn:?);
  try (destruct (isSpace2 c1 c2) eqn:?);
  try (destruct (isSpace3 c1 c2 c3) eqn:?).

Lemma trimStart_step (s : string) :
  trimStart s
  = match spaceWidth s with
    | O => s
    | S k => trimStart (drop (S k) s)
    end.
Proof. head3 s; reflexivity. Qed.

Lemma allSpaces_step (s : string) :
  allSpaces s
  = match s with
    | EmptyString => true
    | String _ _ =>
        match spaceWidth s with
        | O => false
        | S k => allSpaces (drop (S k) s)
        end
    end.
Proof. head3 s; reflexivity. Qed.

Lemma spaceWidth_drop (s : string) :
  spaceWidth s <> O ->
  (String.length (drop (spaceWidth s) s) < String.length s)%nat.
Proof. head3 s; intros H; try contradiction; cbn; lia. Qed.

Lemma spaceWidth_app (a b : string) :
  spaceWidth a <> O ->
  spaceWidth (a ++ b) = spaceWidth a
  /\ drop (spaceWidth a) (a ++ b) = drop (spaceWidth a) a ++ b.
Proof.
  destruct a as [|c1 [|c2 [|c3 t]]];
    rewrite ?append_cons, ?append_nil_l;
    cbn [spaceWidth drop]; intros H; try contradiction.
  - destruct (isSpace c1) eqn:E1; [|contradiction].
    destruct b as [|d1 [|d2 b]]; cbn [spaceWidth drop];
      rewrite ?E1; split; reflexivity.
  - destruct (isSpace c1) eqn:E1.
    + destruct b as [|d1 b]; cbn [spaceWidth drop];
        rewrite ?E1; split; reflexivity.
    + destruct (isSpace2 c1 c2) eqn:E2; [|contradiction].
      destruct b as [|d1 b]; cbn [spaceWidth drop];
        rewrite ?E1, ?E2; split; reflexivity.
  - destruct (isSpace c1) eqn:E1; [split; reflexivity|].
    destruct (isSpace2 c1 c2) eqn:E2; [split; reflexivity|].
    destruct (isSpace3 c1 c2 c3) eqn:E3; [split; reflexivity|contradiction].
Qed.

Lemma trimStart_width (s : string) : spaceWidth (trimStart s) = O.
Proof.
  induction s as [s IH] using string_length_ind.
  rewrite trimStart_step. destruct (spaceWidth s) as [|k] eqn:E; [exact E|].
  apply IH. rewrite <- E. apply spaceWidth_drop. lia.
Qed.

Lemma trimStart_fixed (s : string) : spaceWidth s = O -> trimStart s = s.
Proof. intros H. now rewrite trimStart_step, H. Qed.

Lemma trimStart_blank (s : string) :
  trimStart s = "" <-> allSpaces s = true.
Proof.
  induction s as [s IH] using string_length_ind.
  rewrite trimStart_step, allSpaces_step.
  destruct (spaceWidth s) as [|k] eqn:E.
  - destruct s; [tauto | split; discriminate].
  - assert (L : (String.length (drop (S k) s) < String.length s)%nat).
    { rewrite <- E. apply spaceWidth_drop. lia. }
    destruct s as [|c t]; [discriminate E|]. now apply IH.
Qed.

Lemma allSpaces_app (a b : string) :
  allSpaces a = true -> allSpaces b = true -> allSpaces (a ++ b) = true.
Proof.
  induction a as [a IH] using string_length_ind. intros Ha Hb.
  destruct a as [|c t]; [exact Hb|].
  rewrite allSpaces_step in Ha.
  destruct (spaceWidth (String c t)) as [|k] eqn:E; [discriminate|].
  assert (N : spaceWidth (String c t) <> O) by lia.
  destruct (spaceWidth_app (String c t) b N) as [W D].
  rewrite append_cons in *. rewrite allSpaces_step.
  rewrite W, E. rewrite E in D. rewrite D.
  apply IH; [|exact Ha|exact Hb].
  rewrite <- E. now apply spaceWidth_drop.
Qed.

Lemma trimEnd_split (s : string) :
  exists r, s = trimEnd s ++ r /\ allSpaces r = true.
Proof.
  induction s as [|c t IH]; [exists ""; split; reflexivity|].
  cbn [trimEnd]. destruct (allSpaces (String c t)) eqn:E.
  - exists (String c t). split; [reflexivity | exact E].
  - destruct IH as [r [Hr Ha]]. exists r. split; [|exact Ha].
    rewrite append_cons. now rewrite <- Hr.
Qed.

Lemma trimEnd_blank (s : string) : trimEnd s = "" <-> allSpaces s = true.
Proof.
  destruct s as [|c t]; [split; reflexivity|].
  cbn [trimEnd]. destruct (allSpaces (String c t)); split;
    try reflexivity; discriminate.
Qed.

Lemma trimEnd_idem (s : string) : trimEnd (trimEnd s) = trimEnd s.
Proof.
  induction s as [|c t IH]; [reflexivity|].
  cbn [trimEnd]. destruct (allSpaces (String c t)) eqn:E; [reflexivity|].
  cbn [trimEnd]. rewrite IH.
  destruct (allSpaces (String c (trimEnd t))) eqn:E'; [|reflexivity].
  exfalso. destruct (trimEnd_split t) as [r [Hr Ha]].
  assert (X : allSpaces (String c (trimEnd t) ++ r) = true)
    by now apply allSpaces_app.
  rewrite append_cons in X. rewrite <- Hr in X. congruence.
Qed.

Lemma trimEnd_width (s : string) :
  spaceWidth s = O -> spaceWidth (trimEnd s) = O.
Proof.
  intros H. destruct (spaceWidth (trimEnd s)) as [|k] eqn:E; [reflexivity|].
  exfalso. destruct (trimEnd_split s) as [r [Hr _]].
  assert (N : spaceWidth (trimEnd s) <> O) by lia.
  destruct (spaceWidth_app (trimEnd s) r N) as [W _].
  rewrite <- Hr in W. lia.
Qed.

Lemma trim_width (s : string) : spaceWidth (trim s) = O.
Proof. apply trimEnd_width, trimStart_width. Qed.

Lemma trim_idem (s : string) : trim (trim s) = trim s.
Proof.
  unfold trim. rewrite (trimStart_fixed (trimEnd (trimStart s))).
  - apply trimEnd_idem.
  - apply trimEnd_width, trimStart_width.
Qed.

Lemma trim_blank_iff (s : string) :
  truthy_str (trim s) = false <-> allSpaces s = true.
Proof.
  unfold trim. split.
  - intros H. apply trimStart_blank.
    assert (E : trimEnd (trimStart s) = "")
      by now destruct (trimEnd (trimStart s)).
    apply trimEnd_blank, trimStart_blank in E.
    now rewrite trimStart_fixed in E by apply trimStart_width.
  - intros H. apply trimStart_blank in H. now rewrite H.
Qed.

Lemma digit_not_space1 (c : ascii) : isDigit c = true -> isSpace c = false.
Proof.
  unfold isDigit, isSpace. intros H.
  apply andb_true_iff in H. destruct H as [A B].
  apply Nat.leb_le in A. apply Nat.leb_le in B.
  apply orb_false_iff. split.
  - apply Nat.eqb_neq. lia.
  - apply andb_false_iff. right. apply Nat.leb_gt. lia.
Qed.

Lemma space2_not_digit (c1 c2 : ascii) :
  isSpace2 c1 c2 = true -> isDigit c1 = false /\ isDigit c2 = false.
Proof.
  unfold isSpace2, isDigit. intros H.
  apply andb_true_iff in H. destruct H as [A B].
  apply Nat.eqb_eq in A. apply Nat.eqb_eq in B. rewrite A, B. split; reflexivity.
Qed.

Lemma space3_high (c1 c2 c3 : ascii) :
  isSpace3 c1 c2 c3 = true ->
  (128 <= nat_of_ascii c1 /\ 128 <= nat_of_ascii c2
   /\ 128 <= nat_of_ascii c3)%nat.
Proof.
  unfold isSpace3. intros H.
  repeat match goal with
         | H : (_ || _)%bool = true |- _ =>
             apply orb_true_iff in H; destruct H as [H | H]
         | H : (_ && _)%bool = true |- _ =>
             let A := fresh in apply andb_true_iff in H; destruct H as [H A]
         | H : (_ =? _)%nat = true |- _ => apply Nat.eqb_eq in H
         | H : (_ <=? _)%nat = true |- _ => apply Nat.leb_le in H
         end; lia.
Qed.

Lemma high_not_digit (c : ascii) :
  (128 <= nat_of_ascii c)%nat -> isDigit c = false.
Proof.
  unfold isDigit. intros H. apply andb_false_iff. right.
  apply Nat.leb_gt. lia.
Qed.

Lemma removeNonDigits_space (s : string) :
  removeNonDigits (drop (spaceWidth s) s) = removeNonDigits s.
Proof.
  destruct s as [|c1 [|c2 [|c3 t]]]; cbn [spaceWidth]; try reflexivity.
  - destruct (isSpace c1) eqn:E1; [|reflexivity]. cbn.
    destruct (isDigit c1) eqn:D; [|reflexivity].
    apply digit_not_space1 in D. congruence.
  - destruct (isSpace c1) eqn:E1.
    + cbn [drop removeNonDigits].
      destruct (isDigit c1) eqn:D; [|reflexivity].
      apply digit_not_space1 in D. congruence.
    + destruct (isSpace2 c1 c2) eqn:E2; [|reflexivity].
      destruct (space2_not_digit _ _ E2) as [A B].
      cbn [drop removeNonDigits]. now rewrite A, B.
  - destruct (isSpace c1) eqn:E1.
    + cbn [drop removeNonDigits].
      destruct (isDigit c1) eqn:D; [|reflexivity].
      apply digit_not_space1 in D. congruence.
    + destruct (isSpace2 c1 c2) eqn:E2.
      * destruct (space2_not_digit _ _ E2) as [A B].
        cbn [drop removeNonDigits]. now rewrite A, B.
      * destruct (isSpace3 c1 c2 c3) eqn:E3; [|reflexivity].
        destruct (space3_high _ _ _ E3) as [A [B C]].
        cbn [drop removeNonDigits].
        now rewrite !high_not_digit by assumption.
Qed.

Lemma removeNonDigits_trimStart (s : string) :
  removeNonDigits (trimStart s) = removeNonDigits s.
Proof.
  induction s as [s IH] using string_length_ind.
  rewrite trimStart_step. destruct (spaceWidth s) as [|k] eqn:E; [reflexivity|].
  rewrite IH.
  - rewrite <- E. apply removeNonDigits_space.
  - rewrite <- E. apply spaceWidth_drop. lia.
Qed.

Lemma removeNonDigits_app (a b : string) :
  removeNonDigits (a ++ b) = removeNonDigits a ++ removeNonDigits b.
Proof.
  induction a as [|c a IH]; rewrite ?append_cons, ?append_nil_l;
    cbn [removeNonDigits]; [reflexivity|].
  destruct (isDigit c); rewrite ?append_cons; now rewrite IH.
Qed.

Lemma removeNonDigits_blank (s : string) :
  allSpaces s = true -> removeNonDigits s = "".
Proof.
  intros H. apply trimStart_blank in H.
  now rewrite <- removeNonDigits_trimStart, H.
Qed.

Lemma append_nil_r (s : string) : s ++ "" = s.
Proof.
  induction s as [|c s IH]; [reflexivity | now rewrite append_cons, IH].
Qed.

Lemma removeNonDigits_trimEnd (s : string) :
  removeNonDigits (trimEnd s) = removeNonDigits s.
Proof.
  destruct (trimEnd_split s) as [r [Hr Ha]].
  rewrite Hr at 2. rewrite removeNonDigits_app, (removeNonDigits_blank r Ha).
  now rewrite append_nil_r.
Qed.

Lemma removeNonDigits_trim (s : string) :
  removeNonDigits (trim s) = removeNonDigits s.
Proof.
  unfold trim. now rewrite removeNonDigits_trimEnd, removeNonDigits_trimStart.
Qed.

Lemma lowerChar_idem (c : ascii) : lowerChar (lowerChar c) = lowerChar c.
Proof.
  destruct c as [b0 b1 b2 b3 b4 b5 b6 b7];
    destruct b0, b1, b2, b3, b4, b5, b6, b7; reflexivity.
Qed.

Lemma isSpace_lowerChar (c : ascii) : isSpace (lowerChar c) = isSpace c.
Proof.
  destruct c as [b0 b1 b2 b3 b4 b5 b6 b7];
    destruct b0, b1, b2, b3, b4, b5, b6, b7; reflexivity.
Qed.

Lemma lowerChar_high (c : ascii) :
  (128 <=? nat_of_ascii c)%nat = true -> lowerChar c = c.
Proof.
  destruct c as [b0 b1 b2 b3 b4 b5 b6 b7];
    destruct b0, b1, b2, b3, b4, b5, b6, b7; intros H;
    first [reflexivity | discriminate H].
Qed.

Lemma lowerChar_low (c : ascii) :
  (128 <=? nat_of_ascii c)%nat = false ->
  (128 <=? nat_of_ascii (lowerChar c))%nat = false.
Proof.
  destruct c as [b0 b1 b2 b3 b4 b5 b6 b7];
    destruct b0, b1, b2, b3, b4, b5, b6, b7; intros H;
    first [reflexivity | discriminate H].
Qed.

Lemma space2_high (c1 c2 : ascii) :
  isSpace2 c1 c2 = true ->
  (128 <=? nat_of_ascii c1)%nat = true /\ (128 <=? nat_of_ascii c2)%nat = true.
Proof.
  unfold isSpace2. intros H. apply andb_true_iff in H. destruct H as [A B].
  apply Nat.eqb_eq in A. apply Nat.eqb_eq in B. now rewrite A, B.
Qed.

Lemma space3_highb (c1 c2 c3 : ascii) :
  isSpace3 c1 c2 c3 = true ->
  (128 <=? nat_of_ascii c1)%nat = true /\ (128 <=? nat_of_ascii c2)%nat = true
  /\ (128 <=? nat_of_ascii c3)%nat = true.
Proof.
  intros H. destruct (space3_high _ _ _ H) as [A [B C]].
  repeat split; now apply Nat.leb_le.
Qed.

Lemma isSpace2_lowerChar (c1 c2 : ascii) :
  isSpace2 (lowerChar c1) (lowerChar c2) = isSpace2 c1 c2.
Proof.
  destruct (128 <=? nat_of_ascii c1)%nat eqn:A;
    destruct (128 <=? nat_of_ascii c2)%nat eqn:B.
  - now rewrite !lowerChar_high.
  - destruct (isSpace2 c1 c2) eqn:E;
      [apply space2_high in E; destruct E; congruence|].
    destruct (isSpace2 (lowerChar c1) (lowerChar c2)) eqn:E'; [|reflexivity].
    apply space2_high in E'. destruct E' as [_ E'].
    now rewrite lowerChar_low in E'.
  - destruct (isSpace2 c1 c2) eqn:E;
      [apply space2_high in E; destruct E; congruence|].
    destruct (isSpace2 (lowerChar c1) (lowerChar c2)) eqn:E'; [|reflexivity].
    apply space2_high in E'. destruct E' as [E' _].
    now rewrite lowerChar_low in E'.
  - destruct (isSpace2 c1 c2) eqn:E;
      [apply space2_high in E; destruct E; congruence|].
    destruct (isSpace2 (lowerChar c1) (lowerChar c2)) eqn:E'; [|reflexivity].
    apply space2_high in E'. destruct E' as [E' _].
    now rewrite lowerChar_low in E'.
Qed.

Lemma isSpace3_lowerChar (c1 c2 c3 : ascii) :
  isSpace3 (lowerChar c1) (lowerChar c2) (lowerChar c3) = isSpace3 c1 c2 c3.
Proof.
  destruct (128 <=? nat_of_ascii c1)%nat eqn:A;
    destruct (128 <=? nat_of_ascii c2)%nat eqn:B;
    destruct (128 <=? nat_of_ascii c3)%nat eqn:C;
    try (now rewrite !lowerChar_high);
    (destruct (isSpace3 c1 c2 c3) eqn:E;
     [apply space3_highb in E; destruct E as [? [? ?]]; congruence|]);
    (destruct (isSpace3 (lowerChar c1) (lowerChar c2) (lowerChar c3)) eqn:E';
     [|reflexivity]);
    apply space3_highb in E'; destruct E' as [E1 [E2 E3]];
    first [ now rewrite lowerChar_low in E1
          | now rewrite lowerChar_low in E2
          | now rewrite lowerChar_low in E3 ].
Qed.

Lemma asciiLowerCase_idem (s : string) :
  asciiLowerCase (asciiLowerCase s) = asciiLowerCase s.
Proof.
  induction s as [|c s IH]; simpl; [reflexivity|].
  now rewrite lowerChar_idem, IH.
Qed.

Lemma asciiLowerCase_length (s : string) :
  String.length (asciiLowerCase s) = String.length s.
Proof. induction s as [|c s IH]; simpl; [reflexivity | now rewrite IH]. Qed.

Lemma asciiLowerCase_drop (n : nat) (s : string) :
  asciiLowerCase (drop n s) = drop n (asciiLowerCase s).
Proof.
  revert s. induction n as [|n IH]; intros s; [reflexivity|].
  destruct s as [|c s]; [reflexivity | apply IH].
Qed.

Lemma spaceWidth_asciiLowerCase (s : string) :
  spaceWidth (asciiLowerCase s) = spaceWidth s.
Proof.
  destruct s as [|c1 [|c2 [|c3 t]]]; cbn [asciiLowerCase spaceWidth];
    rewrite ?isSpace_lowerChar, ?isSpace2_lowerChar, ?isSpace3_lowerChar;
    reflexivity.
Qed.

Lemma asciiLowerCase_trimStart (s : string) :
  asciiLowerCase (trimStart s) = trimStart (asciiLowerCase s).
Proof.
  induction s as [s IH] using string_length_ind.
  rewrite (trimStart_step s), (trimStart_step (asciiLowerCase s)).
  rewrite spaceWidth_asciiLowerCase.
  destruct (spaceWidth s) as [|k] eqn:E; [reflexivity|].
  rewrite <- asciiLowerCase_drop. apply IH.
  rewrite <- E. apply spaceWidth_drop. lia.
Qed.

Lemma allSpaces_asciiLowerCase (s : string) :
  allSpaces (asciiLowerCase s) = allSpaces s.
Proof.
  induction s as [s IH] using string_length_ind.
  rewrite (allSpaces_step s), (allSpaces_step (asciiLowerCase s)).
  rewrite spaceWidth_asciiLowerCase.
  destruct s as [|c t]; [reflexivity|]. cbn [asciiLowerCase].
  destruct (spaceWidth (String c t)) as [|k] eqn:E; [reflexivity|].
  change (String (lowerChar c) (asciiLowerCase t))
    with (asciiLowerCase (String c t)).
  rewrite <- asciiLowerCase_drop. apply IH.
  rewrite <- E. apply spaceWidth_drop. lia.
Qed.

Lemma asciiLowerCase_trimEnd (s : string) :
  asciiLowerCase (trimEnd s) = trimEnd (asciiLowerCase s).
Proof.
  induction s as [|c t IH]; [reflexivity|].
  cbn [trimEnd asciiLowerCase].
  change (String (lowerChar c) (asciiLowerCase t))
    with (asciiLowerCase (String c t)).
  rewrite allSpaces_asciiLowerCase.
  destruct (allSpaces (String c t)); [reflexivity|].
  cbn [asciiLowerCase]. now rewrite IH.
Qed.

Lemma asciiLowerCase_trim (s : string) :
  asciiLowerCase (trim s) = trim (asciiLowerCase s).
Proof.
  unfold trim. now rewrite asciiLowerCase_trimEnd, asciiLowerCase_trimStart.
Qed.

End MoreStrings.

(** ** The socket endpoint *)

(** X1.  Whatever the environment holds, the endpoint [resolveEndpoint]
    answers has a non-empty base and a path that ends with a slash. *)
Theorem endpoint_base_set_and_path_closed (env : SocketEndpoint.Env) :
  truthy_str (SocketEndpoint.base (SocketEndpoint.resolveEndpoint env)) = true
  /\ endsWith (SocketEndpoint.path (SocketEndpoint.resolveEndpoint env)) "/"
     = true.
Proof.
  unfold SocketEndpoint.resolveEndpoint.
  set (pathEnv := trim (SocketEndpoint.orStr (Some _) "")).
  set (baseEnv := SocketEndpoint.dropTrailingSlash _).
  destruct (truthy_str baseEnv) eqn:Eb; simpl.
  - split; [exact Eb|].
    destruct (0 <? String.length pathEnv)%nat; [|reflexivity].
    destruct (endsWith pathEnv "/") eqn:Ep;
      [exact Ep | apply endsWith_append].
  - split; reflexivity.
Qed.

(** X2.  When neither URL variable holds anything but white space, the
    default endpoint is answered and the path variables are not used. *)
Theorem endpoint_default_without_url (env : SocketEndpoint.Env) :
  (forall u, SocketEndpoint.EXPO_PUBLIC_SOCKET_URL env = Some u ->
             allSpaces u = true) ->
  (forall u, SocketEndpoint.NEXT_PUBLIC_SOCKET_URL env = Some u ->
             allSpaces u = true) ->
  SocketEndpoint.resolveEndpoint env
  = {| SocketEndpoint.base := "https://covecrm.onrender.com";
       SocketEndpoint.path := "/socket/" |}.
Proof.
  intros H1 H2. unfold SocketEndpoint.resolveEndpoint.
  assert (Hb : allSpaces
                 (SocketEndpoint.orStr (SocketEndpoint.EXPO_PUBLIC_SOCKET_URL env)
                    (SocketEndpoint.orStr
                       (SocketEndpoint.NEXT_PUBLIC_SOCKET_URL env) ""))
               = true).
  { unfold SocketEndpoint.orStr.
    destruct (SocketEndpoint.EXPO_PUBLIC_SOCKET_URL env) as [u|];
      destruct (SocketEndpoint.NEXT_PUBLIC_SOCKET_URL env) as [v|];
      try destruct (truthy_str u); try destruct (truthy_str v);
      try reflexivity; try (now apply H1); now apply H2. }
  apply trim_blank_iff in Hb.
  destruct (trim _) as [|c t]; [reflexivity | discriminate].
Qed.

Lemma endpoint_default_without_url_witness :
  SocketEndpoint.resolveEndpoint
    {| SocketEndpoint.EXPO_PUBLIC_SOCKET_URL := Some (Samples.nbsp ++ " ");
       SocketEndpoint.NEXT_PUBLIC_SOCKET_URL := None;
       SocketEndpoint.EXPO_PUBLIC_SOCKET_PATH := Some "/ws";
       SocketEndpoint.NEXT_PUBLIC_SOCKET_PATH := None |}
  = {| SocketEndpoint.base := "https://covecrm.onrender.com";
       SocketEndpoint.path := "/socket/" |}.
Proof.
  apply endpoint_default_without_url; simpl.
  - intros u H. inversion H. reflexivity.
  - intros u H. discriminate.
Defined.

Example endpoint_custom :
  SocketEndpoint.resolveEndpoint
    {| SocketEndpoint.EXPO_PUBLIC_SOCKET_URL := Some " https://rt.example.com/ ";
       SocketEndpoint.NEXT_PUBLIC_SOCKET_URL := None;
       SocketEndpoint.EXPO_PUBLIC_SOCKET_PATH := None;
       SocketEndpoint.NEXT_PUBLIC_SOCKET_PATH := Some "/ws" |}
  = {| SocketEndpoint.base := "https://rt.example.com";
       SocketEndpoint.path := "/ws/" |}.
Proof. reflexivity. Qed.

(** ** The joined identity *)

(** X3.  Under any case table whose lower-casing is idempotent and commutes
    with [trim] (white space has no case), the identity [connectAndJoin]
    stores and joins is a normal form: lower-casing the address first (as the
    login does) or handing in an identity already normalised (as the screens
    do) changes neither the answer nor the world [connectAndJoin] leaves. *)
Theorem identity_is_a_normal_form {table : CaseTable} (e : string) (w : World) :
  (forall s, toLowerCase (toLowerCase s) = toLowerCase s) ->
  (forall s, toLowerCase (trim s) = trim (toLowerCase s)) ->
  normalizeEmail (Some (normalizeEmail (Some e))) = normalizeEmail (Some e)
  /\ normalizeEmail (Some (toLowerCase e)) = normalizeEmail (Some e)
  /\ connectAndJoin (Some (normalizeEmail (Some e))) w
     = connectAndJoin (Some e) w
  /\ connectAndJoin (Some (toLowerCase e)) w = connectAndJoin (Some e) w.
Proof.
  intros Hidem Htrim.
  assert (H1 : normalizeEmail (Some (normalizeEmail (Some e)))
               = normalizeEmail (Some e)).
  { unfold normalizeEmail. now rewrite <- Htrim, Hidem, trim_idem. }
  assert (H2 : normalizeEmail (Some (toLowerCase e)) = normalizeEmail (Some e)).
  { unfold normalizeEmail. now rewrite <- Htrim, Hidem. }
  split; [exact H1|]. split; [exact H2|].
  unfold connectAndJoin. now rewrite H1, H2.
Qed.

Lemma identity_is_a_normal_form_witness :
  normalizeEmail (table := asciiTable)
    (Some (normalizeEmail (table := asciiTable) (Some " Ann@Example.com ")))
  = "ann@example.com".
Proof.
  destruct (identity_is_a_normal_form (table := asciiTable)
              " Ann@Example.com " emptyWorld
              asciiLowerCase_idem asciiLowerCase_trim) as [H _].
  rewrite H. reflexivity.
Defined.

Section Rejoin.

Context {table : CaseTable}.

Lemma connectAndJoin_fresh_world (e : option string) (w : World) :
  __crm_mobile_socket__ w = None ->
  snd (connectAndJoin e w)
  = {| sockets :=
         sockets w
         ++ [ {| SocketClient.connected := false; connecting := true;
                 listeners := listeners (freshClient (nextStamp w));
                 emitted :=
                   if truthy_str (normalizeEmail e)
                   then [("join", normalizeEmail e)] else [] |} ];
       nextStamp := S (S (S (nextStamp w)));
       __crm_mobile_socket__ := Some (length (sockets w));
       __crm_mobile_socket_email__ :=
         if truthy_str (normalizeEmail e) then Some (normalizeEmail e)
         else None |}.
Proof.
  intros H. unfold connectAndJoin.
  rewrite bind_snd, (getSocket_constructs w H). simpl.
  unfold bind, writeEmail, isConnected, connect, emit, modifySocket, ret.
  simpl. rewrite list_lookup_middle by reflexivity. simpl.
  destruct (truthy_str (normalizeEmail e)); simpl;
    rewrite !alter_snoc; reflexivity.
Qed.

Lemma connect_listeners_of_fresh (n : nat) :
  filter (fun l => event l = "connect")
    [ {| event := "connect_error"; stamp := n; handler := LogConnectError |};
      {| event := "error"; stamp := S n; handler := LogError |};
      {| event := "connect"; stamp := S (S n); handler := JoinOnConnect |} ]
  = [ {| event := "connect"; stamp := S (S n); handler := JoinOnConnect |} ].
Proof. reflexivity. Qed.

End Rejoin.

(** X4.  In a process without registered socket, [connectAndJoin] builds the
    socket, asks it to connect and emits the join; when the transport then
    reports the connection established the socket is connected and the
    connect listener emits the join once more, with the stored identity
    lower-cased again: the same identity under an idempotent case table.
    With a blank identity neither step emits anything. *)
Theorem join_is_reissued_on_connect {table : CaseTable}
    (e : option string) (w : World) :
  __crm_mobile_socket__ w = None ->
  sockets (snd (transportConnected (length (sockets w))
                  (snd (connectAndJoin e w))))
    !! length (sockets w)
  = Some {| SocketClient.connected := true; connecting := false;
            listeners := listeners (freshClient (nextStamp w));
            emitted :=
              if truthy_str (normalizeEmail e)
              then [("join", normalizeEmail e);
                    ("join", toLowerCase (normalizeEmail e))]
              else [] |}
  /\ ((forall s, toLowerCase (toLowerCase s) = toLowerCase s) ->
      sockets (snd (transportConnected (length (sockets w))
                      (snd (connectAndJoin e w))))
        !! length (sockets w)
      = Some {| SocketClient.connected := true; connecting := false;
                listeners := listeners (freshClient (nextStamp w));
                emitted :=
                  if truthy_str (normalizeEmail e)
                  then [("join", normalizeEmail e); ("join", normalizeEmail e)]
                  else [] |}).
Proof.
  intros H.
  assert (G : sockets (snd (transportConnected (length (sockets w))
                              (snd (connectAndJoin e w))))
                !! length (sockets w)
              = Some {| SocketClient.connected := true; connecting := false;
                        listeners := listeners (freshClient (nextStamp w));
                        emitted :=
                          if truthy_str (normalizeEmail e)
                          then [("join", normalizeEmail e);
                                ("join", toLowerCase (normalizeEmail e))]
                          else [] |}).
  { rewrite (connectAndJoin_fresh_world e w H).
    unfold transportConnected. rewrite bind_snd.
    unfold modifySocket at 1. simpl. rewrite alter_snoc. simpl.
    unfold listenersFor. simpl.
    rewrite list_lookup_middle by reflexivity. simpl listeners.
    rewrite connect_listeners_of_fresh. simpl runHandlers.
    rewrite !bind_snd. simpl.
    destruct (truthy_str (normalizeEmail e)) eqn:E; simpl.
    - rewrite E. simpl. rewrite alter_snoc. simpl.
      now rewrite list_lookup_middle by reflexivity.
    - now rewrite list_lookup_middle by reflexivity. }
  split; [exact G|].
  intros Hidem. rewrite G. unfold normalizeEmail at 3. now rewrite Hidem.
Qed.

Lemma join_is_reissued_on_connect_witness :
  sockets (snd (transportConnected (table := asciiTable)
                  (length (sockets emptyWorld))
                  (snd (connectAndJoin (table := asciiTable)
                          (Some " Ann@Example.com ") emptyWorld))))
    !! length (sockets emptyWorld)
  = Some {| SocketClient.connected := true; connecting := false;
            listeners := listeners (freshClient (nextStamp emptyWorld));
            emitted :=
              [("join", "ann@example.com"); ("join", "ann@example.com")] |}.
Proof.
  destruct (join_is_reissued_on_connect (table := asciiTable)
              (Some " Ann@Example.com ") emptyWorld eq_refl) as [H _].
  rewrite H. reflexivity.
Defined.

(** ** Sockets across logins and logouts *)

Import SocketLife.

Section NoStray.

Context {table : CaseTable}.

Lemma touches_refl (sid : nat) (w : World) : touches sid w w.
Proof. repeat split. Qed.

Lemma touches_trans (sid : nat) (w1 w2 w3 : World) :
  touches sid w1 w2 -> touches sid w2 w3 -> touches sid w1 w3.
Proof.
  intros [A [B C]] [D [E F]]. split; [congruence|]. split; [congruence|].
  intros j Hj. rewrite (F j Hj). now apply C.
Qed.

Lemma modifySocket_touches (sid : nat) (f : Socket -> Socket) (w : World) :
  touches sid w (snd (modifySocket sid f w)).
Proof.
  split; [reflexivity|]. split; [apply length_alter|].
  intros j Hj. simpl. now apply list_lookup_alter_ne.
Qed.

Lemma on_touches (sid : nat) (ev : string) (h : Handler) (w : World) :
  touches sid w (snd (on sid ev h w)).
Proof.
  split; [reflexivity|]. split; [apply length_alter|].
  intros j Hj. simpl. now apply list_lookup_alter_ne.
Qed.

Lemma runHandlers_touches (sid : nat) (ls : list Listener) (w : World) :
  touches sid w (snd (runHandlers sid ls w)).
Proof.
  revert w. induction ls as [|l ls IH]; intros w; simpl;
    [apply touches_refl|].
  rewrite bind_snd. eapply touches_trans; [|apply IH].
  destruct (handler l); simpl; try apply touches_refl.
  rewrite bind_snd. simpl.
  destruct (__crm_mobile_socket_email__ w) as [e|]; [|apply touches_refl].
  destruct (truthy_str e); [apply modifySocket_touches | apply touches_refl].
Qed.

Lemma transportConnected_touches (sid : nat) (w : World) :
  touches sid w (snd (transportConnected sid w)).
Proof.
  unfold transportConnected. rewrite bind_snd.
  eapply touches_trans; [apply modifySocket_touches|].
  apply runHandlers_touches.
Qed.

Lemma connectAndJoin_touches (e : option string) (w : World) (sid : nat) :
  __crm_mobile_socket__ w = Some sid ->
  touches sid w (snd (connectAndJoin e w)).
Proof.
  intros H. unfold connectAndJoin. rewrite bind_snd.
  rewrite (getSocket_existing w sid H).
  unfold bind, writeEmail, isConnected, connect, emit, modifySocket, ret.
  simpl.
  destruct (match sockets w !! sid with
            | Some s => SocketClient.connected s
            | None => false
            end);
    destruct (truthy_str (normalizeEmail e)); simpl;
    (split; [reflexivity|]); (split; [simpl; now rewrite ?length_alter|]);
    intros j Hj; simpl; now rewrite ?list_lookup_alter_ne by congruence.
Qed.

Lemma connectAndJoin_via_getSocket (e : option string) (w : World) :
  connectAndJoin e w = connectAndJoin e (snd (getSocket w)).
Proof.
  destruct (getSocket_shape w) as [Hr [Hreg _]].
  unfold connectAndJoin at 1 2. unfold bind.
  rewrite (getSocket_existing (snd (getSocket w)) _ Hreg).
  destruct (getSocket w) as [r w0]. simpl in *. now rewrite Hr.
Qed.

Lemma touches_noStray (sid : nat) (w w' : World) :
  __crm_mobile_socket__ w = Some sid ->
  touches sid w w' -> noStray w -> noStray w'.
Proof.
  intros Hreg [A [_ C]] Hn i s Hs Hi. rewrite A, Hreg in Hi.
  assert (Hne : i <> sid) by congruence.
  rewrite (C i Hne) in Hs. apply (Hn i s Hs). congruence.
Qed.

Lemma getSocket_noStray (w : World) :
  noStray w -> noStray (snd (getSocket w)).
Proof.
  intros Hn. destruct (__crm_mobile_socket__ w) as [sid|] eqn:E.
  - now rewrite (getSocket_existing w sid E).
  - rewrite (getSocket_constructs w E). simpl. intros i s Hs Hi. simpl in *.
    assert (Hlt : (i < length (sockets w))%nat).
    { apply lookup_lt_Some in Hs. rewrite length_app in Hs. simpl in Hs.
      assert (i <> length (sockets w)) by congruence. lia. }
    rewrite lookup_app_l in Hs by exact Hlt.
    apply (Hn i s Hs). congruence.
Qed.

Lemma runOp_noStray (o : Op) (w : World) :
  noStray w -> noStray (snd (runOp o w)).
Proof.
  intros Hn. destruct (getSocket_shape w) as [Hr [Hreg _]].
  destruct o as [| e | ev name | |]; unfold runOp; rewrite bind_snd; simpl.
  - now apply getSocket_noStray.
  - rewrite connectAndJoin_via_getSocket.
    eapply touches_noStray;
      [exact Hreg | now apply connectAndJoin_touches
      | now apply getSocket_noStray].
  - rewrite bind_snd. simpl. rewrite Hr.
    eapply touches_noStray;
      [exact Hreg | apply on_touches | now apply getSocket_noStray].
  - rewrite bind_snd. simpl.
    destruct (__crm_mobile_socket__ w) as [sid|] eqn:E; [|exact Hn].
    eapply touches_noStray;
      [exact E | apply transportConnected_touches | exact Hn].
  - rewrite bind_snd. simpl.
    destruct (__crm_mobile_socket__ w) as [sid|] eqn:E; [|exact Hn].
    eapply touches_noStray;
      [exact E | apply modifySocket_touches | exact Hn].
Qed.

Lemma disconnect_noStray (w : World) :
  wellFormed w -> noStray w -> noStray (snd (disconnectSocket w)).
Proof.
  intros [_ [_ Hreg]] Hn i s Hs _.
  destruct (__crm_mobile_socket__ w) as [old|] eqn:E.
  - destruct (disconnect_registered w old E) as [A [_ [_ C]]].
    destruct (decide (i = old)) as [-> | Hne].
    + rewrite A in Hs. destruct (sockets w !! old); [|discriminate].
      inversion Hs. repeat split.
    + rewrite (C i Hne) in Hs. apply (Hn i s Hs). congruence.
  - destruct (disconnect_unregistered w E) as [A _]. rewrite A in Hs.
    apply lookup_app_Some in Hs. destruct Hs as [Hs | [_ Hs]].
    + apply (Hn i s Hs). congruence.
    + destruct (i - length (sockets w))%nat; [|discriminate].
      inversion Hs. repeat split.
Qed.

Lemma reachable_noStray (acts : list Action) :
  noStray (runActions acts emptyWorld).
Proof.
  assert (H0 : noStray emptyWorld) by (intros i s Hs; discriminate).
  generalize wellFormed_empty H0. generalize emptyWorld.
  induction acts as [|a acts IH]; intros w Hw Hn; simpl; [exact Hn|].
  destruct a as [o|]; apply IH.
  - now apply wellFormed_runOp.
  - now apply runOp_noStray.
  - now apply wellFormed_disconnect.
  - now apply disconnect_noStray.
Qed.

End NoStray.

(** X5.  Whatever calls, transport events and disconnects a process has
    gone through, every socket it constructed other than the registered one
    is closed, not connecting and without listener: at most one socket is
    live at any time.  An identity is stored only while a socket is
    registered, and the registered socket exists. *)
Theorem at_most_one_live_socket {table : CaseTable} (acts : list Action) :
  noStray (runActions acts emptyWorld)
  /\ (forall i j si sj,
        sockets (runActions acts emptyWorld) !! i = Some si ->
        sockets (runActions acts emptyWorld) !! j = Some sj ->
        ~ quiet si -> ~ quiet sj -> i = j)
  /\ (__crm_mobile_socket__ (runActions acts emptyWorld) = None ->
      __crm_mobile_socket_email__ (runActions acts emptyWorld) = None)
  /\ (forall sid,
        __crm_mobile_socket__ (runActions acts emptyWorld) = Some sid ->
        is_Some (sockets (runActions acts emptyWorld) !! sid)).
Proof.
  pose proof (reachable_noStray acts) as Hn.
  destruct (reachable_wellFormed acts) as [_ [He Hr]].
  split; [exact Hn|]. split; [|split; [exact He|]].
  - intros i j si sj Hi Hj Hqi Hqj.
    destruct (__crm_mobile_socket__ (runActions acts emptyWorld))
      as [sid|] eqn:E.
    + destruct (decide (i = sid)) as [-> | Hni].
      * destruct (decide (j = sid)) as [-> | Hnj]; [reflexivity|].
        exfalso. apply Hqj. apply (Hn j sj Hj). rewrite E. congruence.
      * exfalso. apply Hqi. apply (Hn i si Hi). rewrite E. congruence.
    + exfalso. apply Hqi. apply (Hn i si Hi). rewrite E. discriminate.
  - intros sid Hsid. apply lookup_lt_is_Some. now apply Hr.
Qed.

Example relogin_leaves_one_live_socket :
  map SocketClient.connecting
    (sockets (runActions (table := asciiTable)
       [Do (OpConnectAndJoin (Some "ann@example.com"));
        Do OpTransportConnected; Disconnect;
        Do (OpConnectAndJoin (Some "bob@example.com"))] emptyWorld))
  = [false; true]
  /\ __crm_mobile_socket__ (runActions (table := asciiTable)
       [Do (OpConnectAndJoin (Some "ann@example.com"));
        Do OpTransportConnected; Disconnect;
        Do (OpConnectAndJoin (Some "bob@example.com"))] emptyWorld)
     = Some 1%nat.
Proof. vm_compute. split; reflexivity. Qed.

(** ** Sending and realtime events *)

Import ConversationsScreenOps ThreadGrowth.

(** X6.  [handleSend] posts nothing when no conversation is selected or when
    the input holds white space only.  When it posts, the request is for the
    selected conversation and carries the input trimmed, which is not
    empty. *)
Theorem send_needs_selection_and_text (c : Composer) :
  (selectedConv (screen c) = None -> handleSend_begin c = None)
  /\ (allSpaces (input c) = true -> handleSend_begin c = None)
  /\ (forall p, handleSend_begin c = Some p ->
        exists conv,
          selectedConv (screen c) = Some conv
          /\ payloadLeadId p = _id conv
          /\ payloadText p = trim (input c)
          /\ truthy_str (payloadText p) = true
          /\ allSpaces (input c) = false).
Proof.
  unfold handleSend_begin. split; [|split].
  - now intros ->.
  - intros H. apply trim_blank_iff in H. rewrite H.
    now destruct (selectedConv (screen c)).
  - intros p. destruct (selectedConv (screen c)) as [conv|]; [|discriminate].
    destruct (truthy_str (trim (input c))) eqn:E; [|discriminate].
    intros Hp. inversion Hp; subst. exists conv. simpl.
    repeat split; try assumption.
    destruct (allSpaces (input c)) eqn:Ea; [|reflexivity].
    apply trim_blank_iff in Ea. congruence.
Qed.

Example send_ignores_blank_input :
  handleSend_begin
    {| screen := setSelectedConv (Some Samples.a_after) initialState;
       input := " " ++ Samples.nbsp ++ " " |} = None
  /\ handleSend_begin
       {| screen := setSelectedConv (Some Samples.a_after) initialState;
          input := Samples.nbsp ++ "on my way " |}
     = Some {| payloadLeadId := "a"; payloadText := "on my way" |}.
Proof. split; reflexivity. Qed.

Section Growth.

Lemma handleNewMessage_view (now : string) (m : Incoming) (s : State) :
  messages (fst (handleNewMessage now m s))
  = (messages s ++ added (selectedId s) (NewMessage now m))%list
  /\ selectedConv (fst (handleNewMessage now m s)) = selectedConv s.
Proof.
  unfold handleNewMessage, added, targetsOpenThread.
  destruct (inLeadId m) as [leadId|]; [|now rewrite app_nil_r].
  destruct (truthy_str leadId); simpl.
  - destruct (selectedId s) as [id|]; simpl; [|now rewrite app_nil_r].
    destruct (truthy_str id && String.eqb leadId id); simpl;
      [split; reflexivity | now rewrite app_nil_r].
  - destruct (selectedId s); now rewrite app_nil_r.
Qed.

Lemma handleServerMessageNew_view (m : Incoming) (s : State) :
  messages (fst (handleServerMessageNew m s)) = messages s
  /\ selectedConv (fst (handleServerMessageNew m s)) = selectedConv s.
Proof.
  unfold handleServerMessageNew.
  destruct (inLeadId m) as [leadId|]; [|split; reflexivity].
  destruct (truthy_str leadId && _); [|split; reflexivity].
  unfold fetchMessages_begin. destruct (truthy_str leadId);
    split; reflexivity.
Qed.

Lemma arrive_selected (a : Arrival) (c : Composer) :
  selectedConv (screen (arrive a c)) = selectedConv (screen c).
Proof.
  destruct a as [r | now m | m | leadId r |]; simpl.
  - now destruct r.
  - apply handleNewMessage_view.
  - apply handleServerMessageNew_view.
  - now destruct r.
  - reflexivity.
Qed.

Lemma arrive_view (a : Arrival) (c : Composer) :
  isFetchSettled a = false ->
  messages (screen (arrive a c))
  = (messages (screen c) ++ added (selectedId (screen c)) a)%list.
Proof.
  destruct a as [r | now m | m | leadId r |]; simpl; intros H;
    try discriminate H.
  - destruct r; simpl; rewrite ?app_nil_r; reflexivity.
  - apply handleNewMessage_view.
  - rewrite app_nil_r. apply handleServerMessageNew_view.
  - now rewrite app_nil_r.
Qed.

Lemma arrive_settled (leadId : string) (r : Outcome Message) (c : Composer) :
  messages (screen (arrive (FetchSettled leadId r) c)) = settledList r.
Proof. now destruct r. Qed.

Lemma arrivals_selected (l : list Arrival) (c : Composer) :
  selectedConv (screen (arrivals l c)) = selectedConv (screen c).
Proof.
  revert c. induction l as [|a l IH]; intros c; [reflexivity|].
  unfold arrivals in *. simpl. now rewrite IH, arrive_selected.
Qed.

Lemma arrivals_append (l : list Arrival) (c : Composer) :
  Forall (fun a => isFetchSettled a = false) l ->
  messages (screen (arrivals l c))
  = (messages (screen c)
     ++ concat (map (added (selectedId (screen c))) l))%list.
Proof.
  revert c. induction l as [|a l IH]; intros c Hl; simpl.
  - now rewrite app_nil_r.
  - inversion Hl as [|? ? Ha Hl']; subst.
    unfold arrivals in *. simpl. rewrite (IH _ Hl'), (arrive_view a c Ha).
    unfold selectedId. rewrite arrive_selected. now rewrite <- app_assoc.
Qed.

Lemma arrivals_app (l1 l2 : list Arrival) (c : Composer) :
  arrivals (l1 ++ l2)%list c = arrivals l2 (arrivals l1 c).
Proof. unfold arrivals. apply foldl_app. Qed.

End Growth.

(** X7.  While a conversation stays open the displayed messages are the
    list of the last message fetch that settled (the empty list when it
    failed, the messages shown at the start when none settled), followed by
    one message per confirmed send and per [newMessage] event for the open
    thread since then, in order of arrival: between two settlements sends
    and socket events only add to the end.  The selection never moves, and
    a [message:new] event for the open thread starts a fetch of that
    thread, whose settlement replaces the list. *)
Theorem arrivals_append_in_order (l : list Arrival) (c : Composer) :
  (Forall (fun a => isFetchSettled a = false) l ->
   messages (screen (arrivals l c))
   = (messages (screen c)
      ++ concat (map (added (selectedId (screen c))) l))%list)
  /\ (forall before leadId r after,
        l = (before ++ FetchSettled leadId r :: after)%list ->
        Forall (fun a => isFetchSettled a = false) after ->
        messages (screen (arrivals l c))
        = (settledList r
           ++ concat (map (added (selectedId (screen c))) after))%list)
  /\ selectedConv (screen (arrivals l c)) = selectedConv (screen c)
  /\ (forall payload leadId s,
        inLeadId payload = Some leadId -> truthy_str leadId = true ->
        selectedId s = Some leadId ->
        snd (handleServerMessageNew payload s)
        = [FetchMessages leadId; FetchConversations true]
        /\ loadingMessages (fst (handleServerMessageNew payload s)) = true).
Proof.
  split; [apply arrivals_append|]. split; [|split].
  - intros before leadId r after -> Hafter.
    rewrite arrivals_app.
    change (arrivals (FetchSettled leadId r :: after) (arrivals before c))
      with (arrivals after
              (arrive (FetchSettled leadId r) (arrivals before c))).
    rewrite (arrivals_append after _ Hafter), arrive_settled.
    unfold selectedId. now rewrite arrive_selected, arrivals_selected.
  - apply arrivals_selected.
  - intros payload leadId s Hl Ht Hs. unfold handleServerMessageNew.
    rewrite Hl, Ht, Hs, String.eqb_refl. simpl.
    unfold fetchMessages_begin. rewrite Ht. split; reflexivity.
Qed.

Example refetch_replaces_appended_messages :
  messages
    (screen
       (arrivals
          [NewMessage "2024-03-01T12:30:15.250Z"
             {| inLeadId := Some "a"; inText := "hi";
                inDirection := inbound; inDate := None |};
           FetchSettled "a" (Ok (ArrayBody [Samples.msg "from a" "a"]));
           SendSettled (SendOk (Samples.msg "reply" "a"))]
          {| screen := setSelectedConv (Some Samples.a_after) initialState;
             input := "reply" |}))
  = [Samples.msg "from a" "a"; Samples.msg "reply" "a"].
Proof. reflexivity. Qed.

(** X8.  A socket event about another conversation than the open one never
    touches the displayed messages and starts neither a message fetch nor a
    mark-read: all it starts is one background refresh of the list.  A
    [newMessage] event without [leadId] starts nothing at all, while
    [message:new] always starts the refresh. *)
Theorem event_for_other_thread_only_refreshes
    (now : string) (m : Incoming) (s : State) :
  (forall leadId,
     inLeadId m = Some leadId -> truthy_str leadId = true ->
     selectedId s <> Some leadId ->
     messages (fst (handleNewMessage now m s)) = messages s
     /\ snd (handleNewMessage now m s) = [FetchConversations true]
     /\ messages (fst (handleServerMessageNew m s)) = messages s
     /\ loadingMessages (fst (handleServerMessageNew m s)) = loadingMessages s
     /\ snd (handleServerMessageNew m s) = [FetchConversations true])
  /\ (truthy_ostr (inLeadId m) = false ->
      handleNewMessage now m s = (s, [])
      /\ snd (handleServerMessageNew m s) = [FetchConversations true])
  /\ In (FetchConversations true) (snd (handleServerMessageNew m s)).
Proof.
  split; [|split].
  - intros leadId Hl Ht Hne.
    assert (E1 : targetsOpenThread leadId s = false).
    { unfold targetsOpenThread. destruct (selectedId s) as [id|];
        [|reflexivity].
      destruct (String.eqb_spec leadId id) as [-> | Hn];
        [congruence | apply andb_false_r]. }
    assert (E2 : match selectedId s with
                 | Some id => String.eqb id leadId
                 | None => false
                 end = false).
    { destruct (selectedId s) as [id|]; [|reflexivity].
      destruct (String.eqb_spec id leadId) as [-> | Hn];
        [congruence | reflexivity]. }
    unfold handleNewMessage, handleServerMessageNew.
    rewrite Hl, Ht, E1, E2. simpl. repeat split.
  - intros Hf. unfold handleNewMessage, handleServerMessageNew.
    destruct (inLeadId m) as [leadId|]; simpl in *;
      [rewrite Hf; simpl|]; split; reflexivity.
  - unfold handleServerMessageNew. simpl. apply in_or_app. right. now left.
Qed.

Example event_for_other_thread :
  handleNewMessage "2024-03-01T12:30:15.250Z"
    {| inLeadId := Some "b"; inText := "hi"; inDirection := inbound;
       inDate := None |}
    (setSelectedConv (Some Samples.a_after) initialState)
  = (setSelectedConv (Some Samples.a_after) initialState,
     [FetchConversations true]).
Proof. reflexivity. Qed.

Example inbound_event_for_open_thread :
  handleNewMessage "2024-03-01T12:30:15.250Z"
    {| inLeadId := Some "a"; inText := "hi"; inDirection := inbound;
       inDate := None |}
    (setSelectedConv (Some Samples.a_after) initialState)
  = (setMessages
       [ {| text := "hi"; direction := inbound; leadId := Some "a";
            date := Some "2024-03-01T12:30:15.250Z" |} ]
       (setSelectedConv (Some Samples.a_after) initialState),
     [MarkRead "a"; FetchConversations true]).
Proof. reflexivity. Qed.

(** ** The banner *)

Section BannerFacts.

Variable getTime : string -> JSNum.

Lemma nodup_id_inj (l : list Conversation) (p c : Conversation) :
  NoDup (map _id l) -> In p l -> In c l -> _id p = _id c -> p = c.
Proof.
  induction l as [|x l IH]; simpl; intros Hnd Hp Hc Hid; [contradiction|].
  inversion Hnd as [|? ? Hx Hl]; subst.
  destruct Hp as [<- | Hp]; destruct Hc as [<- | Hc].
  - reflexivity.
  - exfalso. apply Hx. rewrite list_elem_of_In, Hid. now apply in_map.
  - exfalso. apply Hx. rewrite list_elem_of_In, <- Hid. now apply in_map.
  - now apply IH.
Qed.

Lemma buildPrevMap_self (l : list Conversation) (c : Conversation) :
  NoDup (map _id l) -> In c l -> buildPrevMap l !! _id c = Some c.
Proof.
  intros Hnd Hc.
  destruct (buildPrevMap l !! _id c) as [p|] eqn:E.
  - apply buildPrevMap_Some in E. destruct E as [Hp Hid].
    now rewrite (nodup_id_inj l p c Hnd Hp Hc Hid).
  - exfalso. exact (buildPrevMap_None_inv l (_id c) E c Hc eq_refl).
Qed.

End BannerFacts.

(** X9.  A banner candidate is never made up: when the detection answers a
    conversation, the fetch was a background poll over a non-empty previous
    list, and the conversation is one of the fetched list, inbound, with an
    unread value strictly above the one of its previous counterpart (0 when
    it has none).  An outbound conversation is never a candidate, and an
    initial-mode fetch leaves the banner as it was whatever it gets. *)
Theorem banner_candidate_is_fetched_and_inbound
    (getTime : string -> JSNum) (fromPoll : bool)
    (L1 L2 : list Conversation) (c : Conversation)
    (r : Outcome Conversation) (s : State) :
  detectNewestInbound getTime fromPoll L1 L2 = Some c ->
  fromPoll = true
  /\ L1 <> []
  /\ In c L2
  /\ isInbound c = true
  /\ match buildPrevMap L1 !! _id c with
     | Some p => unreadValue p
     | None => 0
     end < unreadValue c
  /\ bannerConv (fetchConversations_settle getTime false r s) = bannerConv s
  /\ bannerVisible (fetchConversations_settle getTime false r s)
     = bannerVisible s.
Proof.
  unfold detectNewestInbound. intros H.
  destruct fromPoll; [|discriminate]. destruct L1 as [|p L1]; [discriminate|].
  simpl in H.
  destruct (foldl_diffStep_member getTime (buildPrevMap (p :: L1)) L2 None)
    as [E | [c' [E [Hin Hq]]]]; [congruence|].
  rewrite E in H. inversion H; subst c'.
  unfold qualifies in Hq. apply andb_true_iff in Hq. destruct Hq as [Hi Hn].
  apply newlyNotified_increase in Hn.
  split; [reflexivity|]. split; [discriminate|]. split; [exact Hin|].
  split; [exact Hi|]. split; [exact Hn|].
  destruct r as [m | t | body]; split; reflexivity.
Qed.

Lemma banner_candidate_is_fetched_and_inbound_witness :
  In Samples.a_after [Samples.a_after]
  /\ isInbound Samples.a_after = true.
Proof.
  destruct (banner_candidate_is_fetched_and_inbound IsoDate.getTime true
              [Samples.a_before] [Samples.a_after] Samples.a_after
              (NotOk "") initialState eq_refl)
    as [_ [_ [H1 [H2 _]]]].
  split; [exact H1 | exact H2].
Defined.

(** X10.  Pressing the banner selects a conversation with the banner's
    identifier and hides the banner: the first entry of the current list
    with that identifier when there is one, the conversation the banner was
    raised for only when the list has none. *)
Theorem banner_press_selects_current_entry (s : State) (b : Conversation) :
  bannerConv s = Some b ->
  bannerVisible (handleBannerPress s) = false
  /\ exists c,
       selectedConv (handleBannerPress s) = Some c
       /\ _id c = _id b
       /\ (find (fun x => String.eqb (_id x) (_id b)) (conversations s)
           = Some c
           \/ (c = b
               /\ forall x, In x (conversations s) -> _id x <> _id b)).
Proof.
  intros H. unfold handleBannerPress. rewrite H.
  split; [reflexivity|].
  destruct (find (fun x => String.eqb (_id x) (_id b)) (conversations s))
    as [c|] eqn:E.
  - exists c. split; [reflexivity|]. split; [|now left].
    apply find_some in E. destruct E as [_ E]. now apply String.eqb_eq.
  - exists b. split; [reflexivity|]. split; [reflexivity|]. right.
    split; [reflexivity|]. intros x Hx.
    pose proof (find_none _ _ E x Hx) as Hn. simpl in Hn.
    now apply String.eqb_neq.
Qed.

Lemma banner_press_selects_current_entry_witness :
  bannerVisible
    (handleBannerPress
       (showBannerForConversation Samples.a_before
          (setConversations [Samples.b_new; Samples.a_after] initialState)))
  = false.
Proof.
  apply (banner_press_selects_current_entry
           (showBannerForConversation Samples.a_before
              (setConversations [Samples.b_new; Samples.a_after]
                 initialState))
           Samples.a_before).
  reflexivity.
Defined.

Example banner_press_takes_fresh_copy :
  selectedConv
    (handleBannerPress
       (showBannerForConversation Samples.a_before
          (setConversations [Samples.b_new; Samples.a_after] initialState)))
  = Some Samples.a_after.
Proof. reflexivity. Qed.

(** X11.  When the identifiers of a list are pairwise distinct, fetching the
    same list again raises nothing: a poll that gets the list already stored
    selects no candidate and leaves the banner as it was. *)
Theorem unchanged_list_raises_no_banner
    (getTime : string -> JSNum) (fromPoll : bool)
    (l : list Conversation) (s : State) :
  NoDup (map _id l) ->
  conversationsRef s = l ->
  detectNewestInbound getTime fromPoll l l = None
  /\ bannerConv (fetchConversations_settle getTime fromPoll
                   (Ok (ArrayBody l)) s) = bannerConv s
  /\ bannerVisible (fetchConversations_settle getTime fromPoll
                      (Ok (ArrayBody l)) s) = bannerVisible s
  /\ conversations (fetchConversations_settle getTime fromPoll
                      (Ok (ArrayBody l)) s) = l.
Proof.
  intros Hnd Href.
  assert (Hd : detectNewestInbound getTime fromPoll l l = None).
  { unfold detectNewestInbound.
    destruct (fromPoll && (0 <? length l)%nat); [|reflexivity].
    apply foldl_diffStep_None. intros c Hc _.
    rewrite (buildPrevMap_self l c Hnd Hc).
    destruct (newlyNotified getTime (Some c) c) eqn:E; [|reflexivity].
    apply newlyNotified_increase in E. lia. }
  split; [exact Hd|].
  unfold fetchConversations_settle. simpl bodyList. rewrite Href, Hd.
  destruct fromPoll; repeat split.
Qed.

Lemma unchanged_list_raises_no_banner_witness :
  detectNewestInbound IsoDate.getTime true
    [Samples.a_after; Samples.b_new] [Samples.a_after; Samples.b_new] = None.
Proof.
  apply (unchanged_list_raises_no_banner IsoDate.getTime true
           [Samples.a_after; Samples.b_new]
           (setConversationsRef [Samples.a_after; Samples.b_new]
              initialState)).
  - compute_done.
  - reflexivity.
Defined.

(** ** The application shell *)

Section ShellFacts.

Context {table : CaseTable}.

Lemma resolveTarget_nil (i p : option string) : resolveTarget [] i p = None.
Proof.
  unfold resolveTarget. destruct i as [x|]; [destruct (truthy_str x)|];
    simpl; destruct (truthy_ostr p); try reflexivity;
    now destruct (truthy_str _).
Qed.

Lemma resolveTarget_pending (l : list Conversation) (i p : option string)
    (c : Conversation) :
  resolveTarget l i p = Some c ->
  negb (truthy_ostr i) && negb (truthy_ostr p) = false.
Proof.
  unfold resolveTarget. destruct i as [x|]; simpl.
  - destruct (truthy_str x); [reflexivity|].
    destruct (truthy_ostr p); [reflexivity | discriminate].
  - destruct (truthy_ostr p); [reflexivity | discriminate].
Qed.

Lemma orUndefined_truthy (o : option string) :
  truthy_ostr (App.orUndefined o) = truthy_ostr o.
Proof. unfold App.orUndefined. now destruct (truthy_ostr o) eqn:E. Qed.

End ShellFacts.

(** X12.  A tap on an [incoming_sms] notification leads to its conversation:
    the App jumps to the conversations screen with the menu closed, and as
    soon as the screen has no selection and the resolver finds a
    conversation for the string fields of the notification (identifier
    first, phone otherwise), the deep-link effect selects it and the App's
    target is cleared. *)
Theorem notification_tap_opens_conversation
    (a : AppShell.Shell) (d : AppShell.NotificationData) (s : State)
    (c : Conversation) :
  (if AppShell.truthy_val (AppShell._type d)
   then AppShell._type d else AppShell.type d)
  = AppShell.JString "incoming_sms" ->
  selectedConv s = None ->
  resolveTarget (conversations s)
    (App.orUndefined (AppShell.stringOrNull (AppShell.conversationId d)))
    (App.orUndefined (AppShell.stringOrNull (AppShell.fromPhone d)))
  = Some c ->
  AppShell.screen (AppShell.handleNotificationData (Some d) a)
  = AppShell.conversations
  /\ AppShell.isMenuOpen (AppShell.handleNotificationData (Some d) a) = false
  /\ deepLinkEffect
       (App.conversationsProps
          (AppShell.deepLink (AppShell.handleNotificationData (Some d) a)))
       (s, AppShell.deepLink (AppShell.handleNotificationData (Some d) a))
     = (setSelectedConv (Some c) s, {| App.deepLinkTarget := None |}).
Proof.
  intros Ht Hs Hr. unfold AppShell.handleNotificationData. rewrite Ht.
  simpl. split; [reflexivity|]. split; [reflexivity|].
  unfold deepLinkEffect. rewrite Hs. simpl.
  rewrite (resolveTarget_pending _ _ _ _ Hr).
  destruct (conversations s) as [|x l] eqn:El.
  - rewrite resolveTarget_nil in Hr. discriminate.
  - now rewrite Hr.
Qed.

Lemma notification_tap_opens_conversation_witness :
  AppShell.screen
    (AppShell.handleNotificationData
       (Some {| AppShell._type := AppShell.JUndefined;
                AppShell.type := AppShell.JString "incoming_sms";
                AppShell.fromPhone := AppShell.JString "+15551234567";
                AppShell.conversationId := AppShell.JNull;
                AppShell.messageId := AppShell.JUndefined |})
       AppShell.initialShell)
  = AppShell.conversations.
Proof.
  apply (notification_tap_opens_conversation AppShell.initialShell
           {| AppShell._type := AppShell.JUndefined;
              AppShell.type := AppShell.JString "incoming_sms";
              AppShell.fromPhone := AppShell.JString "+15551234567";
              AppShell.conversationId := AppShell.JNull;
              AppShell.messageId := AppShell.JUndefined |}
           Samples.loadedScreen
           (Samples.withPhone "x" "555-123-4567")).
  - reflexivity.
  - reflexivity.
  - reflexivity.
Defined.

(** X13.  A notification of any other kind changes nothing: unless the
    first truthy one of [_type] and [type] is the string ["incoming_sms"],
    the App keeps its screen, its menu and its deep-link target; so does a
    tap without data. *)
Theorem other_notifications_are_ignored
    (a : AppShell.Shell) (d : AppShell.NotificationData) :
  (if AppShell.truthy_val (AppShell._type d)
   then AppShell._type d else AppShell.type d)
  <> AppShell.JString "incoming_sms" ->
  AppShell.handleNotificationData (Some d) a = a
  /\ AppShell.handleNotificationData None a = a.
Proof.
  intros H. split; [|reflexivity]. unfold AppShell.handleNotificationData.
  destruct (if AppShell.truthy_val (AppShell._type d)
            then AppShell._type d else AppShell.type d) as [| | b | z | t |];
    try reflexivity.
  destruct (String.eqb_spec t "incoming_sms") as [-> | Hn];
    [now contradiction H | reflexivity].
Qed.

Lemma other_notifications_are_ignored_witness :
  AppShell.handleNotificationData
    (Some {| AppShell._type := AppShell.JString "marketing";
             AppShell.type := AppShell.JString "incoming_sms";
             AppShell.fromPhone := AppShell.JString "+15551234567";
             AppShell.conversationId := AppShell.JNull;
             AppShell.messageId := AppShell.JUndefined |})
    AppShell.initialShell
  = AppShell.initialShell.
Proof.
  apply (other_notifications_are_ignored AppShell.initialShell
           {| AppShell._type := AppShell.JString "marketing";
              AppShell.type := AppShell.JString "incoming_sms";
              AppShell.fromPhone := AppShell.JString "+15551234567";
              AppShell.conversationId := AppShell.JNull;
              AppShell.messageId := AppShell.JUndefined |}).
  discriminate.
Defined.

(** X14.  Navigating by hand to any screen but the conversations drops a
    pending deep-link target, so that the conversations screen, whatever its
    state when it is shown again, selects nothing through the deep-link
    effect; navigating to the conversations keeps the target.  Either way
    the menu is closed. *)
Theorem navigating_away_drops_the_target
    (next : AppShell.Screen) (a : AppShell.Shell) (s : State) :
  next <> AppShell.conversations ->
  App.deepLinkTarget (AppShell.deepLink (AppShell.navigateTo next a)) = None
  /\ deepLinkEffect
       (App.conversationsProps (AppShell.deepLink (AppShell.navigateTo next a)))
       (s, AppShell.deepLink (AppShell.navigateTo next a))
     = (s, AppShell.deepLink (AppShell.navigateTo next a))
  /\ AppShell.isMenuOpen (AppShell.navigateTo next a) = false
  /\ AppShell.deepLink (AppShell.navigateTo AppShell.conversations a)
     = AppShell.deepLink a.
Proof.
  intros H.
  assert (E : AppShell.deepLink (AppShell.navigateTo next a)
              = {| App.deepLinkTarget := None |}).
  { destruct next; try reflexivity. now contradiction H. }
  rewrite E. split; [reflexivity|]. split; [|split; reflexivity].
  apply deepLinkEffect_idle. unfold deepLinkSelects.
  now destruct (selectedConv s).
Qed.

Lemma navigating_away_drops_the_target_witness :
  App.deepLinkTarget
    (AppShell.deepLink
       (AppShell.navigateTo AppShell.folders
          (AppShell.handleNotificationData
             (Some {| AppShell._type := AppShell.JUndefined;
                      AppShell.type := AppShell.JString "incoming_sms";
                      AppShell.fromPhone := AppShell.JString "+15551234567";
                      AppShell.conversationId := AppShell.JNull;
                      AppShell.messageId := AppShell.JUndefined |})
             AppShell.initialShell)))
  = None.
Proof.
  apply (navigating_away_drops_the_target AppShell.folders _
           Samples.loadedScreen).
  discriminate.
Defined.

(** X15.  The login form posts nothing while the email is blank (white
    space only) or the password is empty: it shows "Email and password are
    required." and does not start loading.  Otherwise it posts the email as
    typed, untrimmed, with the password, clears the error and starts
    loading. *)
Theorem login_needs_email_and_password (a : AppShell.Shell) :
  (allSpaces (AppShell.emailField a) = true \/ AppShell.password a = "" ->
   snd (AppShell.handleLogin_begin a) = None
   /\ AppShell.error (fst (AppShell.handleLogin_begin a))
      = Some "Email and password are required."
   /\ AppShell.loading (fst (AppShell.handleLogin_begin a))
      = AppShell.loading a)
  /\ (allSpaces (AppShell.emailField a) = false ->
      AppShell.password a <> "" ->
      snd (AppShell.handleLogin_begin a)
      = Some {| AppShell.credEmail := AppShell.emailField a;
                AppShell.credPassword := AppShell.password a |}
      /\ AppShell.error (fst (AppShell.handleLogin_begin a)) = None
      /\ AppShell.loading (fst (AppShell.handleLogin_begin a)) = true).
Proof.
  unfold AppShell.handleLogin_begin. split.
  - intros [H | H].
    + apply trim_blank_iff in H. rewrite H. simpl. repeat split.
    + rewrite H. simpl. rewrite orb_true_r. repeat split.
  - intros He Hp.
    assert (E1 : truthy_str (trim (AppShell.emailField a)) = true).
    { destruct (truthy_str (trim (AppShell.emailField a))) eqn:E;
        [reflexivity|]. apply trim_blank_iff in E. congruence. }
    assert (E2 : truthy_str (AppShell.password a) = true).
    { now destruct (AppShell.password a). }
    rewrite E1, E2. simpl. repeat split.
Qed.

Example login_rejects_blank_email :
  snd (AppShell.handleLogin_begin
         {| AppShell.screen := AppShell.login;
            AppShell.emailField := Samples.nbsp; AppShell.password := "secret";
            AppShell.loading := false; AppShell.error := None;
            AppShell.token := None; AppShell.user := None;
            AppShell.activeFolderId := None; AppShell.activeFolderName := "";
            AppShell.isMenuOpen := false;
            AppShell.deepLink := {| App.deepLinkTarget := None |} |})
  = None.
Proof. reflexivity. Qed.

(** X16.  A login and a logout undo each other on the socket and on the
    tokens.  From a process without registered socket, an accepted login
    registers a socket, stores as identity what [connectAndJoin] makes of
    the user's address lower-cased (the address trimmed and lower-cased,
    under a case table that is idempotent and commutes with [trim]), and
    hands the token to the screens and to the voice client; the logout that
    follows leaves no registered socket, no identity, no token and no
    deep-link target, shows the login screen, and the socket of the session
    is closed with no listener left. *)
Theorem login_then_logout_leaves_nothing {table : CaseTable}
    (p : AppShell.Process) (t : string) (u : AppShell.MobileUser) :
  __crm_mobile_socket__ (AppShell.socketWorld p) = None ->
  let p1 := AppShell.handleLogin_settle (AppShell.LoginAccepted t u) p in
  let p2 := AppShell.handleLogout p1 in
  let n := length (sockets (AppShell.socketWorld p)) in
  (__crm_mobile_socket__ (AppShell.socketWorld p1) = Some n
   /\ __crm_mobile_socket_email__ (AppShell.socketWorld p1)
      = (if truthy_str
              (normalizeEmail (Some (toLowerCase (AppShell.email u))))
         then Some (normalizeEmail (Some (toLowerCase (AppShell.email u))))
         else None)
   /\ ((forall s, toLowerCase (toLowerCase s) = toLowerCase s) ->
       (forall s, toLowerCase (trim s) = trim (toLowerCase s)) ->
       normalizeEmail (Some (toLowerCase (AppShell.email u)))
       = normalizeEmail (Some (AppShell.email u)))
   /\ AppShell.token (AppShell.shell p1) = Some t
   /\ VoiceClient.mobileAuthToken (AppShell.voice p1) = Some t
   /\ AppShell.screen (AppShell.shell p1) = AppShell.home)
  /\ (__crm_mobile_socket__ (AppShell.socketWorld p2) = None
      /\ __crm_mobile_socket_email__ (AppShell.socketWorld p2) = None
      /\ AppShell.token (AppShell.shell p2) = None
      /\ AppShell.user (AppShell.shell p2) = None
      /\ VoiceClient.mobileAuthToken (AppShell.voice p2) = None
      /\ App.deepLinkTarget (AppShell.deepLink (AppShell.shell p2)) = None
      /\ AppShell.screen (AppShell.shell p2) = AppShell.login
      /\ exists s, sockets (AppShell.socketWorld p2) !! n = Some s
                   /\ quiet s).
Proof.
  intros H p1 p2 n.
  pose proof (connectAndJoin_fresh_world
                (Some (toLowerCase (AppShell.email u)))
                (AppShell.socketWorld p) H) as Hw.
  assert (Hreg : __crm_mobile_socket__ (AppShell.socketWorld p1) = Some n).
  { subst p1. simpl. now rewrite Hw. }
  split.
  - split; [exact Hreg|]. split.
    { subst p1. simpl. rewrite Hw. reflexivity. }
    split.
    { intros Hidem Htrim. unfold normalizeEmail.
      now rewrite <- Htrim, Hidem. }
    repeat split.
  - destruct (disconnect_registry (AppShell.socketWorld p1)) as [A B].
    destruct (disconnect_registered (AppShell.socketWorld p1) n Hreg)
      as [C _].
    assert (E2 : AppShell.socketWorld p2
                 = snd (disconnectSocket (AppShell.socketWorld p1)))
      by reflexivity.
    rewrite E2. split; [exact A|]. split; [exact B|].
    split; [reflexivity|]. split; [reflexivity|]. split; [reflexivity|].
    split; [reflexivity|]. split; [reflexivity|].
    rewrite C.
    assert (E1 : AppShell.socketWorld p1
                 = snd (connectAndJoin (Some (toLowerCase (AppShell.email u)))
                          (AppShell.socketWorld p)))
      by reflexivity.
    rewrite E1, Hw. simpl sockets.
    rewrite list_lookup_middle by reflexivity. simpl.
    eexists. split; [reflexivity|]. repeat split.
Qed.

Lemma login_then_logout_leaves_nothing_witness :
  __crm_mobile_socket__
    (AppShell.socketWorld
       (AppShell.handleLogout
          (AppShell.handleLogin_settle (table := asciiTable)
             (AppShell.LoginAccepted "jwt"
                {| AppShell.id := "1"; AppShell.email := "Ann@Example.com";
                   AppShell.name := "Ann"; AppShell.role := "user";
                   AppShell.affiliateCode := None |})
             {| AppShell.shell := AppShell.initialShell;
                AppShell.socketWorld := emptyWorld;
                AppShell.voice :=
                  {| VoiceClient.tvPresent := true;
                     VoiceClient.registeredToken := None;
                     VoiceClient.registering := false;
                     VoiceClient.activeCall := None;
                     VoiceClient.mobileAuthToken := None |} |})))
  = None.
Proof.
  apply (login_then_logout_leaves_nothing (table := asciiTable)
           {| AppShell.shell := AppShell.initialShell;
              AppShell.socketWorld := emptyWorld;
              AppShell.voice :=
                {| VoiceClient.tvPresent := true;
                   VoiceClient.registeredToken := None;
                   VoiceClient.registering := false;
                   VoiceClient.activeCall := None;
                   VoiceClient.mobileAuthToken := None |} |}
           "jwt"
           {| AppShell.id := "1"; AppShell.email := "Ann@Example.com";
              AppShell.name := "Ann"; AppShell.role := "user";
              AppShell.affiliateCode := None |}).
  reflexivity.
Defined.

(** ** Phone numbers and display names *)

Import ConversationsPane.

Section DigitFacts.

Lemma removeNonDigits_digitsOnly (s : string) :
  digitsOnly (removeNonDigits s) = true.
Proof.
  induction s as [|c s IH]; simpl; [reflexivity|].
  destruct (isDigit c) eqn:E; simpl; [now rewrite E | exact IH].
Qed.

Lemma digitsOnly_fixed (s : string) :
  digitsOnly s = true -> removeNonDigits s = s.
Proof.
  induction s as [|c s IH]; simpl; [reflexivity|].
  intros H. apply andb_true_iff in H. destruct H as [Hc Hs].
  now rewrite Hc, IH.
Qed.

Lemma removeNonDigits_idem (s : string) :
  removeNonDigits (removeNonDigits s) = removeNonDigits s.
Proof. apply digitsOnly_fixed, removeNonDigits_digitsOnly. Qed.

Lemma digitsOnly_noSpace (s : string) : digitsOnly s = true -> noSpace s = true.
Proof.
  induction s as [|c s IH]; simpl; [reflexivity|].
  intros H. apply andb_true_iff in H. destruct H as [Hc Hs].
  rewrite (digit_not_space1 c Hc), (IH Hs). simpl. rewrite andb_true_r.
  unfold isDigit in Hc. apply andb_true_iff in Hc. destruct Hc as [_ Hc].
  apply Nat.leb_le in Hc. apply Nat.ltb_lt. lia.
Qed.

Lemma low_not_space2 (c1 c2 : ascii) :
  (nat_of_ascii c1 <? 128)%nat = true -> isSpace2 c1 c2 = false.
Proof.
  intros H. apply Nat.ltb_lt in H. unfold isSpace2.
  apply andb_false_iff. left. apply Nat.eqb_neq. lia.
Qed.

Lemma low_not_space3 (c1 c2 c3 : ascii) :
  (nat_of_ascii c1 <? 128)%nat = true -> isSpace3 c1 c2 c3 = false.
Proof.
  intros H. apply Nat.ltb_lt in H.
  destruct (isSpace3 c1 c2 c3) eqn:E; [|reflexivity].
  apply space3_high in E. lia.
Qed.

Lemma noSpace_width (s : string) : noSpace s = true -> spaceWidth s = O.
Proof.
  destruct s as [|c1 [|c2 [|c3 t]]]; [reflexivity| | |];
    cbn [noSpace spaceWidth]; intros H;
    apply andb_true_iff in H; destruct H as [H _];
    apply andb_true_iff in H; destruct H as [H1 H2];
    apply negb_true_iff in H1;
    rewrite ?H1, ?(low_not_space2 _ _ H2), ?(low_not_space3 _ _ _ H2);
    reflexivity.
Qed.

Lemma noSpace_trimEnd (s : string) : noSpace s = true -> trimEnd s = s.
Proof.
  induction s as [|c s IH]; [reflexivity|]. intros H.
  cbn [trimEnd]. rewrite allSpaces_step, (noSpace_width _ H).
  cbn [noSpace] in H. apply andb_true_iff in H. destruct H as [_ H].
  now rewrite (IH H).
Qed.

Lemma noSpace_trim (s : string) : noSpace s = true -> trim s = s.
Proof.
  intros H. unfold trim.
  rewrite (trimStart_fixed s (noSpace_width s H)). now apply noSpace_trimEnd.
Qed.

Lemma plus_digits_trim (d : string) :
  digitsOnly d = true -> trim ("+" ++ d) = "+" ++ d.
Proof.
  intros H. apply noSpace_trim. rewrite append_cons, append_nil_l.
  cbn [noSpace]. now rewrite (digitsOnly_noSpace d H).
Qed.

Lemma startsWith_nil (s : string) : startsWith s "" = true.
Proof. now destruct s. Qed.

Lemma startsWith_truthy (s p : string) :
  truthy_str p = true -> startsWith s p = true -> truthy_str s = true.
Proof. destruct p; [discriminate|]. now destruct s. Qed.

(** The digits of what [toE164] answers. *)
Lemma toE164_digits (p : option string) :
  normalizeDigits (Some (toE164 p))
  = if (String.length (normalizeDigits p) =? 10)%nat
    then "1" ++ normalizeDigits p else normalizeDigits p.
Proof.
  unfold toE164.
  pose proof (removeNonDigits_digitsOnly
                (match p with Some s => s | None => "" end)) as Hd.
  fold (normalizeDigits p) in Hd.
  set (d := normalizeDigits p) in *.
  destruct (truthy_str d) eqn:Et; simpl.
  - destruct ((String.length d =? 11)%nat && startsWith d "1") eqn:E11.
    + apply andb_true_iff in E11. destruct E11 as [E11 _].
      apply Nat.eqb_eq in E11. rewrite E11. simpl.
      unfold normalizeDigits. simpl. now apply digitsOnly_fixed.
    + destruct (String.length d =? 10)%nat eqn:E10.
      * unfold normalizeDigits. simpl. now rewrite digitsOnly_fixed.
      * destruct p as [s|].
        -- destruct (truthy_str s && startsWith (trim s) "+").
           ++ unfold normalizeDigits. now rewrite removeNonDigits_trim.
           ++ unfold normalizeDigits at 1. simpl. now apply digitsOnly_fixed.
        -- vm_compute in Et. discriminate.
  - destruct d; [reflexivity | discriminate].
Qed.

End DigitFacts.

(** X17.  [toE164] answers the empty string exactly when its input holds no
    digit; any other answer starts with "+".  It keeps the digits of the
    input, only putting the country code 1 in front of a ten-digit number. *)
Theorem toE164_plus_and_digits (p : option string) :
  (toE164 p = "" <-> normalizeDigits p = "")
  /\ (normalizeDigits p <> "" -> startsWith (toE164 p) "+" = true)
  /\ normalizeDigits (Some (toE164 p))
     = (if (String.length (normalizeDigits p) =? 10)%nat
        then "1" ++ normalizeDigits p else normalizeDigits p).
Proof.
  assert (Hplus : normalizeDigits p <> "" -> startsWith (toE164 p) "+" = true).
  { intros Hne. unfold toE164.
    destruct (normalizeDigits p) as [|c d] eqn:Ed; [contradiction|].
    simpl truthy_str. simpl negb. cbv iota.
    destruct ((String.length (String c d) =? 11)%nat
              && startsWith (String c d) "1"); [reflexivity|].
    destruct (String.length (String c d) =? 10)%nat; [reflexivity|].
    destruct p as [s|]; [|reflexivity].
    destruct (truthy_str s && startsWith (trim s) "+") eqn:E; [|reflexivity].
    apply andb_true_iff in E. tauto. }
  split; [|split; [exact Hplus | apply toE164_digits]].
  split.
  - intros H. destruct (normalizeDigits p) as [|c d] eqn:Ed; [reflexivity|].
    assert (Hs : startsWith (toE164 p) "+" = true)
      by (apply Hplus; discriminate).
    rewrite H in Hs. discriminate.
  - intros H. unfold toE164. now rewrite H.
Qed.

Example toE164_samples :
  toE164 (Some "(555) 123-4567") = "+15551234567"
  /\ toE164 (Some "1-555-123-4567") = "+15551234567"
  /\ toE164 (Some " +44 20 7946 0958 ") = "+44 20 7946 0958"
  /\ toE164 (Some (Samples.nbsp ++ "+44 20 7946 0958")) = "+44 20 7946 0958"
  /\ toE164 (Some "911") = "+911"
  /\ toE164 (Some "n/a") = ""
  /\ toE164 None = "".
Proof. repeat split. Qed.

(** X18.  [toE164] is idempotent: a number it has answered is answered
    unchanged. *)
Theorem toE164_idempotent (p : option string) :
  toE164 (Some (toE164 p)) = toE164 p.
Proof.
  pose proof (toE164_digits p) as Hdig.
  pose proof (removeNonDigits_digitsOnly
                (match p with Some s => s | None => "" end)) as Hd.
  fold (normalizeDigits p) in Hd.
  unfold toE164 at 1. rewrite Hdig.
  unfold toE164 in *.
  set (d := normalizeDigits p) in *.
  destruct (truthy_str d) eqn:Et; simpl negb in *; cbv iota in *.
  - destruct ((String.length d =? 11)%nat && startsWith d "1") eqn:E11.
    + assert (E10 : (String.length d =? 10)%nat = false).
      { apply andb_true_iff in E11. destruct E11 as [E11 _].
        apply Nat.eqb_eq in E11. now rewrite E11. }
      rewrite E10, Et, E11. reflexivity.
    + destruct (String.length d =? 10)%nat eqn:E10.
      * assert (A1 : truthy_str ("1" ++ d) = true) by reflexivity.
        assert (A2 : (String.length ("1" ++ d) =? 11)%nat
                     && startsWith ("1" ++ d) "1" = true).
        { change ((String.length d =? 10)%nat && startsWith d "" = true).
          now rewrite E10, startsWith_nil. }
        rewrite A1, A2. reflexivity.
      * rewrite Et, E11, E10. simpl negb. cbv iota.
        destruct p as [s|].
        -- destruct (truthy_str s && startsWith (trim s) "+") eqn:Es.
           ++ apply andb_true_iff in Es. destruct Es as [_ Es].
              rewrite trim_idem, Es.
              now rewrite (startsWith_truthy (trim s) "+" eq_refl Es).
           ++ rewrite (plus_digits_trim d Hd).
              destruct (truthy_str ("+" ++ d) && startsWith ("+" ++ d) "+");
                reflexivity.
        -- vm_compute in Et. discriminate.
  - destruct d; [reflexivity | discriminate].
Qed.

Section PaneFacts.

Context {table : CaseTable}.

Lemma toE164_starts_with_plus (p : option string) :
  normalizeDigits p <> "" -> startsWith (toE164 p) "+" = true.
Proof.
  intros Hne. unfold toE164.
  destruct (normalizeDigits p) as [|c d] eqn:Ed; [contradiction|].
  simpl truthy_str. simpl negb. cbv iota.
  destruct ((String.length (String c d) =? 11)%nat
            && startsWith (String c d) "1"); [reflexivity|].
  destruct (String.length (String c d) =? 10)%nat; [reflexivity|].
  destruct p as [s|]; [|reflexivity].
  destruct (truthy_str s && startsWith (trim s) "+") eqn:E; [|reflexivity].
  apply andb_true_iff in E. tauto.
Qed.

Lemma toE164_blank (p : option string) :
  truthy_str (toE164 p) = false -> normalizeDigits p = "".
Proof.
  intros H. destruct (normalizeDigits p) as [|c d] eqn:Ed; [reflexivity|].
  assert (Hs : startsWith (toE164 p) "+" = true).
  { apply toE164_starts_with_plus. rewrite Ed. discriminate. }
  rewrite (startsWith_truthy _ "+" eq_refl Hs) in H. discriminate.
Qed.

End PaneFacts.

(** X19.  [safeDisplayName] never answers an empty name.  It answers the
    name trimmed of its white space, unless that is empty or lower-cases to
    "sms lead"; then it answers the phone trimmed, or "Unknown" when that
    is empty too. *)
Theorem safeDisplayName_never_blank {table : CaseTable}
    (name phone : option string) :
  truthy_str (safeDisplayName name phone) = true
  /\ (truthy_str (trim (match name with Some n => n | None => "" end)) = true ->
      toLowerCase (trim (match name with Some n => n | None => "" end))
      <> "sms lead" ->
      safeDisplayName name phone
      = trim (match name with Some n => n | None => "" end))
  /\ (truthy_str (trim (match name with Some n => n | None => "" end)) = false
      \/ toLowerCase (trim (match name with Some n => n | None => "" end))
         = "sms lead" ->
      safeDisplayName name phone
      = (if truthy_str (trim (match phone with Some x => x | None => "" end))
         then trim (match phone with Some x => x | None => "" end)
         else "Unknown")).
Proof.
  unfold safeDisplayName.
  set (trimmed := trim (match name with Some n => n | None => "" end)).
  set (shown := trim (match phone with Some x => x | None => "" end)).
  destruct (truthy_str trimmed) eqn:Et; simpl.
  - destruct (String.eqb_spec (toLowerCase trimmed) "sms lead") as [E | E].
    + split; [now destruct (truthy_str shown) eqn:Es|].
      split; [intros _ H; contradiction | reflexivity].
    + split; [exact Et|]. split; [reflexivity|].
      intros [H | H]; [discriminate | contradiction].
  - split; [now destruct (truthy_str shown) eqn:Es|].
    split; [discriminate | reflexivity].
Qed.

Example safeDisplayName_samples :
  safeDisplayName (table := asciiTable) (Some "  Ann Lee ") (Some "555-123-4567") = "Ann Lee"
  /\ safeDisplayName (table := asciiTable) (Some "SMS Lead") (Some " 555-123-4567") = "555-123-4567"
  /\ safeDisplayName (table := asciiTable) (Some (Samples.nbsp ++ "SMS Lead"))
       (Some "555-123-4567") = "555-123-4567"
  /\ safeDisplayName (table := asciiTable) (Some "sms lead") None = "Unknown"
  /\ safeDisplayName (table := asciiTable) None (Some "  ") = "Unknown".
Proof. repeat split. Qed.

(** X20.  In the revision with a Back button, Back empties the thread view:
    no selection, no messages, no message error, the list untouched.  After
    a deep-link selection made under the App's wiring, the target is gone
    from the App, so that the effect run with the props of the next render
    selects nothing, whatever the list becomes; run with the props of the
    render that made the selection, it would select again. *)
Theorem back_does_not_reopen_deep_link (a : App.AppState) (s : State) :
  deepLinkSelects (App.conversationsProps a) s = true ->
  let after := deepLinkEffect (App.conversationsProps a) (s, a) in
  let back := handleBackFromThread (fst after) in
  selectedConv back = None
  /\ messages back = []
  /\ msgError back = None
  /\ conversations back = conversations s
  /\ (forall l,
        deepLinkEffect (App.conversationsProps (snd after))
          (setConversations l back, snd after)
        = (setConversations l back, snd after))
  /\ deepLinkSelects (App.conversationsProps a) back = true.
Proof.
  intros H after back.
  destruct (deepLinkEffect_fires _ _ _ a H) as [Hs [Hp [t [Hr E]]]].
  subst back after. rewrite E. simpl.
  split; [reflexivity|]. split; [reflexivity|]. split; [reflexivity|].
  split; [reflexivity|]. split.
  - intros l. reflexivity.
  - unfold deepLinkSelects in *. simpl. now rewrite Hs in H.
Qed.

Lemma back_does_not_reopen_deep_link_witness :
  selectedConv
    (handleBackFromThread
       (fst (deepLinkEffect (App.conversationsProps Samples.pendingApp)
               (Samples.loadedScreen, Samples.pendingApp)))) = None.
Proof.
  apply (back_does_not_reopen_deep_link Samples.pendingApp
           Samples.loadedScreen).
  reflexivity.
Defined.

(** X21.  The Call button never dials an empty number.  Without a selected
    conversation or without a phone on it nothing happens; a phone without
    any digit shows "This contact does not have a valid phone number." and
    dials nothing; otherwise the number dialled is [toE164] of the phone,
    starts with "+", passes the guard of [startOutboundCallFromMobile], and
    the message error is cleared. *)
Theorem call_press_dials_a_plus_number (s : State) :
  match handleCallPress_begin s with
  | NothingToCall =>
      selectedConv s = None
      \/ exists conv, selectedConv s = Some conv /\ phone conv = ""
  | InvalidNumber s' =>
      msgError s' = Some "This contact does not have a valid phone number."
      /\ exists conv,
           selectedConv s = Some conv
           /\ phone conv <> ""
           /\ normalizeDigits (Some (phone conv)) = ""
  | Dial to s' =>
      startOutboundCall_rejects to = false
      /\ startsWith to "+" = true
      /\ msgError s' = None
      /\ exists conv,
           selectedConv s = Some conv /\ to = toE164 (Some (phone conv))
  end.
Proof.
  unfold handleCallPress_begin.
  destruct (selectedConv s) as [conv|]; [|now left].
  destruct (truthy_str (phone conv)) eqn:Ep; simpl.
  - destruct (truthy_str (toE164 (Some (phone conv)))) eqn:Ee; simpl.
    + unfold startOutboundCall_rejects. rewrite Ee.
      split; [reflexivity|]. split.
      * apply toE164_starts_with_plus. intros Hd.
        unfold toE164 in Ee. rewrite Hd in Ee. discriminate.
      * split; [reflexivity|]. exists conv. split; reflexivity.
    + split; [reflexivity|]. exists conv. split; [reflexivity|]. split.
      * intros Hp. rewrite Hp in Ep. discriminate.
      * now apply toE164_blank.
  - right. exists conv. split; [reflexivity|]. now destruct (phone conv).
Qed.

Example call_press_samples :
  handleCallPress_begin
    (setSelectedConv (Some (Samples.withPhone "x" "555-123-4567"))
       initialState)
  = Dial "+15551234567"
      (setSelectedConv (Some (Samples.withPhone "x" "555-123-4567"))
         initialState)
  /\ handleCallPress_begin
       (setSelectedConv (Some (Samples.withPhone "x" "unknown"))
          initialState)
     = InvalidNumber
         (setMsgError
            (Some "This contact does not have a valid phone number.")
            (setSelectedConv (Some (Samples.withPhone "x" "unknown"))
               initialState)).
Proof. split; reflexivity. Qed.

(** ** The voice client *)

Section VoiceFacts.

Lemma firstTruthy_truthy (a b : option string) (c : string) :
  truthy_str c = true -> truthy_str (VoiceClient.firstTruthy a b c) = true.
Proof.
  intros H. unfold VoiceClient.firstTruthy.
  destruct a as [x|]; [destruct (truthy_str x) eqn:Ex; [exact Ex|]|];
    (destruct b as [y|]; [destruct (truthy_str y) eqn:Ey; [exact Ey|]|]);
    exact H.
Qed.

End VoiceFacts.

(** X22.  [fetchVoiceToken] answers a token only for a reply that is ok and
    carries a non-empty token, and then answers that token.  Any other
    reply throws with a non-empty message: the [message] of the body if it
    has one, else its [error], else "Unable to fetch Twilio Voice access
    token.", also when the body could not be parsed. *)
Theorem voice_token_needs_ok_reply (r : VoiceClient.TokenReply) (t : string) :
  (VoiceClient.fetchVoiceToken_settle r = VoiceClient.Returned t
   <-> exists j, r = VoiceClient.Replied true (Some j)
                 /\ VoiceClient.token j = Some t
                 /\ truthy_str t = true)
  /\ (forall ok j m,
        r = VoiceClient.Replied ok j ->
        VoiceClient.fetchVoiceToken_settle r = VoiceClient.Threw m ->
        m = Some (VoiceClient.firstTruthy
                    (VoiceClient.message
                       (match j with
                        | Some x => x
                        | None => VoiceClient.emptyJson
                        end))
                    (VoiceClient.error
                       (match j with
                        | Some x => x
                        | None => VoiceClient.emptyJson
                        end))
                    "Unable to fetch Twilio Voice access token.")
        /\ truthy_ostr m = true).
Proof.
  split.
  - split.
    + unfold VoiceClient.fetchVoiceToken_settle.
      destruct r as [m | ok j]; [discriminate|].
      destruct j as [j|]; simpl; [|discriminate].
      destruct (VoiceClient.token j) as [t'|] eqn:Et; [|discriminate].
      destruct ok; simpl; [|discriminate].
      destruct (truthy_str t') eqn:Ett; [|discriminate].
      intros H. inversion H; subst. exists j. repeat split; assumption.
    + intros [j [-> [Ht Htt]]]. unfold VoiceClient.fetchVoiceToken_settle.
      simpl. now rewrite Ht, Htt.
  - intros ok j m -> H. unfold VoiceClient.fetchVoiceToken_settle in H.
    set (json := match j with Some x => x | None => VoiceClient.emptyJson end)
      in *.
    assert (Hm : m = Some (VoiceClient.firstTruthy (VoiceClient.message json)
                             (VoiceClient.error json)
                             "Unable to fetch Twilio Voice access token.")).
    { destruct (VoiceClient.token json) as [t'|].
      - destruct (ok && truthy_str t'); [discriminate | now inversion H].
      - now inversion H. }
    split; [exact Hm|]. rewrite Hm. simpl. now apply firstTruthy_truthy.
Qed.

(** X23.  Registration with the voice SDK happens once.  From a state where
    the SDK is present, nothing is registered and no registration is under
    way, [ensureVoiceRegistered] starts one, and a second call made
    meanwhile returns at once without starting another.  When the token
    request and [register] both succeed the token is remembered and every
    later call returns at once; when either fails nothing is remembered,
    the in-progress mark is cleared all the same, and the next call starts
    again. *)
Theorem voice_registers_once
    (v : VoiceClient.Voice) (r : VoiceClient.TokenReply) (registerOk : bool) :
  VoiceClient.tvPresent v = true ->
  VoiceClient.registering v = false ->
  truthy_ostr (VoiceClient.registeredToken v) = false ->
  let v1 := VoiceClient.setRegistering true v in
  let v2 := fst (VoiceClient.ensureVoiceRegistered_settle r registerOk v1) in
  VoiceClient.ensureVoiceRegistered_begin v = VoiceClient.BeginFetches v1
  /\ VoiceClient.ensureVoiceRegistered_begin v1 = VoiceClient.BeginReturns
  /\ VoiceClient.registering v2 = false
  /\ match snd (VoiceClient.ensureVoiceRegistered_settle r registerOk v1) with
     | VoiceClient.Returned _ =>
         registerOk = true
         /\ (exists t, VoiceClient.fetchVoiceToken_settle r
                       = VoiceClient.Returned t
                       /\ VoiceClient.registeredToken v2 = Some t)
         /\ VoiceClient.ensureVoiceRegistered_begin v2
            = VoiceClient.BeginReturns
     | VoiceClient.Threw _ =>
         VoiceClient.registeredToken v2 = VoiceClient.registeredToken v
         /\ VoiceClient.ensureVoiceRegistered_begin v2
            = VoiceClient.BeginFetches (VoiceClient.setRegistering true v2)
     end.
Proof.
  intros Htv Hreg Htok v1 v2.
  assert (Hb : forall x,
             VoiceClient.tvPresent x = true ->
             VoiceClient.registering x = false ->
             truthy_ostr (VoiceClient.registeredToken x) = false ->
             VoiceClient.ensureVoiceRegistered_begin x
             = VoiceClient.BeginFetches (VoiceClient.setRegistering true x)).
  { intros x A B C. unfold VoiceClient.ensureVoiceRegistered_begin.
    rewrite A, B. simpl.
    destruct (VoiceClient.registeredToken x) as [t|]; [|reflexivity].
    simpl in C. now rewrite C. }
  split; [now apply Hb|]. split.
  { unfold VoiceClient.ensureVoiceRegistered_begin. simpl. now rewrite Htv. }
  subst v2. unfold VoiceClient.ensureVoiceRegistered_settle.
  destruct (VoiceClient.fetchVoiceToken_settle r) as [t | m] eqn:Er.
  - destruct registerOk; simpl.
    + split; [reflexivity|]. split; [reflexivity|].
      split; [exists t; split; reflexivity|].
      unfold VoiceClient.ensureVoiceRegistered_begin. simpl. rewrite Htv.
      simpl.
      assert (Ht : truthy_str t = true).
      { unfold VoiceClient.fetchVoiceToken_settle in Er.
        destruct r as [x | ok j]; [discriminate|].
        destruct (VoiceClient.token _) as [t'|]; [|discriminate].
        destruct (truthy_str t') eqn:E; destruct ok; simpl in Er;
          try discriminate.
        now inversion Er; subst. }
      now rewrite Ht.
    + split; [reflexivity|]. split; [reflexivity|]. now apply Hb.
  - simpl. split; [reflexivity|]. split; [reflexivity|]. now apply Hb.
Qed.

Lemma voice_registers_once_witness :
  VoiceClient.ensureVoiceRegistered_begin
    {| VoiceClient.tvPresent := true; VoiceClient.registeredToken := None;
       VoiceClient.registering := false; VoiceClient.activeCall := None;
       VoiceClient.mobileAuthToken := Some "jwt" |}
  = VoiceClient.BeginFetches
      (VoiceClient.setRegistering true
         {| VoiceClient.tvPresent := true;
            VoiceClient.registeredToken := None;
            VoiceClient.registering := false; VoiceClient.activeCall := None;
            VoiceClient.mobileAuthToken := Some "jwt" |}).
Proof.
  apply (voice_registers_once
           {| VoiceClient.tvPresent := true;
              VoiceClient.registeredToken := None;
              VoiceClient.registering := false;
              VoiceClient.activeCall := None;
              VoiceClient.mobileAuthToken := Some "jwt" |}
           (VoiceClient.Replied true
              (Some {| VoiceClient.token := Some "tok";
                       VoiceClient.message := None;
                       VoiceClient.error := None |}))
           true); reflexivity.
Defined.

(** ** Push registration *)

(** X24.  [registerForPushNotificationsAsync] answers a registration exactly
    when it runs on a physical device, a project identifier is configured,
    the permission is granted (already, or by the request it then makes),
    the Android channel, where it applies, could be set, and the SDK hands
    back a non-empty token; the registration then carries that token, the
    platform name and the first device identifier available.  In every
    other case it answers null. *)
Theorem push_registration_iff
    (d : Notifications.Device) (r : Notifications.PushRegistrationResult) :
  fst (Notifications.registerForPushNotificationsAsync d) = Some r
  <-> Notifications.isDevice d = true
      /\ is_Some (Notifications.firstId (Notifications.expoConfigProjectId d)
                    (Notifications.easConfigProjectId d))
      /\ (Notifications.getPermissionsAsync d
          = Notifications.Resolves Notifications.granted
          \/ (exists st,
                Notifications.getPermissionsAsync d = Notifications.Resolves st
                /\ st <> Notifications.granted
                /\ Notifications.requestPermissionsAsync d
                   = Notifications.Resolves Notifications.granted))
      /\ (Notifications.OS d = "android" ->
          Notifications.setNotificationChannelAsync d
          = Notifications.Resolves tt)
      /\ Notifications.getExpoPushTokenAsync d
         = Notifications.Resolves (Notifications.expoPushToken r)
      /\ truthy_str (Notifications.expoPushToken r) = true
      /\ Notifications.platform r
         = Notifications.platformOf (Notifications.OS d)
      /\ Notifications.deviceId r
         = Notifications.firstId (Notifications.osInternalBuildId d)
             (Notifications.osBuildId d).
Proof.
  unfold Notifications.registerForPushNotificationsAsync.
  destruct (Notifications.isDevice d); simpl;
    [|split; [discriminate | intros [H _]; discriminate]].
  destruct (Notifications.firstId _ _) as [pid|] eqn:Ep;
    [|split; [discriminate | intros [_ [[x Hx] _]]; discriminate]].
  destruct (Notifications.getPermissionsAsync d) as [st|] eqn:Eg;
    [|split; [discriminate
             | intros [_ [_ [[H | [x [H _]]] _]]]; discriminate]].
  assert (Hperm :
    forall final,
      (if negb (Notifications.isGranted st)
       then Notifications.requestPermissionsAsync d
       else Notifications.Resolves st) = Notifications.Resolves final ->
      Notifications.isGranted final = true ->
      Notifications.Resolves st
      = Notifications.Resolves Notifications.granted
      \/ (exists st0,
            Notifications.Resolves st = Notifications.Resolves st0
            /\ st0 <> Notifications.granted
            /\ Notifications.requestPermissionsAsync d
               = Notifications.Resolves Notifications.granted)).
  { intros final Hf Hgr. destruct final; try discriminate.
    destruct st; simpl in Hf; [now left | right | right];
      eexists; (split; [reflexivity|]); (split; [discriminate | exact Hf]). }
  destruct (if negb (Notifications.isGranted st)
            then Notifications.requestPermissionsAsync d
            else Notifications.Resolves st) as [final|] eqn:Ef.
  2:{ split; [discriminate|].
      intros [_ [_ [[H | [x [H [Hx Hr]]]] _]]].
      - inversion H; subst. discriminate.
      - inversion H; subst. destruct x; simpl in Ef; congruence. }
  destruct (Notifications.isGranted final) eqn:Egr; simpl.
  2:{ split; [discriminate|].
      intros [_ [_ [[H | [x [H [Hx Hr]]]] _]]].
      - inversion H; subst. simpl in Ef. inversion Ef; subst. discriminate.
      - inversion H; subst. destruct x; simpl in Ef;
          try contradiction; rewrite Hr in Ef; inversion Ef; subst;
          discriminate. }
  specialize (Hperm final eq_refl Egr).
  destruct (String.eqb_spec (Notifications.OS d) "android") as [Eos | Eos].
  - destruct (Notifications.setNotificationChannelAsync d) as [[]|] eqn:Ec.
    2:{ split; [discriminate|]. intros [_ [_ [_ [H _]]]].
        specialize (H Eos). discriminate. }
    destruct (Notifications.getExpoPushTokenAsync d) as [tok|] eqn:Et.
    2:{ split; [discriminate|]. intros [_ [_ [_ [_ [H _]]]]]. discriminate. }
    destruct (truthy_str tok) eqn:Ett; simpl.
    + split.
      * intros H. inversion H; subst; simpl. repeat split; eauto.
      * intros [_ [_ [_ [_ [H5 [_ [H7 H8]]]]]]]. inversion H5.
        destruct r as [tk pl di]; simpl in *. subst. reflexivity.
    + split; [discriminate|].
      intros [_ [_ [_ [_ [H5 [H6 _]]]]]]. inversion H5; subst. congruence.
  - destruct (Notifications.getExpoPushTokenAsync d) as [tok|] eqn:Et.
    2:{ split; [discriminate|]. intros [_ [_ [_ [_ [H _]]]]]. discriminate. }
    destruct (truthy_str tok) eqn:Ett; simpl.
    + split.
      * intros H. inversion H; subst; simpl.
        repeat split; eauto. intros Hos. contradiction.
      * intros [_ [_ [_ [_ [H5 [_ [H7 H8]]]]]]]. inversion H5.
        destruct r as [tk pl di]; simpl in *. subst. reflexivity.
    + split; [discriminate|].
      intros [_ [_ [_ [_ [H5 [H6 _]]]]]]. inversion H5; subst. congruence.
Qed.

(** Closes a goal whose hypotheses place a call in a list that does not
    hold it. *)
Ltac no_such_call :=
  repeat match goal with
         | H : In _ _ |- _ => simpl in H
         | H : _ \/ _ |- _ => destruct H
         | H : False |- _ => destruct H
         | H : _ = _ |- _ => discriminate H
         end.

(** X25.  The registration asks for the permission only when it has to: the
    request is made exactly on a physical device with a project identifier
    whose current permission is known and not granted.  On a simulator or
    without project identifier the SDK is not called at all, the Android
    channel is set on Android only, and a push token is asked for only once
    the permission is granted. *)
Theorem push_permission_asked_only_when_needed (d : Notifications.Device) :
  (In Notifications.RequestPermissions
      (snd (Notifications.registerForPushNotificationsAsync d))
   <-> Notifications.isDevice d = true
       /\ is_Some (Notifications.firstId
                     (Notifications.expoConfigProjectId d)
                     (Notifications.easConfigProjectId d))
       /\ exists st,
            Notifications.getPermissionsAsync d = Notifications.Resolves st
            /\ st <> Notifications.granted)
  /\ (Notifications.isDevice d = false
      \/ Notifications.firstId (Notifications.expoConfigProjectId d)
           (Notifications.easConfigProjectId d) = None ->
      snd (Notifications.registerForPushNotificationsAsync d) = [])
  /\ (In Notifications.SetNotificationChannel
         (snd (Notifications.registerForPushNotificationsAsync d)) ->
      Notifications.OS d = "android")
  /\ (In Notifications.GetExpoPushToken
         (snd (Notifications.registerForPushNotificationsAsync d)) ->
      Notifications.getPermissionsAsync d
      = Notifications.Resolves Notifications.granted
      \/ Notifications.requestPermissionsAsync d
         = Notifications.Resolves Notifications.granted).
Proof.
  unfold Notifications.registerForPushNotificationsAsync.
  destruct (Notifications.isDevice d); simpl.
  2:{ split; [split; [intros [] | intros [H _]; discriminate H]|].
      split; [intros _; reflexivity | split; intros []]. }
  destruct (Notifications.firstId _ _) as [pid|]; simpl.
  2:{ split; [split; [intros [] | intros [_ [[x Hx] _]]; discriminate Hx]|].
      split; [intros _; reflexivity | split; intros []]. }
  destruct (Notifications.getPermissionsAsync d) as [st|]; simpl.
  2:{ split;
        [split; [intros H; exfalso; no_such_call
                | intros (_ & _ & x & Hx & _); discriminate Hx]|].
      split; [intros [H | H]; discriminate H|].
      split; intros H; exfalso; no_such_call. }
  destruct (String.eqb_spec (Notifications.OS d) "android") as [Eos | Eos];
    destruct st; simpl;
    destruct (Notifications.requestPermissionsAsync d) as [[]|]; simpl;
    destruct (Notifications.setNotificationChannelAsync d) as [[]|]; simpl;
    destruct (Notifications.getExpoPushTokenAsync d) as [tok|]; simpl;
    try destruct (truthy_str tok); simpl;
    (split;
       [ split;
           [ intros H;
             first [ solve [ split; [reflexivity|]; split; [eauto|];
                             eexists; split; [reflexivity | discriminate] ]
                   | exfalso; no_such_call ]
           | intros (_ & _ & x & Hx & Hn); inversion Hx; subst;
             first [ congruence | simpl; tauto ] ]
       | split;
           [ intros [H | H]; discriminate
           | split;
               [ intros H; first [ exact Eos | exfalso; no_such_call ]
               | intros H;
                 first [ now left | now right | exfalso; no_such_call ] ] ] ]).
Qed.

Example push_registration_on_android :
  Notifications.registerForPushNotificationsAsync
    {| Notifications.isDevice := true;
       Notifications.expoConfigProjectId := None;
       Notifications.easConfigProjectId := Some "proj";
       Notifications.OS := "android";
       Notifications.osInternalBuildId := None;
       Notifications.osBuildId := Some "build-7";
       Notifications.getPermissionsAsync :=
         Notifications.Resolves Notifications.undetermined;
       Notifications.requestPermissionsAsync :=
         Notifications.Resolves Notifications.granted;
       Notifications.setNotificationChannelAsync := Notifications.Resolves tt;
       Notifications.getExpoPushTokenAsync :=
         Notifications.Resolves "ExponentPushToken[abc]" |}
  = (Some {| Notifications.expoPushToken := "ExponentPushToken[abc]";
             Notifications.platform := Notifications.android;
             Notifications.deviceId := Some "build-7" |},
     [Notifications.GetPermissions; Notifications.RequestPermissions;
      Notifications.SetNotificationChannel; Notifications.GetExpoPushToken]).
Proof. reflexivity. Qed.

(** ** Formatting of phone numbers *)

Section FormatFacts.

Lemma format_keeps_digits (num : string) :
  removeNonDigits (NumbersScreen.format num) = removeNonDigits num.
Proof.
  unfold NumbersScreen.format.
  pose proof (removeNonDigits_digitsOnly num) as Hd.
  remember (removeNonDigits num) as c eqn:Ec.
  destruct (String.length c =? 11)%nat eqn:E11.
  - apply Nat.eqb_eq in E11.
    do 11 (destruct c as [|? c]; [discriminate E11|]).
    destruct c; [|discriminate E11].
    simpl in Hd.
    repeat (apply andb_true_iff in Hd; destruct Hd as [? Hd]).
    cbv -[isDigit].
    repeat match goal with
           | H : isDigit _ = true |- _ => rewrite H; clear H
           end.
    reflexivity.
  - destruct (String.length c =? 10)%nat eqn:E10; [|now symmetry].
    apply Nat.eqb_eq in E10.
    do 10 (destruct c as [|? c]; [discriminate E10|]).
    destruct c; [|discriminate E10].
    simpl in Hd.
    repeat (apply andb_true_iff in Hd; destruct Hd as [? Hd]).
    cbv -[isDigit].
    repeat match goal with
           | H : isDigit _ = true |- _ => rewrite H; clear H
           end.
    reflexivity.
Qed.

End FormatFacts.

(** X26.  Formatting a phone number for display never changes its digits,
    and formatting twice is formatting once.  Ten digits are shown in
    groups of three, three and four (415-555-1234) and eleven in groups of
    one, three, three and four (1-415-555-1234), the groups joined by
    hyphens; any other number is shown as it is. *)
Theorem format_keeps_digits_and_is_idempotent (num : string) :
  removeNonDigits (NumbersScreen.format num) = removeNonDigits num
  /\ NumbersScreen.format (NumbersScreen.format num) = NumbersScreen.format num
  /\ (forall a b c,
        removeNonDigits num = a ++ b ++ c ->
        String.length a = 3%nat -> String.length b = 3%nat ->
        String.length c = 4%nat ->
        NumbersScreen.format num = a ++ "-" ++ b ++ "-" ++ c)
  /\ (forall k a b c,
        removeNonDigits num = k ++ a ++ b ++ c ->
        String.length k = 1%nat -> String.length a = 3%nat ->
        String.length b = 3%nat -> String.length c = 4%nat ->
        NumbersScreen.format num = k ++ "-" ++ a ++ "-" ++ b ++ "-" ++ c)
  /\ (String.length (removeNonDigits num) <> 10%nat ->
      String.length (removeNonDigits num) <> 11%nat ->
      NumbersScreen.format num = num).
Proof.
  split; [apply format_keeps_digits|]. split; [|split; [|split]].
  - unfold NumbersScreen.format at 1. rewrite format_keeps_digits.
    unfold NumbersScreen.format.
    destruct (String.length (removeNonDigits num) =? 11)%nat;
      [reflexivity|].
    now destruct (String.length (removeNonDigits num) =? 10)%nat.
  - intros a b c H Ha Hb Hc.
    do 3 (destruct a as [|? a]; [discriminate Ha|]).
    destruct a; [|discriminate Ha].
    do 3 (destruct b as [|? b]; [discriminate Hb|]).
    destruct b; [|discriminate Hb].
    do 4 (destruct c as [|? c]; [discriminate Hc|]).
    destruct c; [|discriminate Hc].
    unfold NumbersScreen.format. rewrite H. reflexivity.
  - intros k a b c H Hk Ha Hb Hc.
    destruct k as [|? k]; [discriminate Hk|].
    destruct k; [|discriminate Hk].
    do 3 (destruct a as [|? a]; [discriminate Ha|]).
    destruct a; [|discriminate Ha].
    do 3 (destruct b as [|? b]; [discriminate Hb|]).
    destruct b; [|discriminate Hb].
    do 4 (destruct c as [|? c]; [discriminate Hc|]).
    destruct c; [|discriminate Hc].
    unfold NumbersScreen.format. rewrite H. reflexivity.
  - intros H10 H11. unfold NumbersScreen.format.
    apply Nat.eqb_neq in H10, H11. now rewrite H10, H11.
Qed.

Example format_samples :
  NumbersScreen.format "+14155551234" = "1-415-555-1234"
  /\ NumbersScreen.format "(415) 555-1234" = "415-555-1234"
  /\ NumbersScreen.format "555-1234" = "555-1234".
Proof. repeat split. Qed.

(** ** [connectAndJoin] on the registered socket *)

(** X27.  On a socket that is already registered, [connectAndJoin] answers
    that socket and touches neither its listeners nor an established
    connection: [connect()] is called only when the socket is not
    connected.  Every call with a non-blank address stores the normalised
    identity and emits exactly one more join carrying it; a blank address
    clears the stored identity and emits nothing. *)
Theorem connectAndJoin_on_registered_socket {table : CaseTable}
    (e : option string) (w : World) (sid : nat) (s : Socket) :
  __crm_mobile_socket__ w = Some sid ->
  sockets w !! sid = Some s ->
  fst (connectAndJoin e w) = Some sid
  /\ sockets (snd (connectAndJoin e w)) !! sid
     = Some {| SocketClient.connected := SocketClient.connected s;
               connecting :=
                 if SocketClient.connected s then connecting s else true;
               listeners := listeners s;
               emitted :=
                 if truthy_str (normalizeEmail e)
                 then (emitted s ++ [("join", normalizeEmail e)])%list
                 else emitted s |}
  /\ __crm_mobile_socket_email__ (snd (connectAndJoin e w))
     = (if truthy_str (normalizeEmail e) then Some (normalizeEmail e)
        else None)
  /\ length (sockets (snd (connectAndJoin e w))) = length (sockets w)
  /\ nextStamp (snd (connectAndJoin e w)) = nextStamp w.
Proof.
  intros Hreg Hs. unfold connectAndJoin.
  rewrite bind_fst, bind_snd, (getSocket_existing w sid Hreg).
  unfold bind, writeEmail, isConnected, connect, emit, modifySocket, ret.
  simpl. rewrite Hs.
  destruct s as [c g ls em]. simpl.
  destruct c; destruct (truthy_str (normalizeEmail e)); simpl;
    rewrite ?list_lookup_alter_eq, ?Hs, ?length_alter; simpl;
    repeat split; reflexivity.
Qed.

Lemma connectAndJoin_on_registered_socket_witness :
  fst (connectAndJoin (table := asciiTable) (Some "Bob@Example.com") Samples.liveWorld) = Some O.
Proof.
  eapply (connectAndJoin_on_registered_socket (table := asciiTable)
            (Some "Bob@Example.com")
            Samples.liveWorld O); reflexivity.
Defined.
